(** * GitHub Extractor: the extraction engine of the content script

    A shallow embedding of the extraction engine of the content script
    (link collector [extractLinks], number parser [extractNumber], the
    [EXTRACTORS] table, the generic fallback [genericExtract], the page
    classifier [PAGE_RULES] / [detectPage], [getContextInfo] and the
    orchestrator [extractItems]), followed by the properties of the
    specification that concern it.

    Conventions of the embedding.
    - A JavaScript string is a [string]; one [ascii] stands for one code
      unit, so the model speaks about strings over the code units 0..255.
    - [null] / [undefined] / an absent key is [None].
    - A call that may raise returns a [completion]: [Normal v] or [Throw e].
    - [window.location] and [document] are explicit arguments.
    - The platform's [URL] constructor is a parameter of the engine
      ([URLctor]); [URL_new] is a model of it on the inputs evaluated in
      this file. *)

From Stdlib Require Import String Ascii List Bool Arith NArith Lia.
Import ListNotations.
Local Open Scope string_scope.
Local Open Scope list_scope.
Local Open Scope bool_scope.
Local Open Scope nat_scope.

(* ================================================================== *)
(** * Characters and strings *)
(* ================================================================== *)

Definition code (c : ascii) : nat := nat_of_ascii c.

Definition in_range (lo hi : nat) (c : ascii) : bool :=
  (lo <=? code c) && (code c <=? hi).

(** [\d] *)
Definition is_digit (c : ascii) : bool := in_range 48 57 c.

(** [\w] : [A-Za-z0-9_] *)
Definition is_word (c : ascii) : bool :=
  in_range 97 122 c || in_range 65 90 c || in_range 48 57 c || (code c =? 95).

(** [[^/]] *)
Definition not_slash (c : ascii) : bool := negb (Ascii.eqb c "/").

(** White space and line terminators removed by [String.prototype.trim],
    among the code units 0..255: TAB, LF, VT, FF, CR, SP, NBSP. *)
Definition is_space (c : ascii) : bool :=
  in_range 9 13 c || (code c =? 32) || (code c =? 160).

(** Case folding of the [i] flag.  A code unit outside ASCII never folds
    to an ASCII one, so for the ASCII letters of the patterns in this
    program folding [a-z] to [A-Z] is exact. *)
Definition canonicalize (c : ascii) : ascii :=
  if in_range 97 122 c then ascii_of_nat (code c - 32) else c.

Definition char_eq (ignoreCase : bool) (a c : ascii) : bool :=
  if ignoreCase then Ascii.eqb (canonicalize a) (canonicalize c)
  else Ascii.eqb a c.

Fixpoint trim_start (s : string) : string :=
  match s with
  | String c s' => if is_space c then trim_start s' else s
  | EmptyString => EmptyString
  end.

(** Drops trailing white space: a white-space character is kept only when
    something that is kept follows it. *)
Fixpoint trim_end (s : string) : string :=
  match s with
  | EmptyString => EmptyString
  | String c s' =>
      match trim_end s' with
      | EmptyString => if is_space c then EmptyString else String c EmptyString
      | t => String c t
      end
  end.

(** [s.trim()] *)
Definition trim (s : string) : string := trim_end (trim_start s).

(** JavaScript truthiness of a string value: [!s] holds for the empty
    string. *)
Definition is_empty (s : string) : bool :=
  match s with EmptyString => true | _ => false end.

Fixpoint starts_with (p s : string) : bool :=
  match p with
  | EmptyString => true
  | String a p' =>
      match s with
      | String c s' => Ascii.eqb a c && starts_with p' s'
      | EmptyString => false
      end
  end.

Fixpoint contains (p s : string) : bool :=
  starts_with p s ||
  match s with
  | String _ s' => contains p s'
  | EmptyString => false
  end.

(** The first [n] code units of [s]. *)
Fixpoint take (n : nat) (s : string) : string :=
  match n, s with
  | S n', String c s' => String c (take n' s')
  | _, _ => EmptyString
  end.

(** Maximal prefix of [s] whose characters satisfy [p], and the rest. *)
Fixpoint span (p : ascii -> bool) (s : string) : string * string :=
  match s with
  | String c s' =>
      if p c then let (a, b) := span p s' in (String c a, b)
      else (EmptyString, s)
  | EmptyString => (EmptyString, EmptyString)
  end.

(* ================================================================== *)
(** * Regular expressions *)
(* ================================================================== *)

(** The pattern language used by the regular-expression literals of the
    program.  Quantifier [+] only occurs on character classes there. *)
Inductive regex : Type :=
| rLit (l : string)                 (* a run of literal characters *)
| rClass (p : ascii -> bool)        (* \d, [^/], ... *)
| rPlus (p : ascii -> bool)         (* class+ (greedy) *)
| rOpt (r : regex)                  (* r? (greedy) *)
| rSeq (r1 r2 : regex)
| rAlt (r1 r2 : regex)              (* r1|r2 *)
| rGroup (n : nat) (r : regex)      (* n-th capturing group *)
| rBol                              (* ^ *)
| rEol                              (* $ *)
| rWordB.                           (* \b *)

Declare Scope regex_scope.
Delimit Scope regex_scope with re.
Bind Scope regex_scope with regex.
Infix ">>" := rSeq (at level 41, right associativity) : regex_scope.
Infix "<|>" := rAlt (at level 45, right associativity) : regex_scope.

Definition captures := list (nat * string).

Fixpoint capture (n : nat) (cs : captures) : option string :=
  match cs with
  | [] => None
  | (m, s) :: cs' => if n =? m then Some s else capture n cs'
  end.

(** A matcher position: the character before the position ([None] at the
    start of the input) and the remaining input. *)
Definition cont (A : Type) := option ascii -> string -> captures -> option A.

Fixpoint lit_match (ic : bool) (l s : string) (prev : option ascii)
  : option (option ascii * string) :=
  match l with
  | EmptyString => Some (prev, s)
  | String a l' =>
      match s with
      | String c s' => if char_eq ic a c then lit_match ic l' s' (Some c) else None
      | EmptyString => None
      end
  end.

Definition class_test (ic : bool) (p : ascii -> bool) (c : ascii) : bool :=
  if ic then p c || p (canonicalize c) else p c.

Definition or_else {A} (x y : option A) : option A :=
  match x with Some _ => x | None => y end.

(** Greedy [class+]: take one character, prefer taking more, otherwise
    continue with the rest of the pattern. *)
Fixpoint plus_match {A} (ic : bool) (p : ascii -> bool) (s : string)
         (cs : captures) (k : cont A) : option A :=
  match s with
  | String c s' =>
      if class_test ic p c
      then or_else (plus_match ic p s' cs k) (k (Some c) s' cs)
      else None
  | EmptyString => None
  end.

Definition word_before (prev : option ascii) : bool :=
  match prev with Some c => is_word c | None => false end.

Definition word_after (s : string) : bool :=
  match s with String c _ => is_word c | EmptyString => false end.

(** Backtracking matcher in continuation-passing style: tries the
    alternatives in the priority order of the language and returns the
    first one the continuation accepts. *)
Fixpoint rmatch {A} (ic : bool) (r : regex) (prev : option ascii) (s : string)
         (cs : captures) (k : cont A) {struct r} : option A :=
  match r with
  | rLit l =>
      match lit_match ic l s prev with
      | Some (prev', s') => k prev' s' cs
      | None => None
      end
  | rClass p =>
      match s with
      | String c s' => if class_test ic p c then k (Some c) s' cs else None
      | EmptyString => None
      end
  | rPlus p => plus_match ic p s cs k
  | rOpt r1 => or_else (rmatch ic r1 prev s cs k) (k prev s cs)
  | rSeq r1 r2 =>
      rmatch ic r1 prev s cs (fun prev' s' cs' => rmatch ic r2 prev' s' cs' k)
  | rAlt r1 r2 => or_else (rmatch ic r1 prev s cs k) (rmatch ic r2 prev s cs k)
  | rGroup n r1 =>
      rmatch ic r1 prev s cs
        (fun prev' s' cs' =>
           k prev' s' ((n, take (String.length s - String.length s') s) :: cs'))
  | rBol => match prev with None => k prev s cs | Some _ => None end
  | rEol => match s with EmptyString => k prev s cs | String _ _ => None end
  | rWordB => if xorb (word_before prev) (word_after s) then k prev s cs else None
  end.

(** A match: index of its first character, index just after its last
    one, and the captured groups. *)
Record MatchResult : Type := mkMatch {
  m_index : nat;
  m_end : nat;
  m_groups : captures
}.

(** One attempt at the given position. *)
Definition match_here (ic : bool) (r : regex) (prev : option ascii) (s : string)
  : option (string * captures) :=
  rmatch ic r prev s [] (fun _ s' cs => Some (s', cs)).

(** Leftmost match at or after the current position ([idx] is the index
    of the position, [len] the length of the whole input). *)
Fixpoint search (ic : bool) (r : regex) (len idx : nat) (prev : option ascii)
         (s : string) : option MatchResult :=
  match match_here ic r prev s with
  | Some (s', cs) => Some (mkMatch idx (len - String.length s') cs)
  | None =>
      match s with
      | String c s' => search ic r len (S idx) (Some c) s'
      | EmptyString => None
      end
  end.

(** The position [i] of [s]: the character before it and the rest. *)
Fixpoint seek (i : nat) (prev : option ascii) (s : string) : option ascii * string :=
  match i, s with
  | S i', String c s' => seek i' (Some c) s'
  | _, _ => (prev, s)
  end.

(** A [RegExp] object: its pattern, its flags and its mutable
    [lastIndex]. *)
Record RegExp : Type := mkRegExp {
  source : regex;
  ignoreCase : bool;
  global : bool;
  sticky : bool;
  lastIndex : nat
}.

(** The literal [/source/]. *)
Definition re (r : regex) : RegExp := mkRegExp r false false false 0.
(** The literal [/source/i]. *)
Definition re_i (r : regex) : RegExp := mkRegExp r true false false 0.

Definition set_lastIndex (R : RegExp) (i : nat) : RegExp :=
  mkRegExp (source R) (ignoreCase R) (global R) (sticky R) i.

(** [R.exec(s)] (RegExpBuiltinExec): without the [g] and [y] flags the
    search starts at 0 and [lastIndex] is left alone; with one of them it
    starts at [lastIndex], which is then moved to the end of the match, or
    reset to 0 on failure.  Returns the match and the updated object. *)
Definition RegExp_exec (R : RegExp) (s : string) : option MatchResult * RegExp :=
  let len := String.length s in
  if global R || sticky R then
    if len <? lastIndex R then (None, set_lastIndex R 0)
    else
      let (prev, rest) := seek (lastIndex R) None s in
      let found :=
        if sticky R then
          match match_here (ignoreCase R) (source R) prev rest with
          | Some (s', cs) => Some (mkMatch (lastIndex R) (len - String.length s') cs)
          | None => None
          end
        else search (ignoreCase R) (source R) len (lastIndex R) prev rest in
      match found with
      | Some m => (Some m, set_lastIndex R (m_end m))
      | None => (None, set_lastIndex R 0)
      end
  else (search (ignoreCase R) (source R) len 0 None s, R).

(** [R.test(s)] *)
Definition RegExp_test (R : RegExp) (s : string) : bool * RegExp :=
  let (m, R') := RegExp_exec R s in
  (match m with Some _ => true | None => false end, R').

(** [/re/.test(s)] on a literal evaluated in place: the object is fresh
    and dropped after the call. *)
Definition test (R : RegExp) (s : string) : bool := fst (RegExp_test R s).

(** [s.match(/re/)] for a literal without the [g] flag, evaluated in
    place. *)
Definition String_match (s : string) (R : RegExp) : option MatchResult :=
  fst (RegExp_exec R s).

(* ================================================================== *)
(** * extractNumber *)
(* ================================================================== *)

(** [/\/(?:pull|issues)\/(\d+)/] *)
Definition number_re : RegExp :=
  re (rLit "/" >> (rLit "pull" <|> rLit "issues") >> rLit "/" >> rGroup 1 (rPlus is_digit)).

(** [function extractNumber(href)] *)
Definition extractNumber (href : string) : option string :=
  match String_match href number_re with
  | Some m =>
      match capture 1 (m_groups m) with
      | Some id => Some ("#" ++ id)%string
      | None => Some "#undefined"
      end
  | None => None
  end.

(* ================================================================== *)
(** * The platform: URL objects *)
(* ================================================================== *)

(** The properties of a [URL] object (and of [window.location]) that the
    engine reads. *)
Record URL : Type := mkURL {
  url_href : string;
  url_origin : string;
  url_pathname : string;
  url_search : string
}.

(** Completion of a call: a value, or an exception. *)
Inductive completion (A : Type) : Type :=
| Normal (v : A)
| Throw (e : string).
Arguments Normal {A} v.
Arguments Throw {A} e.

Definition bind {A B} (c : completion A) (f : A -> completion B) : completion B :=
  match c with
  | Normal v => f v
  | Throw e => Throw e
  end.

Notation "x <- c ;; k" := (bind c (fun x => k))
  (at level 61, c at next level, right associativity).

(** ** A model of [new URL(input, base)]

    [URL_new] follows the URL Standard on these inputs, against a base
    that is an [http] or [https] URL: absolute [http] and [https] URLs
    (also with more or fewer than two slashes after the colon),
    scheme-relative inputs ([//host/...]), and path-absolute,
    query-only, fragment-only and path-relative references.  The host
    is a domain of ASCII letters, digits, hyphens and dots, or an IPv4
    address in any of its notations; the constructor fails (raises
    [TypeError]) on an empty host, a forbidden host code point, an
    invalid IPv4 address and an invalid port.  An input with a scheme
    other than [http], [https], [ftp], [ws], [wss], [file] and [blob]
    and without an authority ([mailto:], [javascript:]) gets the opaque
    origin ["null"].  Outside the model are: the other special schemes
    and [blob:], an authority after another scheme, user info, IPv6
    literals, hosts with code units above 127, percent-encoding and
    decoding, dot segments, backslashes and the stripping of white
    space and control characters.  The general properties below do not
    depend on this model: they hold for every constructor [URLctor]. *)

Definition is_alpha (c : ascii) : bool := in_range 97 122 c || in_range 65 90 c.

Definition to_lower (c : ascii) : ascii :=
  if in_range 65 90 c then ascii_of_nat (code c + 32) else c.

Fixpoint lower (s : string) : string :=
  match s with
  | String c s' => String (to_lower c) (lower s')
  | EmptyString => EmptyString
  end.

Fixpoint all_chars (p : ascii -> bool) (s : string) : bool :=
  match s with
  | String c s' => p c && all_chars p s'
  | EmptyString => true
  end.

(** Forbidden host code points (and the further forbidden domain code
    points) of the URL Standard. *)
Definition forbidden_host (c : ascii) : bool :=
  in_range 0 32 c || (code c =? 127) ||
  existsb (Ascii.eqb c) (list_ascii_of_string "#/:<>?@[\]^|%").

Fixpoint decimal (s : string) (acc : N) : N :=
  match s with
  | String c s' => decimal s' (10 * acc + (N_of_ascii c - 48))%N
  | EmptyString => acc
  end.

Definition digit_char (d : N) : ascii := ascii_of_N (48 + d).

Fixpoint show_N_fuel (fuel : nat) (n : N) (acc : string) : string :=
  match fuel with
  | O => acc
  | S fuel' =>
      let acc' := String (digit_char (n mod 10)%N) acc in
      if (n / 10 =? 0)%N then acc' else show_N_fuel fuel' (n / 10)%N acc'
  end.

(** Decimal digits of a port number (at most five). *)
Definition show_port (n : N) : string := show_N_fuel 5 n EmptyString.

Definition default_port (scheme : string) : N :=
  if String.eqb scheme "https" then 443%N else 80%N.

(** The labels of a host: the text between its dots. *)
Fixpoint split_dots (cur : string) (s : string) : list string :=
  match s with
  | EmptyString => [cur]
  | String "."%char s' => cur :: split_dots EmptyString s'
  | String c s' => split_dots (cur ++ String c EmptyString)%string s'
  end.

(** The value of a digit in the radix [r]. *)
Definition digit_value (r : N) (c : ascii) : option N :=
  let v := if is_digit c then (N_of_ascii c - 48)%N
           else if in_range 97 102 c then (N_of_ascii c - 87)%N
           else if in_range 65 70 c then (N_of_ascii c - 55)%N
           else 16%N in
  if (v <? r)%N then Some v else None.

Fixpoint parse_radix (r : N) (s : string) (acc : N) : option N :=
  match s with
  | EmptyString => Some acc
  | String c s' =>
      match digit_value r c with
      | Some v => parse_radix r s' (r * acc + v)%N
      | None => None
      end
  end.

(** The IPv4 number parser: decimal, octal after [0], hexadecimal after
    [0x]. *)
Definition ipv4_number (s : string) : option N :=
  match s with
  | EmptyString => None
  | String "0"%char (String x s') =>
      if Ascii.eqb x "x" || Ascii.eqb x "X" then parse_radix 16 s' 0
      else parse_radix 8 (String x s') 0
  | _ => parse_radix 10 s 0
  end.

(** The labels without the empty label that a final dot leaves. *)
Definition host_parts (host : string) : list string :=
  let parts := split_dots EmptyString host in
  match rev parts with
  | EmptyString :: (p :: ps) => rev (p :: ps)
  | _ => parts
  end.

(** Whether the host ends in a number, and is an IPv4 address for the
    host parser. *)
Definition ends_in_number (host : string) : bool :=
  match rev (host_parts host) with
  | last :: _ =>
      (negb (is_empty last) && all_chars is_digit last)
      || match ipv4_number last with Some _ => true | None => false end
  | [] => false
  end.

Fixpoint all_numbers (parts : list string) : option (list N) :=
  match parts with
  | [] => Some []
  | p :: ps =>
      match ipv4_number p, all_numbers ps with
      | Some n, Some ns => Some (n :: ns)
      | _, _ => None
      end
  end.

(** The numbers before the last weigh [256^3], [256^2] and [256]. *)
Fixpoint ipv4_sum (numbers : list N) (i : N) : N :=
  match numbers with
  | [] => 0%N
  | n :: numbers' => (n * 256 ^ (3 - i) + ipv4_sum numbers' (i + 1))%N
  end.

(** The IPv4 parser: the address as a number below [2^32]. *)
Definition ipv4 (host : string) : option N :=
  let parts := host_parts host in
  if 4 <? length parts then None
  else
    match all_numbers parts with
    | None => None
    | Some numbers =>
        match rev numbers with
        | [] => None
        | last :: before =>
            if existsb (fun n => (255 <? n)%N) before then None
            else if (256 ^ (5 - N.of_nat (length numbers)) <=? last)%N then None
            else Some (last + ipv4_sum (rev before) 0)%N
        end
    end.

(** The four octets of an address, in decimal with dots. *)
Definition show_ipv4 (n : N) : string :=
  let octet i := show_N_fuel 3 ((n / 256 ^ i) mod 256)%N EmptyString in
  (octet 3%N ++ "." ++ octet 2%N ++ "." ++ octet 1%N ++ "." ++ octet 0%N)%string.

(** The host parser on a domain or an IPv4 address. *)
Definition parse_host (host : string) : option string :=
  if is_empty host || negb (all_chars (fun c => negb (forbidden_host c)) host) then None
  else
    let domain := lower host in
    if ends_in_number domain then option_map show_ipv4 (ipv4 domain)
    else Some domain.

(** Host and port of an authority, serialized; [None] when the host or
    the port is invalid. *)
Definition parse_authority (scheme auth : string) : option string :=
  let (host, rest) := span (fun c => negb (Ascii.eqb c ":")) auth in
  match parse_host host with
  | None => None
  | Some host' =>
      match rest with
      | EmptyString => Some host'
      | String _ port =>
          if negb (all_chars is_digit port) then None
          else if is_empty port then Some host'
          else
            let n := decimal port 0 in
            if (65535 <? n)%N then None
            else if (n =? default_port scheme)%N then Some host'
            else Some (host' ++ ":" ++ show_port n)%string
      end
  end.

Definition not_path_end (c : ascii) : bool :=
  negb (Ascii.eqb c "?") && negb (Ascii.eqb c "#").

Definition not_authority_end (c : ascii) : bool :=
  negb (Ascii.eqb c "/") && not_path_end c.

(** Splits [path?query#fragment] into the path, the query (with its
    [?]) and the fragment (with its [#]). *)
Definition split_path (s : string) : string * string * string :=
  let (path, rest) := span not_path_end s in
  let (query, frag) := span (fun c => negb (Ascii.eqb c "#")) rest in
  (path, query, frag).

(** The slashes at the start of [s] dropped. *)
Fixpoint skip_slashes (s : string) : string :=
  match s with
  | String "/"%char s' => skip_slashes s'
  | _ => s
  end.

(** What follows [scheme:] in an [http] or [https] URL with an
    authority: slashes (two, but any number is taken), then
    [host:port/path?query#fragment]. *)
Definition parse_special (scheme after : string) : option URL :=
  let (auth, tail) := span not_authority_end (skip_slashes after) in
  match parse_authority scheme auth with
  | None => None
  | Some hostport =>
      let '(path, query, frag) := split_path tail in
      let path' := if is_empty path then "/" else path in
      let origin := (scheme ++ "://" ++ hostport)%string in
      Some (mkURL (origin ++ path' ++ query ++ frag)%string origin path'
                  (if String.eqb query "?" then EmptyString else query))
  end.

Definition is_scheme_char (c : ascii) : bool :=
  is_alpha c || is_digit c || existsb (Ascii.eqb c) (list_ascii_of_string "+-.").

(** A leading [scheme:], if any: the scheme in lower case and what
    follows the colon. *)
Definition split_scheme (s : string) : option (string * string) :=
  match s with
  | String c _ =>
      if is_alpha c then
        let (sch, rest) := span is_scheme_char s in
        match rest with
        | String ":"%char after => Some (lower sch, after)
        | _ => None
        end
      else None
  | EmptyString => None
  end.

Definition is_special (scheme : string) : bool :=
  String.eqb scheme "http" || String.eqb scheme "https".

(** An absolute URL string; the scheme is serialized in lower case. *)
Definition parse_absolute (s : string) : option URL :=
  match split_scheme s with
  | Some (scheme, after) =>
      if is_special scheme then parse_special scheme after
      else
        let '(path, query, frag) := split_path after in
        Some (mkURL (scheme ++ ":" ++ after)%string "null" path
                    (if String.eqb query "?" then EmptyString else query))
  | None => None
  end.

(** The directory of a path: everything up to its last [/]. *)
Fixpoint dir_of (path : string) : string :=
  match path with
  | EmptyString => EmptyString
  | String c p' =>
      if contains "/" p' then String c (dir_of p')
      else if Ascii.eqb c "/" then "/" else EmptyString
  end.

(** The scheme of a parsed URL. *)
Definition scheme_of (u : URL) : string :=
  match split_scheme (url_href u) with
  | Some (scheme, _) => scheme
  | None => EmptyString
  end.

(** A reference relative to a parsed base. *)
Definition resolve (input : string) (base : URL) : option URL :=
  let fragless := fst (span (fun c => negb (Ascii.eqb c "#")) (url_href base)) in
  let mk path query frag :=
    Some (mkURL (url_origin base ++ path ++ query ++ frag)%string (url_origin base) path
                (if String.eqb query "?" then EmptyString else query)) in
  if is_empty input then
    Some (mkURL fragless (url_origin base) (url_pathname base) (url_search base))
  else if starts_with "//" input then parse_special (scheme_of base) input
  else
    let '(path, query, frag) := split_path input in
    if starts_with "/" input then mk path query frag
    else if starts_with "?" input then mk (url_pathname base) query frag
    else if starts_with "#" input then
      Some (mkURL (fragless ++ input)%string (url_origin base) (url_pathname base)
                  (url_search base))
    else mk (dir_of (url_pathname base) ++ path)%string query frag.

(** [new URL(input, base)]; [None] stands for the [TypeError] raised on
    an invalid URL.  An input with the scheme of the base that does not
    go on with [//] is a reference relative to the base. *)
Definition URL_new (input base : string) : option URL :=
  match parse_absolute base with
  | None => None
  | Some b =>
      match split_scheme input with
      | Some (scheme, after) =>
          if is_special scheme && String.eqb scheme (scheme_of b)
             && negb (starts_with "//" after)
          then resolve after b
          else parse_absolute input
      | None => resolve input b
      end
  end.

(** [new URL(input)], without a base: the input must be an absolute
    URL. *)
Definition URL_new1 (input : string) : option URL := parse_absolute input.

(* ================================================================== *)
(** * The platform: documents and selectors *)
(* ================================================================== *)

Definition attribute := (string * string)%type.

(** A node of the document tree: an element with its (lower-case) tag
    name, its attributes and its children, or a text node. *)
#[warnings="-register-all"]
Inductive Node : Type :=
| Elem (tagName : string) (attributes : list attribute) (childNodes : list Node)
| Text (data : string).

(** An element as a script sees it: the element together with the chain
    of its ancestors, nearest first. *)
Record Element : Type := mkElement {
  el_tag : string;
  el_attrs : list attribute;
  el_children : list Node;
  el_ancestors : list (string * list attribute)
}.

(** [attrs.getNamedItem(name)?.value] *)
Fixpoint lookup_attr (name : string) (attrs : list attribute) : option string :=
  match attrs with
  | [] => None
  | (n, v) :: attrs' => if String.eqb n name then Some v else lookup_attr name attrs'
  end.

(** [el.getAttribute(name)] *)
Definition getAttribute (el : Element) (name : string) : option string :=
  lookup_attr name (el_attrs el).

(** [el.hasAttribute(name)] *)
Definition hasAttribute (el : Element) (name : string) : bool :=
  match getAttribute el name with Some _ => true | None => false end.

(** ASCII white space separating class names. *)
Definition is_token_sep (c : ascii) : bool :=
  (code c =? 9) || (code c =? 10) || (code c =? 12) || (code c =? 13) || (code c =? 32).

(** Splits at white space; [cur] is the token being read. *)
Fixpoint tokens_from (cur : string) (s : string) : list string :=
  match s with
  | EmptyString => if is_empty cur then [] else [cur]
  | String c s' =>
      if is_token_sep c
      then (if is_empty cur then tokens_from EmptyString s'
            else cur :: tokens_from EmptyString s')
      else tokens_from (cur ++ String c EmptyString)%string s'
  end.

Definition class_tokens (attrs : list attribute) : list string :=
  match lookup_attr "class" attrs with
  | Some v => tokens_from EmptyString v
  | None => []
  end.

Definition mem (x : string) (l : list string) : bool := existsb (String.eqb x) l.

(** [el.classList.contains(name)] *)
Definition classList_contains (el : Element) (name : string) : bool :=
  mem name (class_tokens (el_attrs el)).

(** [node.textContent]: the text of all descendant text nodes, in
    document order. *)
Fixpoint node_text (n : Node) : string :=
  match n with
  | Text d => d
  | Elem _ _ cs => String.concat EmptyString (map node_text cs)
  end.

(** [el.textContent] *)
Definition textContent (el : Element) : string :=
  String.concat EmptyString (map node_text (el_children el)).

(** The elements of a subtree in document order (pre-order), each with
    its ancestors. *)
Fixpoint elements (anc : list (string * list attribute)) (n : Node) : list Element :=
  match n with
  | Text _ => []
  | Elem t a cs => mkElement t a cs anc :: flat_map (elements ((t, a) :: anc)) cs
  end.

(** ** Selectors *)

(** Simple selectors. *)
Inductive Simple : Type :=
| sTag (t : string)                 (* t *)
| sClass (c : string)               (* .c *)
| sId (i : string)                  (* #i *)
| sHas (name : string)              (* [name] *)
| sEq (name v : string)             (* [name="v"] *)
| sPrefix (name v : string)         (* [name^="v"] *)
| sSub (name v : string).           (* [name*="v"] *)

(** A compound selector: all its simple selectors hold of one element. *)
Definition Compound := list Simple.
(** A complex selector: compounds separated by descendant combinators. *)
Definition Complex := list Compound.
(** A selector list: complex selectors separated by commas. *)
Definition Selector := list Complex.

Definition attr_test (f : string -> bool) (name : string) (attrs : list attribute) : bool :=
  match lookup_attr name attrs with Some v => f v | None => false end.

Definition matches_simple (s : Simple) (e : string * list attribute) : bool :=
  let (t, attrs) := e in
  match s with
  | sTag t' => String.eqb t t'
  | sClass c => mem c (class_tokens attrs)
  | sId i => attr_test (String.eqb i) "id" attrs
  | sHas n => attr_test (fun _ => true) n attrs
  | sEq n v => attr_test (String.eqb v) n attrs
  | sPrefix n v => negb (is_empty v) && attr_test (starts_with v) n attrs
  | sSub n v => negb (is_empty v) && attr_test (contains v) n attrs
  end.

Definition matches_compound (c : Compound) (e : string * list attribute) : bool :=
  forallb (fun s => matches_simple s e) c.

(** [outer] lists the compounds still to be matched, innermost first;
    each must hold of a strict ancestor of the element matched by the
    previous one. *)
Fixpoint match_up (outer : list Compound) (anc : list (string * list attribute)) : bool :=
  match outer with
  | [] => true
  | c :: outer' =>
      (fix scan (l : list (string * list attribute)) : bool :=
         match l with
         | [] => false
         | a :: l' => (matches_compound c a && match_up outer' l') || scan l'
         end) anc
  end.

Definition matches_complex (cx : Complex) (self : string * list attribute)
           (anc : list (string * list attribute)) : bool :=
  match rev cx with
  | [] => false
  | c :: outer => matches_compound c self && match_up outer anc
  end.

(** [el.matches(selector)] *)
Definition matches (sel : Selector) (el : Element) : bool :=
  existsb (fun cx => matches_complex cx (el_tag el, el_attrs el) (el_ancestors el)) sel.

(** [document.querySelectorAll(selector)]: the matching elements in
    document order. *)
Definition querySelectorAll (doc : Node) (sel : Selector) : list Element :=
  filter (matches sel) (elements [] doc).

(** Whether [self] or one of the ancestors matches. *)
Fixpoint closest_from (sel : Selector) (self : string * list attribute)
         (anc : list (string * list attribute)) : bool :=
  existsb (fun cx => matches_complex cx self anc) sel ||
  match anc with
  | [] => false
  | a :: anc' => closest_from sel a anc'
  end.

(** The selector made of one complex selector. *)
Definition sel (cx : Complex) : Selector := [cx].

(** Truthiness of [el.closest(selector)]. *)
Definition closest (el : Element) (sel : Selector) : bool :=
  closest_from sel (el_tag el, el_attrs el) (el_ancestors el).

(** ** Items, locations and results *)

Record Item : Type := mkItem {
  title : string;
  url : string;
  number : option string
}.

(** [window.location] *)
Record Location : Type := mkLocation {
  loc_href : string;
  loc_origin : string;
  loc_pathname : string;
  loc_search : string
}.

Record RepoContext : Type := mkRepo {
  owner : string;
  repo : string
}.

(** The object returned by [extractItems].  [pageType] and [pageLabel]
    are [None] for [null]; [error] and [result_url] are [None] when the
    key is absent. *)
Record ExtractionResult : Type := mkResult {
  success : bool;
  pageType : option string;
  pageLabel : option string;
  result_repo : RepoContext;
  items : list Item;
  error : option string;
  result_url : option string
}.

(* ================================================================== *)
(** * The extraction engine *)
(* ================================================================== *)

Section Engine.

(** [new URL(input, base)] of the platform; [None] when it raises. *)
Variable URLctor : string -> string -> option URL.

(** [window.location] *)
Variable location : Location.

Definition invalid_url : string := "TypeError: Invalid URL".

(** [new URL(href, window.location.origin)] as a call that may raise. *)
Definition new_URL (href : string) : completion URL :=
  match URLctor href (loc_origin location) with
  | Some u => Normal u
  | None => Throw invalid_url
  end.

(** ** Link collector *)

(** The variables of a run of [extractLinks]: the [seen] set (in
    insertion order), the [items] array and the [hrefPattern] object. *)
Record Collector : Type := mkCollector {
  seen : list string;
  collected : list Item;
  pattern_obj : option RegExp
}.

(** [hrefPattern && !hrefPattern.test(href)], with the pattern object
    after the call. *)
Definition rejected_by (pat : option RegExp) (href : string) : bool * option RegExp :=
  match pat with
  | None => (false, None)
  | Some R => let (ok, R') := RegExp_test R href in (negb ok, Some R')
  end.

(** Body of the inner loop of [extractLinks] for one [link]. *)
Definition collect_link (st : Collector) (link : Element) : completion Collector :=
  match getAttribute link "href" with
  | None => Normal st
  | Some href =>
      if is_empty href || mem href (seen st) then Normal st
      else
        let (skip, pat') := rejected_by (pattern_obj st) href in
        if skip then Normal (mkCollector (seen st) (collected st) pat')
        else
          let title := trim (textContent link) in
          if is_empty title then Normal (mkCollector (seen st) (collected st) pat')
          else
            u <- new_URL href ;;
            Normal (mkCollector (seen st ++ [href])
                      (collected st ++ [mkItem title (url_href u) (extractNumber href)])
                      pat')
  end.

(** [for (const link of links) ...] *)
Fixpoint collect_links (st : Collector) (links : list Element) : completion Collector :=
  match links with
  | [] => Normal st
  | link :: links' => st' <- collect_link st link ;; collect_links st' links'
  end.

(** [for (const selector of selectors) for (const link of
    doc.querySelectorAll(selector)) ...] *)
Fixpoint collect_selectors (doc : Node) (st : Collector) (selectors : list Selector)
  : completion Collector :=
  match selectors with
  | [] => Normal st
  | selector :: selectors' =>
      st' <- collect_links st (querySelectorAll doc selector) ;;
      collect_selectors doc st' selectors'
  end.

(** [function extractLinks(doc, selectors, hrefPattern)] *)
Definition extractLinks (doc : Node) (selectors : list Selector)
           (hrefPattern : option RegExp) : completion (list Item) :=
  st <- collect_selectors doc (mkCollector [] [] hrefPattern) selectors ;;
  Normal (collected st).

(** ** Page-specific extractors

    Each method of [EXTRACTORS] calls [extractLinks] with its list of
    selectors and its [hrefPattern]; the regular-expression literal is
    evaluated at each call, so the pattern object is fresh. *)

Definition issueOrPr_selectors : list Selector :=
  [
    (* [id^="issue_"] .Link--primary *)
    sel [[sPrefix "id" "issue_"]; [sClass "Link--primary"]];
    (* [id^="issue_"] a.markdown-title *)
    sel [[sPrefix "id" "issue_"]; [sTag "a"; sClass "markdown-title"]];
    (* [id^="issue_"] a.js-navigation-open *)
    sel [[sPrefix "id" "issue_"]; [sTag "a"; sClass "js-navigation-open"]];
    (* .js-issue-row .Link--primary *)
    sel [[sClass "js-issue-row"]; [sClass "Link--primary"]];
    (* .js-issue-row a.markdown-title *)
    sel [[sClass "js-issue-row"]; [sTag "a"; sClass "markdown-title"]];
    (* .js-issue-row a.js-navigation-open *)
    sel [[sClass "js-issue-row"]; [sTag "a"; sClass "js-navigation-open"]];
    (* [data-testid="issue-row"] a[data-testid="issue-title-link"] *)
    sel [[sEq "data-testid" "issue-row"]; [sTag "a"; sEq "data-testid" "issue-title-link"]];
    (* [data-testid="list-row"] a[data-testid="issue-title-link"] *)
    sel [[sEq "data-testid" "list-row"]; [sTag "a"; sEq "data-testid" "issue-title-link"]];
    (* [data-testid="list-row"] a[data-testid="pull-request-title-link"] *)
    sel [[sEq "data-testid" "list-row"]; [sTag "a"; sEq "data-testid" "pull-request-title-link"]];
    (* .js-navigation-container .Link--primary[href*="/pull/"] *)
    sel [[sClass "js-navigation-container"]; [sClass "Link--primary"; sSub "href" "/pull/"]];
    (* .js-navigation-container .Link--primary[href*="/issues/"] *)
    sel [[sClass "js-navigation-container"]; [sClass "Link--primary"; sSub "href" "/issues/"]];
    (* .js-issue-row a[data-hovercard-type="pull_request"] *)
    sel [[sClass "js-issue-row"]; [sTag "a"; sEq "data-hovercard-type" "pull_request"]];
    (* .js-issue-row a[data-hovercard-type="issue"] *)
    sel [[sClass "js-issue-row"]; [sTag "a"; sEq "data-hovercard-type" "issue"]];
    (* .listRow a.Link--primary[href*="/issues/"] *)
    sel [[sClass "listRow"]; [sTag "a"; sClass "Link--primary"; sSub "href" "/issues/"]];
    (* .listRow a.Link--primary[href*="/pull/"] *)
    sel [[sClass "listRow"]; [sTag "a"; sClass "Link--primary"; sSub "href" "/pull/"]];
    (* div[data-id] a.Link--primary[href*="/issues/"] *)
    sel [[sTag "div"; sHas "data-id"]; [sTag "a"; sClass "Link--primary"; sSub "href" "/issues/"]];
    (* div[data-id] a.Link--primary[href*="/pull/"] *)
    sel [[sTag "div"; sHas "data-id"]; [sTag "a"; sClass "Link--primary"; sSub "href" "/pull/"]];
    (* a.markdown-title[href*="/pull/"] *)
    sel [[sTag "a"; sClass "markdown-title"; sSub "href" "/pull/"]];
    (* a.markdown-title[href*="/issues/"] *)
    sel [[sTag "a"; sClass "markdown-title"; sSub "href" "/issues/"]];
    (* a.js-navigation-open[href*="/pull/"] *)
    sel [[sTag "a"; sClass "js-navigation-open"; sSub "href" "/pull/"]];
    (* a.js-navigation-open[href*="/issues/"] *)
    sel [[sTag "a"; sClass "js-navigation-open"; sSub "href" "/issues/"]]
  ].

(** [/\/(pull|issues)\/\d+/] *)
Definition issueOrPr_pattern : RegExp :=
  re (rLit "/" >> rGroup 1 (rLit "pull" <|> rLit "issues") >> rLit "/" >> rPlus is_digit).

(** [issueOrPr(doc)] *)
Definition issueOrPr (doc : Node) : completion (list Item) :=
  extractLinks doc issueOrPr_selectors (Some issueOrPr_pattern).

Definition milestone_selectors : list Selector :=
  [
    (* [id^="issue_"] a.markdown-title *)
    sel [[sPrefix "id" "issue_"]; [sTag "a"; sClass "markdown-title"]];
    (* [id^="issue_"] a.js-navigation-open *)
    sel [[sPrefix "id" "issue_"]; [sTag "a"; sClass "js-navigation-open"]];
    (* [id^="issue_"] .Link--primary *)
    sel [[sPrefix "id" "issue_"]; [sClass "Link--primary"]];
    (* .js-issue-row a.markdown-title *)
    sel [[sClass "js-issue-row"]; [sTag "a"; sClass "markdown-title"]];
    (* .js-issue-row a.js-navigation-open *)
    sel [[sClass "js-issue-row"]; [sTag "a"; sClass "js-navigation-open"]];
    (* .js-issue-row .Link--primary *)
    sel [[sClass "js-issue-row"]; [sClass "Link--primary"]];
    (* [data-testid="issue-row"] a[data-testid="issue-title-link"] *)
    sel [[sEq "data-testid" "issue-row"]; [sTag "a"; sEq "data-testid" "issue-title-link"]];
    (* [data-testid="list-row"] a[data-testid="issue-title-link"] *)
    sel [[sEq "data-testid" "list-row"]; [sTag "a"; sEq "data-testid" "issue-title-link"]];
    (* [data-testid="list-row"] a[data-testid="pull-request-title-link"] *)
    sel [[sEq "data-testid" "list-row"]; [sTag "a"; sEq "data-testid" "pull-request-title-link"]];
    (* div[data-id] a.Link--primary[href*="/issues/"] *)
    sel [[sTag "div"; sHas "data-id"]; [sTag "a"; sClass "Link--primary"; sSub "href" "/issues/"]];
    (* div[data-id] a.Link--primary[href*="/pull/"] *)
    sel [[sTag "div"; sHas "data-id"]; [sTag "a"; sClass "Link--primary"; sSub "href" "/pull/"]];
    (* a.markdown-title[href*="/pull/"] *)
    sel [[sTag "a"; sClass "markdown-title"; sSub "href" "/pull/"]];
    (* a.markdown-title[href*="/issues/"] *)
    sel [[sTag "a"; sClass "markdown-title"; sSub "href" "/issues/"]];
    (* a.js-navigation-open[href*="/pull/"] *)
    sel [[sTag "a"; sClass "js-navigation-open"; sSub "href" "/pull/"]];
    (* a.js-navigation-open[href*="/issues/"] *)
    sel [[sTag "a"; sClass "js-navigation-open"; sSub "href" "/issues/"]]
  ].

(** [/\/(pull|issues)\/\d+/] *)
Definition milestone_pattern : RegExp :=
  re (rLit "/" >> rGroup 1 (rLit "pull" <|> rLit "issues") >> rLit "/" >> rPlus is_digit).

(** [milestone(doc)] *)
Definition milestone (doc : Node) : completion (list Item) :=
  extractLinks doc milestone_selectors (Some milestone_pattern).

Definition milestonesList_selectors : list Selector :=
  [
    (* a.Link--primary[href*='/milestone/'] *)
    sel [[sTag "a"; sClass "Link--primary"; sSub "href" "/milestone/"]];
    (* a[href*='/milestone/'].Link--primary *)
    sel [[sTag "a"; sSub "href" "/milestone/"; sClass "Link--primary"]]
  ].

(** [/\/milestone\//] *)
Definition milestonesList_pattern : RegExp :=
  re (rLit "/milestone/").

(** [milestonesList(doc)] *)
Definition milestonesList (doc : Node) : completion (list Item) :=
  extractLinks doc milestonesList_selectors (Some milestonesList_pattern).

Definition projects_selectors : list Selector :=
  [
    (* a.Link--primary[href*='/projects/'] *)
    sel [[sTag "a"; sClass "Link--primary"; sSub "href" "/projects/"]];
    (* a[href*='/projects/'].Link--primary *)
    sel [[sTag "a"; sSub "href" "/projects/"; sClass "Link--primary"]]
  ].

(** [/\/projects\//] *)
Definition projects_pattern : RegExp :=
  re (rLit "/projects/").

(** [projects(doc)] *)
Definition projects (doc : Node) : completion (list Item) :=
  extractLinks doc projects_selectors (Some projects_pattern).

Definition repositories_selectors : list Selector :=
  [
    (* [itemprop="name codeRepository"] a *)
    sel [[sEq "itemprop" "name codeRepository"]; [sTag "a"]];
    (* a[itemprop="name codeRepository"] *)
    sel [[sTag "a"; sEq "itemprop" "name codeRepository"]];
    (* h3 a[href*="/"][data-hovercard-type="repository"] *)
    sel [[sTag "h3"]; [sTag "a"; sSub "href" "/"; sEq "data-hovercard-type" "repository"]];
    (* #user-repositories-list h3 a *)
    sel [[sId "user-repositories-list"]; [sTag "h3"]; [sTag "a"]];
    (* .org-repos h3 a *)
    sel [[sClass "org-repos"]; [sTag "h3"]; [sTag "a"]];
    (* .repo-list h3 a *)
    sel [[sClass "repo-list"]; [sTag "h3"]; [sTag "a"]];
    (* .search-title a[href*="/"] *)
    sel [[sClass "search-title"]; [sTag "a"; sSub "href" "/"]];
    (* .d-block h3 a[href*="/"] *)
    sel [[sClass "d-block"]; [sTag "h3"]; [sTag "a"; sSub "href" "/"]];
    (* article h3 a[href*="/"] *)
    sel [[sTag "article"]; [sTag "h3"]; [sTag "a"; sSub "href" "/"]];
    (* h3 a.Link[href*="/"] *)
    sel [[sTag "h3"]; [sTag "a"; sClass "Link"; sSub "href" "/"]];
    (* a[data-hovercard-type="repository"] *)
    sel [[sTag "a"; sEq "data-hovercard-type" "repository"]]
  ].

(** [/^\/[^/]+\/[^/]+\/?$/] *)
Definition repositories_pattern : RegExp :=
  re (rBol >> rLit "/" >> rPlus not_slash >> rLit "/" >> rPlus not_slash >> rOpt (rLit "/") >> rEol).

(** [repositories(doc)] *)
Definition repositories (doc : Node) : completion (list Item) :=
  extractLinks doc repositories_selectors (Some repositories_pattern).

Definition releases_selectors : list Selector :=
  [
    (* .release .Link--primary *)
    sel [[sClass "release"]; [sClass "Link--primary"]];
    (* [data-testid="release-card"] a.Link--primary *)
    sel [[sEq "data-testid" "release-card"]; [sTag "a"; sClass "Link--primary"]];
    (* .Box-row h2 a *)
    sel [[sClass "Box-row"]; [sTag "h2"]; [sTag "a"]];
    (* a[href*="/releases/tag/"] *)
    sel [[sTag "a"; sSub "href" "/releases/tag/"]]
  ].

(** [/\/releases\/tag\//] *)
Definition releases_pattern : RegExp :=
  re (rLit "/releases/tag/").

(** [releases(doc)] *)
Definition releases (doc : Node) : completion (list Item) :=
  extractLinks doc releases_selectors (Some releases_pattern).

Definition tags_selectors : list Selector :=
  [
    (* .Box-row a.Link--primary[href*="/tree/"] *)
    sel [[sClass "Box-row"]; [sTag "a"; sClass "Link--primary"; sSub "href" "/tree/"]];
    (* .Box-row h4 a *)
    sel [[sClass "Box-row"]; [sTag "h4"]; [sTag "a"]];
    (* a.Link--primary[href*="/releases/tag/"] *)
    sel [[sTag "a"; sClass "Link--primary"; sSub "href" "/releases/tag/"]]
  ].

(** [tags(doc)], with [hrefPattern] [null]. *)
Definition tags (doc : Node) : completion (list Item) :=
  extractLinks doc tags_selectors None.

Definition branches_selectors : list Selector :=
  [
    (* .branch-name a *)
    sel [[sClass "branch-name"]; [sTag "a"]];
    (* a[href*="/tree/"].branch-name *)
    sel [[sTag "a"; sSub "href" "/tree/"; sClass "branch-name"]];
    (* .Box-row a.Link--primary[href*="/tree/"] *)
    sel [[sClass "Box-row"]; [sTag "a"; sClass "Link--primary"; sSub "href" "/tree/"]]
  ].

(** [/\/tree\//] *)
Definition branches_pattern : RegExp :=
  re (rLit "/tree/").

(** [branches(doc)] *)
Definition branches (doc : Node) : completion (list Item) :=
  extractLinks doc branches_selectors (Some branches_pattern).

Definition discussions_selectors : list Selector :=
  [
    (* a[data-hovercard-type="discussion"] *)
    sel [[sTag "a"; sEq "data-hovercard-type" "discussion"]];
    (* .Link--primary[href*="/discussions/"] *)
    sel [[sClass "Link--primary"; sSub "href" "/discussions/"]]
  ].

(** [/\/discussions\/\d+/] *)
Definition discussions_pattern : RegExp :=
  re (rLit "/discussions/" >> rPlus is_digit).

(** [discussions(doc)] *)
Definition discussions (doc : Node) : completion (list Item) :=
  extractLinks doc discussions_selectors (Some discussions_pattern).

Definition commits_selectors : list Selector :=
  [
    (* a.Link--primary[href*="/commit/"] *)
    sel [[sTag "a"; sClass "Link--primary"; sSub "href" "/commit/"]];
    (* .js-commits-list-item a.Link--primary *)
    sel [[sClass "js-commits-list-item"]; [sTag "a"; sClass "Link--primary"]];
    (* .TimelineItem a.Link--primary[href*="/commit/"] *)
    sel [[sClass "TimelineItem"]; [sTag "a"; sClass "Link--primary"; sSub "href" "/commit/"]]
  ].

(** [/\/commit\//] *)
Definition commits_pattern : RegExp :=
  re (rLit "/commit/").

(** [commits(doc)] *)
Definition commits (doc : Node) : completion (list Item) :=
  extractLinks doc commits_selectors (Some commits_pattern).

Definition actions_selectors : list Selector :=
  [
    (* .Box-row a.Link--primary[href*="/actions/runs/"] *)
    sel [[sClass "Box-row"]; [sTag "a"; sClass "Link--primary"; sSub "href" "/actions/runs/"]];
    (* a[href*="/actions/runs/"].Link--primary *)
    sel [[sTag "a"; sSub "href" "/actions/runs/"; sClass "Link--primary"]]
  ].

(** [/\/actions\/runs\//] *)
Definition actions_pattern : RegExp :=
  re (rLit "/actions/runs/").

(** [actions(doc)] *)
Definition actions (doc : Node) : completion (list Item) :=
  extractLinks doc actions_selectors (Some actions_pattern).

Definition packages_selectors : list Selector :=
  [
    (* a.Link--primary[href*="/packages/"] *)
    sel [[sTag "a"; sClass "Link--primary"; sSub "href" "/packages/"]]
  ].

(** [/\/packages\//] *)
Definition packages_pattern : RegExp :=
  re (rLit "/packages/").

(** [packages(doc)] *)
Definition packages (doc : Node) : completion (list Item) :=
  extractLinks doc packages_selectors (Some packages_pattern).

Definition gists_selectors : list Selector :=
  [
    (* .gist-snippet .Link--primary *)
    sel [[sClass "gist-snippet"]; [sClass "Link--primary"]];
    (* a.Link--primary[href*="gist.github.com"] *)
    sel [[sTag "a"; sClass "Link--primary"; sSub "href" "gist.github.com"]];
    (* .css-truncate a[href*="/"] *)
    sel [[sClass "css-truncate"]; [sTag "a"; sSub "href" "/"]]
  ].

(** [gists(doc)], with [hrefPattern] [null]. *)
Definition gists (doc : Node) : completion (list Item) :=
  extractLinks doc gists_selectors None.

(** The object [EXTRACTORS]: its keys in insertion order, which is the
    order of [Object.keys(EXTRACTORS)], each with its method. *)
Definition EXTRACTORS : list (string * (Node -> completion (list Item))) :=
  [ ("issueOrPr", issueOrPr);
    ("milestone", milestone);
    ("milestonesList", milestonesList);
    ("projects", projects);
    ("repositories", repositories);
    ("releases", releases);
    ("tags", tags);
    ("branches", branches);
    ("discussions", discussions);
    ("commits", commits);
    ("actions", actions);
    ("packages", packages);
    ("gists", gists) ].

(** ** Generic fallback extractor *)

(** [r1|r2|...] over literal alternatives. *)
Fixpoint one_of (alts : list string) : regex :=
  match alts with
  | [] => rClass (fun _ => false)
  | [l] => rLit l
  | l :: alts' => rAlt (rLit l) (one_of alts')
  end.

(** The selector list passed to [doc.querySelectorAll] (the array joined
    with commas). *)
Definition generic_candidates : Selector :=
  [ (* a.Link--primary *)
    [[sTag "a"; sClass "Link--primary"]];
    (* a.markdown-title *)
    [[sTag "a"; sClass "markdown-title"]];
    (* a.js-navigation-open *)
    [[sTag "a"; sClass "js-navigation-open"]];
    (* a[data-hovercard-type] *)
    [[sTag "a"; sHas "data-hovercard-type"]];
    (* .Box-row a[href^="/"] *)
    [[sClass "Box-row"]; [sTag "a"; sPrefix "href" "/"]];
    (* [role="row"] a[href^="/"] *)
    [[sEq "role" "row"]; [sTag "a"; sPrefix "href" "/"]];
    (* [id^="issue_"] a[href^="/"] *)
    [[sPrefix "id" "issue_"]; [sTag "a"; sPrefix "href" "/"]];
    (* .js-issue-row a[href^="/"] *)
    [[sClass "js-issue-row"]; [sTag "a"; sPrefix "href" "/"]];
    (* [data-testid] a[href^="/"] *)
    [[sHas "data-testid"]; [sTag "a"; sPrefix "href" "/"]];
    (* h1 a[href^="/"] *)
    [[sTag "h1"]; [sTag "a"; sPrefix "href" "/"]];
    (* h2 a[href^="/"] *)
    [[sTag "h2"]; [sTag "a"; sPrefix "href" "/"]];
    (* h3 a[href^="/"] *)
    [[sTag "h3"]; [sTag "a"; sPrefix "href" "/"]];
    (* h4 a[href^="/"] *)
    [[sTag "h4"]; [sTag "a"; sPrefix "href" "/"]];
    (* li a[href^="/"] *)
    [[sTag "li"]; [sTag "a"; sPrefix "href" "/"]];
    (* article a[href^="/"] *)
    [[sTag "article"]; [sTag "a"; sPrefix "href" "/"]]
  ].

(** [/^#/] *)
Definition fragment_re : RegExp := re (rBol >> rLit "#").

(** [/^\/(settings|login|signup|features|pricing|enterprise|sponsors|about|security|notifications|new|codespaces)\b/] *)
Definition denylist_re : RegExp :=
  re (rBol >> rLit "/" >>
      rGroup 1 (one_of ["settings"; "login"; "signup"; "features"; "pricing";
                        "enterprise"; "sponsors"; "about"; "security";
                        "notifications"; "new"; "codespaces"]) >>
      rWordB).

(** [/\.(png|jpg|svg|gif|ico|css|js)$/i] *)
Definition asset_re : RegExp :=
  re_i (rLit "." >> rGroup 1 (one_of ["png"; "jpg"; "svg"; "gif"; "ico"; "css"; "js"]) >> rEol).

(** ["h1, h2, h3, h4"] *)
Definition heading_sel : Selector :=
  [ [[sTag "h1"]]; [[sTag "h2"]]; [[sTag "h3"]]; [[sTag "h4"]] ].

(** [".Box-row, [role='row'], .js-issue-row, [id^='issue_'], [data-testid], article"] *)
Definition container_sel : Selector :=
  [ [[sClass "Box-row"]]; [[sEq "role" "row"]]; [[sClass "js-issue-row"]];
    [[sPrefix "id" "issue_"]]; [[sHas "data-testid"]]; [[sTag "article"]] ].

(** The [isTitle] heuristic of [genericExtract]. *)
Definition isTitle (link : Element) : bool :=
  classList_contains link "Link--primary" ||
  classList_contains link "markdown-title" ||
  classList_contains link "js-navigation-open" ||
  hasAttribute link "data-hovercard-type" ||
  closest link heading_sel ||
  closest link container_sel.

(** The variables of a run of [genericExtract]. *)
Record Generic : Type := mkGeneric {
  g_seen : list string;
  g_items : list Item
}.

(** Body of the loop of [genericExtract] for one [link]; every
    [continue] leaves the state as it is. *)
Definition generic_link (st : Generic) (link : Element) : completion Generic :=
  let currentPath := loc_pathname location in
  match getAttribute link "href" with
  | None => Normal st
  | Some href =>
      if is_empty href || mem href (g_seen st) then Normal st
      else if String.eqb href "#" || String.eqb href currentPath then Normal st
      else if test fragment_re href then Normal st
      else
        (* try { fullUrl = new URL(...) } catch { continue; } *)
        match new_URL href with
        | Throw _ => Normal st
        | Normal fullUrl =>
            if negb (String.eqb (url_origin fullUrl) (loc_origin location)) then Normal st
            else
              let path := url_pathname fullUrl in
              if test denylist_re path then Normal st
              else if test asset_re path then Normal st
              else
                let title := trim (textContent link) in
                if is_empty title || (String.length title <? 3) || (300 <? String.length title)
                then Normal st
                else if negb (isTitle link) then Normal st
                else
                  Normal (mkGeneric (g_seen st ++ [href])
                            (g_items st ++ [mkItem title (url_href fullUrl) (extractNumber href)]))
        end
  end.

(** [for (const link of candidates) ...] *)
Fixpoint generic_links (st : Generic) (links : list Element) : completion Generic :=
  match links with
  | [] => Normal st
  | link :: links' => st' <- generic_link st link ;; generic_links st' links'
  end.

(** [function genericExtract(doc)] *)
Definition genericExtract (doc : Node) : completion (list Item) :=
  st <- generic_links (mkGeneric [] []) (querySelectorAll doc generic_candidates) ;;
  Normal (g_items st).

(** ** Page detection *)

Record PageRule : Type := mkRule {
  pattern : RegExp;
  rule_type : option string;
  rule_label : string
}.

(** [/\/name\b/] *)
Definition segment_re (name : string) : RegExp :=
  re (rLit ("/" ++ name)%string >> rWordB).

(** The array [PAGE_RULES] as the script creates it. *)
Definition PAGE_RULES : list PageRule :=
  [ (* /\/milestones\/?$/ *)
    mkRule (re (rLit "/milestones" >> rOpt (rLit "/") >> rEol)) (Some "milestonesList") "Milestones";
    (* /\/milestone\/\d+/ *)
    mkRule (re (rLit "/milestone/" >> rPlus is_digit)) (Some "milestone") "Milestone";
    (* /\/pulls\b/ *)
    mkRule (segment_re "pulls") (Some "issueOrPr") "Pull Requests";
    (* /\/issues\b/ *)
    mkRule (segment_re "issues") (Some "issueOrPr") "Issues";
    (* /\/projects\b/ *)
    mkRule (segment_re "projects") (Some "projects") "Projects";
    (* /\/discussions\b/ *)
    mkRule (segment_re "discussions") (Some "discussions") "Discussions";
    (* /\/releases\b/ *)
    mkRule (segment_re "releases") (Some "releases") "Releases";
    (* /\/tags\b/ *)
    mkRule (segment_re "tags") (Some "tags") "Tags";
    (* /\/branches\b/ *)
    mkRule (segment_re "branches") (Some "branches") "Branches";
    (* /\/commits\b/ *)
    mkRule (segment_re "commits") (Some "commits") "Commits";
    (* /\/actions\b/ *)
    mkRule (segment_re "actions") (Some "actions") "Actions";
    (* /\/packages\b/ *)
    mkRule (segment_re "packages") (Some "packages") "Packages";
    (* /\?tab=repositories/ *)
    mkRule (re (rLit "?tab=repositories")) (Some "repositories") "Repositories";
    (* /\/orgs\/[^/]+\/repositories/ *)
    mkRule (re (rLit "/orgs/" >> rPlus not_slash >> rLit "/repositories"))
           (Some "repositories") "Repositories";
    (* /\/search/ *)
    mkRule (re (rLit "/search")) None "Search Results";
    (* /\/trending/ *)
    mkRule (re (rLit "/trending")) (Some "repositories") "Trending";
    (* /\/explore/ *)
    mkRule (re (rLit "/explore")) (Some "repositories") "Explore";
    (* /\/stars/ *)
    mkRule (re (rLit "/stars")) (Some "repositories") "Stars";
    (* /gist\.github\.com/ *)
    mkRule (re (rLit "gist.github.com")) (Some "gists") "Gists" ].

(** The object [{ type, label }] returned by [detectPage]. *)
Record Page : Type := mkPage {
  page_type : option string;
  page_label : string
}.

(** The rule with its pattern object replaced. *)
Definition with_pattern (rule : PageRule) (R : RegExp) : PageRule :=
  mkRule R (rule_type rule) (rule_label rule).

(** [for (const rule of rules) if (rule.pattern.test(full)) return ...]:
    the page of the first rule that matches, if any, and the rule
    objects after the calls to [test]. *)
Fixpoint first_rule (full : string) (rules : list PageRule) : option Page * list PageRule :=
  match rules with
  | [] => (None, [])
  | rule :: rules' =>
      let (hit, R') := RegExp_test (pattern rule) full in
      if hit
      then (Some (mkPage (rule_type rule) (rule_label rule)), with_pattern rule R' :: rules')
      else
        let (found, rules'') := first_rule full rules' in
        (found, with_pattern rule R' :: rules'')
  end.

(** [function detectPage()], reading the rule objects [rules] (the
    current state of the array [PAGE_RULES]) and returning them after
    the call. *)
Definition detectPage (rules : list PageRule) : Page * list PageRule :=
  let path := loc_pathname location in
  let search := loc_search location in
  let full := (path ++ search)%string in
  let (found, rules') := first_rule full rules in
  (match found with
   | Some page => page
   | None => mkPage None "Items"
   end, rules').

(** [/^\/([^/]+)(?:\/([^/]+))?/] *)
Definition context_re : RegExp :=
  re (rBol >> rLit "/" >> rGroup 1 (rPlus not_slash) >>
      rOpt (rLit "/" >> rGroup 2 (rPlus not_slash))).

(** [x || ''] for a captured group. *)
Definition or_empty (x : option string) : string :=
  match x with Some s => s | None => EmptyString end.

(** [function getContextInfo()] *)
Definition getContextInfo : RepoContext :=
  match String_match (loc_pathname location) context_re with
  | Some m => mkRepo (or_empty (capture 1 (m_groups m))) (or_empty (capture 2 (m_groups m)))
  | None => mkRepo EmptyString EmptyString
  end.

(** ** Orchestrator *)

(** [EXTRACTORS[key]] *)
Fixpoint lookup_extractor (key : string)
         (table : list (string * (Node -> completion (list Item))))
  : option (Node -> completion (list Item)) :=
  match table with
  | [] => None
  | (k, f) :: table' => if String.eqb k key then Some f else lookup_extractor key table'
  end.

(** [if (page.type && EXTRACTORS[page.type]) items = EXTRACTORS[page.type](document)],
    starting from [items = []]. *)
Definition try_specific (page : Page) (document : Node) : completion (list Item) :=
  match page_type page with
  | Some t =>
      if is_empty t then Normal []
      else
        match lookup_extractor t EXTRACTORS with
        | Some extractor => extractor document
        | None => Normal []
        end
  | None => Normal []
  end.

(** [for (const key of Object.keys(EXTRACTORS)) { items =
    EXTRACTORS[key](document); if (items.length > 0) break; }] *)
Fixpoint try_all (table : list (string * (Node -> completion (list Item))))
         (document : Node) (items : list Item) : completion (list Item) :=
  match table with
  | [] => Normal items
  | (_, extractor) :: table' =>
      items' <- extractor document ;;
      if 0 <? length items' then Normal items' else try_all table' document items'
  end.

Definition no_items_error : string := "No extractable items found on this page.".

(** [page.type || "generic"] *)
Definition type_or_generic (t : option string) : string :=
  match t with
  | Some s => if is_empty s then "generic" else s
  | None => "generic"
  end.

(** The statements of [extractItems] after [const page = detectPage()]. *)
Definition extract_for (page : Page) (document : Node) : completion ExtractionResult :=
  items0 <- try_specific page document ;;
  items1 <- (if length items0 =? 0 then try_all EXTRACTORS document items0
             else Normal items0) ;;
  items2 <- (if length items1 =? 0 then genericExtract document else Normal items1) ;;
  if length items2 =? 0 then
    Normal (mkResult false None None getContextInfo [] (Some no_items_error) None)
  else
    Normal (mkResult true (Some (type_or_generic (page_type page))) (Some (page_label page))
                     getContextInfo items2 None (Some (loc_href location))).

(** [function extractItems()]: the completion of the call and the rule
    objects of [PAGE_RULES] after it. *)
Definition extractItems (rules : list PageRule) (document : Node)
  : completion ExtractionResult * list PageRule :=
  let (page, rules') := detectPage rules in
  (extract_for page document, rules').

End Engine.

(* ================================================================== *)
(** * The other copies of the content script *)
(* ================================================================== *)

(** The repository holds three copies of the content script.  They share
    [extractLinks], [extractNumber], [EXTRACTORS], [PAGE_RULES],
    [detectPage] and [getContextInfo] word for word and differ in
    [genericExtract] and [extractItems]:
    - the copy with the floating copy button is the one embedded above;
    - [AttachedButtons] is the copy that attaches a button to every
      title (no retry over all extractors, a narrower generic
      extractor without [try]/[catch]);
    - [InlineButton] is the copy that injects the button inline on
      hover (the generic extractor skips user and organization links). *)

Module AttachedButtons.
Section Engine.

Variable URLctor : string -> string -> option URL.
Variable location : Location.

Definition generic_candidates : Selector :=
  [ (* a.Link--primary *)
    [[sTag "a"; sClass "Link--primary"]];
    (* .Box-row a[href^="/"] *)
    [[sClass "Box-row"]; [sTag "a"; sPrefix "href" "/"]];
    (* li a[href^="/"] *)
    [[sTag "li"]; [sTag "a"; sPrefix "href" "/"]];
    (* [role="row"] a[href^="/"] *)
    [[sEq "role" "row"]; [sTag "a"; sPrefix "href" "/"]];
    (* a[data-hovercard-type] *)
    [[sTag "a"; sHas "data-hovercard-type"]];
    (* h3 a[href^="/"] *)
    [[sTag "h3"]; [sTag "a"; sPrefix "href" "/"]];
    (* h4 a[href^="/"] *)
    [[sTag "h4"]; [sTag "a"; sPrefix "href" "/"]]
  ].

(** [/^\/(settings|login|signup|features|pricing|enterprise|sponsors)\b/] *)
Definition denylist_re : RegExp :=
  re (rBol >> rLit "/" >>
      rGroup 1 (one_of ["settings"; "login"; "signup"; "features"; "pricing";
                        "enterprise"; "sponsors"]) >>
      rWordB).

(** [/\.(png|jpg|svg|gif|ico)$/i] *)
Definition asset_re : RegExp :=
  re_i (rLit "." >> rGroup 1 (one_of ["png"; "jpg"; "svg"; "gif"; "ico"]) >> rEol).

(** [".Box-row, [role='row'], li.Box-row, .js-issue-row, [data-testid]"] *)
Definition container_sel : Selector :=
  [ [[sClass "Box-row"]]; [[sEq "role" "row"]]; [[sTag "li"; sClass "Box-row"]];
    [[sClass "js-issue-row"]]; [[sHas "data-testid"]] ].

Definition isTitle (link : Element) : bool :=
  classList_contains link "Link--primary" ||
  closest link heading_sel ||
  hasAttribute link "data-hovercard-type" ||
  closest link container_sel.

(** Body of the loop of this copy's [genericExtract]: [new URL] is not
    guarded, and a title of two characters is accepted. *)
Definition generic_link (st : Generic) (link : Element) : completion Generic :=
  let currentPath := loc_pathname location in
  match getAttribute link "href" with
  | None => Normal st
  | Some href =>
      if is_empty href || mem href (g_seen st) then Normal st
      else if String.eqb href "#" || String.eqb href currentPath then Normal st
      else if test fragment_re href then Normal st
      else
        fullUrl <- new_URL URLctor location href ;;
        if negb (String.eqb (url_origin fullUrl) (loc_origin location)) then Normal st
        else
          let path := url_pathname fullUrl in
          if test denylist_re path then Normal st
          else if test asset_re path then Normal st
          else
            let title := trim (textContent link) in
            if is_empty title || (String.length title <? 2) || (300 <? String.length title)
            then Normal st
            else if negb (isTitle link) then Normal st
            else
              Normal (mkGeneric (g_seen st ++ [href])
                        (g_items st ++ [mkItem title (url_href fullUrl) (extractNumber href)]))
  end.

Fixpoint generic_links (st : Generic) (links : list Element) : completion Generic :=
  match links with
  | [] => Normal st
  | link :: links' => st' <- generic_link st link ;; generic_links st' links'
  end.

(** [function genericExtract(doc)] *)
Definition genericExtract (doc : Node) : completion (list Item) :=
  st <- generic_links (mkGeneric [] []) (querySelectorAll doc generic_candidates) ;;
  Normal (g_items st).

(** The statements of this copy's [extractItems] after
    [const page = detectPage()]: the generic extractor follows the
    page's own extractor directly. *)
Definition extract_for (page : Page) (document : Node) : completion ExtractionResult :=
  items0 <- try_specific URLctor location page document ;;
  items1 <- (if length items0 =? 0 then genericExtract document else Normal items0) ;;
  if length items1 =? 0 then
    Normal (mkResult false None None (getContextInfo location) [] (Some no_items_error) None)
  else
    Normal (mkResult true (Some (type_or_generic (page_type page))) (Some (page_label page))
                     (getContextInfo location) items1 None (Some (loc_href location))).

(** [function extractItems()] *)
Definition extractItems (rules : list PageRule) (document : Node)
  : completion ExtractionResult * list PageRule :=
  let (page, rules') := detectPage location rules in
  (extract_for page document, rules').

End Engine.
End AttachedButtons.

Module InlineButton.
Section Engine.

Variable URLctor : string -> string -> option URL.
Variable location : Location.

(** [hoverType === "user" || hoverType === "organization"] *)
Definition is_profile_link (link : Element) : bool :=
  match getAttribute link "data-hovercard-type" with
  | Some hoverType => String.eqb hoverType "user" || String.eqb hoverType "organization"
  | None => false
  end.

(** Body of the loop of this copy's [genericExtract]: as in the first
    copy, with the skip of user and organization links after the title
    check. *)
Definition generic_link (st : Generic) (link : Element) : completion Generic :=
  let currentPath := loc_pathname location in
  match getAttribute link "href" with
  | None => Normal st
  | Some href =>
      if is_empty href || mem href (g_seen st) then Normal st
      else if String.eqb href "#" || String.eqb href currentPath then Normal st
      else if test fragment_re href then Normal st
      else
        match new_URL URLctor location href with
        | Throw _ => Normal st
        | Normal fullUrl =>
            if negb (String.eqb (url_origin fullUrl) (loc_origin location)) then Normal st
            else
              let path := url_pathname fullUrl in
              if test denylist_re path then Normal st
              else if test asset_re path then Normal st
              else
                let title := trim (textContent link) in
                if is_empty title || (String.length title <? 3) || (300 <? String.length title)
                then Normal st
                else if is_profile_link link then Normal st
                else if negb (isTitle link) then Normal st
                else
                  Normal (mkGeneric (g_seen st ++ [href])
                            (g_items st ++ [mkItem title (url_href fullUrl) (extractNumber href)]))
        end
  end.

Fixpoint generic_links (st : Generic) (links : list Element) : completion Generic :=
  match links with
  | [] => Normal st
  | link :: links' => st' <- generic_link st link ;; generic_links st' links'
  end.

(** [function genericExtract(doc)] *)
Definition genericExtract (doc : Node) : completion (list Item) :=
  st <- generic_links (mkGeneric [] []) (querySelectorAll doc generic_candidates) ;;
  Normal (g_items st).

End Engine.
End InlineButton.

(* ================================================================== *)
(** * The hover copy button *)
(* ================================================================== *)

(** The double quote character. *)
Definition dquote : ascii := "034"%char.

(** [s.replace(/c/g, by)] for a pattern of one literal character and a
    replacement text without [$]. *)
Fixpoint replace_all (c : ascii) (by_ : string) (s : string) : string :=
  match s with
  | EmptyString => EmptyString
  | String a s' =>
      if Ascii.eqb a c then (by_ ++ replace_all c by_ s')%string
      else String a (replace_all c by_ s')
  end.

(** [function escapeHtml(str)] of the content script: four replacements
    in a row. *)
Definition escapeHtml (str : string) : string :=
  replace_all dquote "&quot;"
    (replace_all ">" "&gt;"
       (replace_all "<" "&lt;"
          (replace_all "&" "&amp;" str))).

(** [[a-f0-9]] *)
Definition is_hex_lower (c : ascii) : bool := in_range 97 102 c || is_digit c.

(** The array [COPYABLE_PATTERNS].  None of its patterns has the [g] or
    [y] flag, so [test] leaves the objects as they are. *)
Definition COPYABLE_PATTERNS : list RegExp :=
  [ (* /\/pull\/\d+/ *)
    re (rLit "/pull/" >> rPlus is_digit);
    (* /\/issues\/\d+/ *)
    re (rLit "/issues/" >> rPlus is_digit);
    (* /\/discussions\/\d+/ *)
    re (rLit "/discussions/" >> rPlus is_digit);
    (* /\/releases\/tag\// *)
    re (rLit "/releases/tag/");
    (* /\/milestone\// *)
    re (rLit "/milestone/");
    (* /\/commit\/[a-f0-9]+/ *)
    re (rLit "/commit/" >> rPlus is_hex_lower);
    (* /\/tree\/[^/]+$/ *)
    re (rLit "/tree/" >> rPlus not_slash >> rEol);
    (* /\/actions\/runs\/\d+/ *)
    re (rLit "/actions/runs/" >> rPlus is_digit);
    (* /\/packages\// *)
    re (rLit "/packages/");
    (* /^\/[^/]+\/[^/]+\/?$/ *)
    re (rBol >> rLit "/" >> rPlus not_slash >> rLit "/" >> rPlus not_slash >>
        rOpt (rLit "/") >> rEol) ].

(** The array [SKIP_PATTERNS]. *)
Definition SKIP_PATTERNS : list RegExp :=
  [ (* /^\/(settings|login|signup|features|pricing|enterprise|sponsors|about|security)\b/ *)
    re (rBol >> rLit "/" >>
        rGroup 1 (one_of ["settings"; "login"; "signup"; "features"; "pricing";
                          "enterprise"; "sponsors"; "about"; "security"]) >>
        rWordB);
    (* /^\/(notifications|new|codespaces)\b/ *)
    re (rBol >> rLit "/" >>
        rGroup 1 (one_of ["notifications"; "new"; "codespaces"]) >> rWordB);
    (* /\.(png|jpg|svg|gif|ico|css|js)$/i *)
    re_i (rLit "." >> rGroup 1 (one_of ["png"; "jpg"; "svg"; "gif"; "ico"; "css"; "js"]) >>
          rEol) ].

(** [patterns.some((p) => p.test(path))] *)
Definition some_test (patterns : list RegExp) (path : string) : bool :=
  existsb (fun p => test p path) patterns.

(** The class and attribute markers of a title link. *)
Definition has_title_marker (anchor : Element) : bool :=
  classList_contains anchor "Link--primary" ||
  classList_contains anchor "markdown-title" ||
  classList_contains anchor "js-navigation-open" ||
  hasAttribute anchor "data-hovercard-type".

Section HoverButton.

Variable URLctor : string -> string -> option URL.
Variable location : Location.

(** [function isCopyableLink(anchor)] of the copy with the floating
    button. *)
Definition isCopyableLink (anchor : Element) : bool :=
  match getAttribute anchor "href" with
  | None => false
  | Some href =>
      if is_empty href || String.eqb href "#" || starts_with "#" href then false
      else
        (* try { url = new URL(...) } catch { return false; } *)
        match new_URL URLctor location href with
        | Throw _ => false
        | Normal url =>
            if negb (String.eqb (url_origin url) (loc_origin location)) then false
            else
              let path := url_pathname url in
              if some_test SKIP_PATTERNS path then false
              else
                let text := trim (textContent anchor) in
                if is_empty text || (String.length text <? 3) || (300 <? String.length text)
                then false
                else if some_test COPYABLE_PATTERNS path then true
                else if has_title_marker anchor then 5 <=? String.length text
                else false
        end
  end.

End HoverButton.

Module InlineHover.
Section HoverButton.

Variable URLctor : string -> string -> option URL.
Variable location : Location.

(** [function isCopyableLink(anchor)] of the copy with the inline
    button: user and organization links are refused before the title
    markers are looked at. *)
Definition isCopyableLink (anchor : Element) : bool :=
  match getAttribute anchor "href" with
  | None => false
  | Some href =>
      if is_empty href || String.eqb href "#" || starts_with "#" href then false
      else
        match new_URL URLctor location href with
        | Throw _ => false
        | Normal url =>
            if negb (String.eqb (url_origin url) (loc_origin location)) then false
            else
              let path := url_pathname url in
              if some_test SKIP_PATTERNS path then false
              else
                let text := trim (textContent anchor) in
                if is_empty text || (String.length text <? 3) || (300 <? String.length text)
                then false
                else if some_test COPYABLE_PATTERNS path then true
                else if InlineButton.is_profile_link anchor then false
                else if has_title_marker anchor then 5 <=? String.length text
                else false
        end
  end.

End HoverButton.
End InlineHover.

(** ** The click on the floating button *)

Section CopyClick.

(** [new URL(input, base)] and [new URL(input)] of the platform. *)
Variable URLctor : string -> string -> option URL.
Variable URLctor1 : string -> option URL.
Variable location : Location.

(** [String(x)] for what [getAttribute] returns: a missing attribute is
    [null]. *)
Definition attr_string (x : option string) : string :=
  match x with Some s => s | None => "null" end.

(** The suffix of the display text: a blank and the number, if any. *)
Definition number_suffix (number : option string) : string :=
  match number with
  | Some n => if is_empty n then EmptyString else (" " ++ n)%string
  | None => EmptyString
  end.

(** The click handler of the floating button, for [currentAnchor]: the
    [number] it computes and the [displayText] and [url] that it gives
    to [copyRichLink].  The number is read from the path of the
    resolved URL. *)
Definition copy_click (anchor : Element) : completion (option string * string * string) :=
  let href := attr_string (getAttribute anchor "href") in
  u <- new_URL URLctor location href ;;
  let url := url_href u in
  let title := trim (textContent anchor) in
  u1 <- match URLctor1 url with
        | Some u1 => Normal u1
        | None => Throw invalid_url
        end ;;
  let number := extractNumber (url_pathname u1) in
  let displayText := (title ++ number_suffix number)%string in
  Normal (number, displayText, url).

End CopyClick.

(* ================================================================== *)
(** * The background script *)
(* ================================================================== *)

(** [function isGitHub(url)]: [/^https:\/\/github\.com\//.test(url)] *)
Definition isGitHub (url : string) : bool :=
  test (re (rBol >> rLit "https://github.com/")) url.

(* ================================================================== *)
(** * The popup *)
(* ================================================================== *)

Module Popup.

(** [c.toLowerCase()] for one code unit below 256: the letters [A-Z]
    and the capital letters of Latin-1 (U+00C0..U+00DE without the
    multiplication sign) move by 32. *)
Definition lower_unit (c : ascii) : ascii :=
  if in_range 65 90 c || in_range 192 214 c || in_range 216 222 c
  then ascii_of_nat (code c + 32) else c.

(** [s.toLowerCase()] on a string of code units below 256, the alphabet
    of this development: there the case conversion of the platform acts
    unit by unit (no such unit has a lower case of several units or one
    that depends on its neighbours). *)
Fixpoint toLowerCase (s : string) : string :=
  match s with
  | EmptyString => EmptyString
  | String c s' => String (lower_unit c) (toLowerCase s')
  end.

(** [s.includes(q)] *)
Definition includes (s q : string) : bool := contains q s.

(** [function escapeAttr(str)]: five replacements in a row. *)
Definition escapeAttr (str : string) : string :=
  replace_all ">" "&gt;"
    (replace_all "<" "&lt;"
       (replace_all "'" "&#39;"
          (replace_all dquote "&quot;"
             (replace_all "&" "&amp;" str)))).

(** ** Sets of strings

    A [Set] of strings: its elements in insertion order, without
    repetition. *)

Definition Set_has (ids : list string) (x : string) : bool := mem x ids.

(** [ids.add(x)] *)
Definition Set_add (ids : list string) (x : string) : list string :=
  if mem x ids then ids else ids ++ [x].

(** [ids.delete(x)] *)
Definition Set_delete (ids : list string) (x : string) : list string :=
  filter (fun y => negb (String.eqb x y)) ids.

(** ** State

    The variables [allItems], [selectedIds] and [activeFormat] of the
    popup, with the two inputs that the handlers read:
    [filterInput.value] and [includeNumbers.checked]. *)
Record State : Type := mkState {
  allItems : list Item;
  selectedIds : list string;
  activeFormat : string;
  filterValue : string;
  includeNumbers : bool
}.

(** The filter of [getVisibleItems] and [handleFilter]:
    [item.title.toLowerCase().includes(query) ||
     (item.number && item.number.includes(query))]. *)
Definition matches_query (query : string) (item : Item) : bool :=
  includes (toLowerCase (title item)) query ||
  match number item with
  | Some n => negb (is_empty n) && includes n query
  | None => false
  end.

(** [function getVisibleItems()] *)
Definition getVisibleItems (st : State) : list Item :=
  let query := trim (toLowerCase (filterValue st)) in
  if is_empty query then allItems st
  else filter (matches_query query) (allItems st).

(** [function getSelectedItems()] *)
Definition getSelectedItems (st : State) : list Item :=
  filter (fun item => Set_has (selectedIds st) (url item)) (allItems st).

Definition with_selected (st : State) (ids : list string) : State :=
  mkState (allItems st) ids (activeFormat st) (filterValue st) (includeNumbers st).

(** The click handler of the select-all link: whether all visible items
    are selected is decided once, before the loop. *)
Definition selectAll_click (st : State) : State :=
  let visibleItems := getVisibleItems st in
  let allSelected :=
    forallb (fun item => Set_has (selectedIds st) (url item)) visibleItems in
  with_selected st
    (fold_left (fun ids item =>
                  if allSelected then Set_delete ids (url item)
                  else Set_add ids (url item))
               visibleItems (selectedIds st)).

(** The change handler of the checkbox of [item]. *)
Definition checkbox_change (st : State) (item : Item) (checked : bool) : State :=
  with_selected st
    (if checked then Set_add (selectedIds st) (url item)
     else Set_delete (selectedIds st) (url item)).

(** ** Formats *)

(** [withNumbers && item.number ? ` ${item.number}` : ''] *)
Definition suffix (withNumbers : bool) (item : Item) : string :=
  match number item with
  | Some n => if withNumbers && negb (is_empty n) then (" " ++ n)%string else EmptyString
  | None => EmptyString
  end.

(** The separator of the plain format: a space, the dash U+2014 and a
    space (the dash is written as the three bytes of its UTF-8 form). *)
Definition dash : string :=
  String " " (String "226" (String "128" (String "148" (String " " EmptyString)))).

Definition newline : string := String "010" EmptyString.

Definition quoted (s : string) : string := (String dquote s ++ String dquote EmptyString)%string.

Section Formats.

(** [escapeHtml(str)] of the popup returns [div.innerHTML] after
    [div.textContent = str]: the platform's serialization of a text
    node, a parameter of the formats. *)
Variable escapeHtml : string -> string.

(** [<a href="${escapeAttr(item.url)}">${escapeHtml(item.title + suffix)}</a>] *)
Definition anchor_html (withNumbers : bool) (item : Item) : string :=
  ("<a href=" ++ quoted (escapeAttr (url item)) ++ ">"
   ++ escapeHtml (title item ++ suffix withNumbers item) ++ "</a>")%string.

(** [function formatHtml(items, withNumbers)] *)
Definition formatHtml (items : list Item) (withNumbers : bool) : string :=
  match items with
  | [item] => anchor_html withNumbers item
  | _ =>
      ("<ul>"
       ++ String.concat EmptyString
            (map (fun item => "<li>" ++ anchor_html withNumbers item ++ "</li>") items)
       ++ "</ul>")%string
  end.

(** The title column of a CSV row: the title between double quotes,
    with every double quote of the title replaced by two
    ([item.title.replace] with the [g] flag). *)
Definition csv_title (t : string) : string :=
  quoted (replace_all dquote (String dquote (String dquote EmptyString)) t).

(** One row of the CSV format. *)
Definition csv_row (item : Item) : string :=
  (csv_title (title item) ++ ","
   ++ match number item with Some n => n | None => EmptyString end
   ++ "," ++ url item)%string.

(** [function formatPlainText(items, format, withNumbers)] *)
Definition formatPlainText (items : list Item) (format : string) (withNumbers : bool)
  : string :=
  if String.eqb format "markdown" then
    String.concat newline
      (map (fun item =>
              "- [" ++ title item ++ suffix withNumbers item ++ "](" ++ url item ++ ")")
           items)%string
  else if String.eqb format "plain" then
    String.concat newline
      (map (fun item => title item ++ suffix withNumbers item ++ dash ++ url item) items)%string
  else if String.eqb format "html" then
    String.concat newline (map (anchor_html withNumbers) items)
  else if String.eqb format "csv" then
    String.concat newline ("Title,Number,URL" :: map csv_row items)
  else EmptyString.

(** What [handleCopy] hands to the clipboard. *)
Inductive ClipboardWrite : Type :=
| writeText (text : string)                 (* navigator.clipboard.writeText *)
| writeRich (html plainText : string).      (* text/html and text/plain *)

(** The items that [handleCopy] copies: the selected ones, or all when
    none is selected. *)
Definition copied_items (st : State) : list Item :=
  let items := getSelectedItems st in
  if length items =? 0 then allItems st else items.

(** [function handleCopy()] *)
Definition handleCopy (st : State) : ClipboardWrite :=
  let items := copied_items st in
  let withNumbers := includeNumbers st in
  let format := activeFormat st in
  let plainText := formatPlainText items format withNumbers in
  let html := formatHtml items withNumbers in
  if String.eqb format "csv" || String.eqb format "plain" then writeText plainText
  else writeRich html plainText.

End Formats.

(** ** Loading *)

(** What the popup shows after [extractFromPage]. *)
Inductive View : Type :=
| Empty (message : string)      (* showEmpty(message) *)
| Loaded (st : State).          (* renderUI() *)

Definition not_github_message : string := "Navigate to a GitHub page to extract items.".
Definition no_items_message : string :=
  "No items found. Try a PRs, Issues, or Milestones page.".

(** [response?.error || "No items found. ..."] *)
Definition error_or_default (response : option ExtractionResult) : string :=
  match response with
  | Some r =>
      match error r with
      | Some e => if is_empty e then no_items_message else e
      | None => no_items_message
      end
  | None => no_items_message
  end.

(** The part of [extractFromPage] that follows the query for the active
    tab: [tab_url] is [tab.url] of a tab that has an id, [response] is
    what the content script answered to the [extract] message. *)
Definition extractFromPage (st : State) (tab_url : option string)
           (response : option ExtractionResult) : View :=
  match tab_url with
  | None => Empty not_github_message
  | Some u =>
      if negb (starts_with "https://github.com" u) then Empty not_github_message
      else
        match response with
        | None => Empty (error_or_default response)
        | Some r =>
            if negb (success r) || (length (items r) =? 0)
            then Empty (error_or_default response)
            else
              Loaded (mkState (items r)
                        (fold_left (fun ids item => Set_add ids (url item)) (items r)
                                   (selectedIds st))
                        (activeFormat st) (filterValue st) (includeNumbers st))
        end
  end.

End Popup.

(* ================================================================== *)
(** * Vocabulary of the properties *)
(* ================================================================== *)

(** The [href] attribute values that occur in a document. *)
Definition doc_hrefs (doc : Node) : list string :=
  flat_map (fun el => match getAttribute el "href" with
                      | Some href => [href]
                      | None => []
                      end) (elements [] doc).

(** The elements that [doc.querySelectorAll] returns for one of the
    [selectors]. *)
Definition selected_by (doc : Node) (selectors : list Selector) (link : Element) : Prop :=
  exists selector, In selector selectors /\ In link (querySelectorAll doc selector).

(** No digit at the start of [s]. *)
Definition no_leading_digit (s : string) : Prop :=
  match s with
  | String c _ => is_digit c = false
  | EmptyString => True
  end.

(** [href] is [pre], then a [/pull/] or [/issues/] segment, then the
    digits [id] (all the digits that follow the segment), then [rest]. *)
Definition id_at (href pre id rest : string) : Prop :=
  exists seg,
    (seg = "pull" \/ seg = "issues") /\
    href = (pre ++ "/" ++ seg ++ "/" ++ id ++ rest)%string /\
    id <> EmptyString /\
    all_chars is_digit id = true /\
    no_leading_digit rest.

(** What [extractNumber] makes of an [href]: [#] and the id of the
    leftmost pull-request or issue segment followed by digits, and
    [null] when the [href] has no such segment. *)
Definition number_from (href : string) (n : option string) : Prop :=
  match n with
  | Some label =>
      exists pre id rest,
        id_at href pre id rest /\
        label = ("#" ++ id)%string /\
        (forall pre' id' rest',
            id_at href pre' id' rest' -> String.length pre <= String.length pre')
  | None => forall pre id rest, ~ id_at href pre id rest
  end.

Section Provenance.

Variable URLctor : string -> string -> option URL.
Variable location : Location.

(** [it] is the item that [extractLinks] pushes for the element [link],
    whose [href] attribute is [href]. *)
Definition pushed_for (link : Element) (href : string) (it : Item) : Prop :=
  getAttribute link "href" = Some href /\
  is_empty href = false /\
  is_empty (trim (textContent link)) = false /\
  exists u, URLctor href (loc_origin location) = Some u /\
            it = mkItem (trim (textContent link)) (url_href u) (extractNumber href).

(** The guards that an element passes before a [genericExtract] pushes
    an item for it; the copies of the script differ in the shortest
    title, in the two path patterns and in the title heuristic. *)
Definition generic_guards (min_length : nat) (denylist assets : RegExp)
           (is_title : Element -> bool) (link : Element) (href : string) (u : URL) : Prop :=
  String.eqb href "#" = false /\
  String.eqb href (loc_pathname location) = false /\
  test fragment_re href = false /\
  String.eqb (url_origin u) (loc_origin location) = true /\
  test denylist (url_pathname u) = false /\
  test assets (url_pathname u) = false /\
  min_length <= String.length (trim (textContent link)) <= 300 /\
  is_title link = true.

(** [it] is the item that a [genericExtract] pushes for [link], which
    passed the guards and the further test [extra]. *)
Definition generic_pushed_for (min_length : nat) (denylist assets : RegExp)
           (is_title : Element -> bool) (extra : Element -> Prop)
           (link : Element) (href : string) (it : Item) : Prop :=
  getAttribute link "href" = Some href /\
  is_empty href = false /\
  extra link /\
  exists u, URLctor href (loc_origin location) = Some u /\
            generic_guards min_length denylist assets is_title link href u /\
            it = mkItem (trim (textContent link)) (url_href u) (extractNumber href).

(** The items are built by [built], one for one and in order, from
    elements of [pool] whose [href] attributes are pairwise different
    strings. *)
Definition from_distinct_hrefs (built : Element -> string -> Item -> Prop)
           (pool : Element -> Prop) (hrefs : list string) (its : list Item) : Prop :=
  NoDup hrefs /\
  Forall2 (fun href it => exists link, pool link /\ built link href it) hrefs its.

(** The [url] of [it] is the resolution of [href], an [href] attribute
    of the document. *)
Definition resolved_from (doc : Node) (href : string) (it : Item) : Prop :=
  In href (doc_hrefs doc) /\
  exists u, URLctor href (loc_origin location) = Some u /\ url it = url_href u.

(** The [url] of [it] is the resolution of an [href] attribute of the
    document to a URL of the origin of the page. *)
Definition same_origin_item (doc : Node) (it : Item) : Prop :=
  exists href u,
    In href (doc_hrefs doc) /\
    URLctor href (loc_origin location) = Some u /\
    url it = url_href u /\ url_origin u = loc_origin location.

(** [it] is the item pushed for an element of the document with the
    attribute [href]: its title is the trimmed text of the element, its
    URL the resolution of [href] and its number the one of [href]; the
    [href] is neither the path of the page nor a fragment, the trimmed
    text has between [min_length] and 300 characters, and the element
    satisfies [extra]. *)
Definition passed_exclusions (doc : Node) (min_length : nat) (extra : Element -> Prop)
           (href : string) (it : Item) : Prop :=
  exists link u,
    In link (elements [] doc) /\
    getAttribute link "href" = Some href /\
    URLctor href (loc_origin location) = Some u /\
    it = mkItem (trim (textContent link)) (url_href u) (extractNumber href) /\
    href <> loc_pathname location /\
    starts_with "#" href = false /\
    min_length <= String.length (trim (textContent link)) <= 300 /\
    extra link.

(** Different [href] strings of the document resolve to different
    URLs. *)
Definition resolves_injectively (doc : Node) : Prop :=
  forall h1 h2 u1 u2,
    In h1 (doc_hrefs doc) -> In h2 (doc_hrefs doc) ->
    URLctor h1 (loc_origin location) = Some u1 ->
    URLctor h2 (loc_origin location) = Some u2 ->
    url_href u1 = url_href u2 -> h1 = h2.

End Provenance.

(** [hrefPattern] lets [href] through: there is no pattern, or the
    pattern has neither the [g] nor the [y] flag and matches. *)
Definition accepts (hrefPattern : option RegExp) (href : string) : Prop :=
  match hrefPattern with
  | None => True
  | Some R => global R = false /\ sticky R = false /\ test R href = true
  end.

(** No white space at the start of [s]. *)
Definition no_leading_space (s : string) : Prop :=
  match s with
  | String c _ => is_space c = false
  | EmptyString => True
  end.

(** A pattern without [g] and [y] stays the pattern object of the run. *)
Definition keeps_pattern (pat : option RegExp) : Prop :=
  match pat with
  | None => True
  | Some R => global R = false /\ sticky R = false
  end.

(** The first two segments of a path that starts with [/] and a
    character other than [/]: the characters up to the next [/], and
    the characters between that [/] and the one after it. *)
Definition leading_segments (path : string) : string * string :=
  match path with
  | String c t =>
      if Ascii.eqb "/" c then
        let (first, rest) := span not_slash t in
        if is_empty first then (EmptyString, EmptyString)
        else
          match rest with
          | String _ t2 => (first, fst (span not_slash t2))
          | EmptyString => (first, EmptyString)
          end
      else (EmptyString, EmptyString)
  | EmptyString => (EmptyString, EmptyString)
  end.

(** [s] is empty or starts with [/]. *)
Definition at_segment_end (s : string) : Prop :=
  match s with
  | String c _ => c = "/"%char
  | EmptyString => True
  end.

(** Whether a match was found. *)
Definition found {A} (x : option A) : bool :=
  match x with Some _ => true | None => false end.

(** The text that [escapeHtml] of the content script puts for one
    character. *)
Definition html_entity (c : ascii) : string :=
  if Ascii.eqb c "&" then "&amp;"
  else if Ascii.eqb c "<" then "&lt;"
  else if Ascii.eqb c ">" then "&gt;"
  else if Ascii.eqb c dquote then "&quot;"
  else String c EmptyString.

(** The text that [escapeAttr] of the popup puts for one character. *)
Definition attr_entity (c : ascii) : string :=
  if Ascii.eqb c "&" then "&amp;"
  else if Ascii.eqb c dquote then "&quot;"
  else if Ascii.eqb c "'" then "&#39;"
  else if Ascii.eqb c "<" then "&lt;"
  else if Ascii.eqb c ">" then "&gt;"
  else String c EmptyString.

(** The characters that end a text or a quoted attribute value in
    HTML. *)
Definition is_markup (c : ascii) : bool :=
  Ascii.eqb c "<" || Ascii.eqb c ">" || Ascii.eqb c dquote.

(** The item without its number. *)
Definition without_number (it : Item) : Item := mkItem (title it) (url it) None.

(** [path] does not start with [/] followed by a character other than
    [/]: it has no first segment. *)
Definition no_first_segment (path : string) : Prop :=
  forall c t, path = String "/" (String c t) -> c = "/"%char.

(** A code unit of the ASCII range. *)
Definition is_ascii (c : ascii) : bool := code c <? 128.

(** The element has a text left after trimming: the test of
    [extractLinks] on the element itself. *)
Definition has_text (link : Element) : bool :=
  negb (is_empty (trim (textContent link))).

(** The tests of [genericExtract] on the element itself: a trimmed text
    of 3 to 300 characters and the look of a title. *)
Definition has_title (link : Element) : bool :=
  let t := trim (textContent link) in
  negb (is_empty t || (String.length t <? 3) || (300 <? String.length t)) && isTitle link.

(** [it] is the item that [built] gives for [href] and an [eligible]
    element of [links], and no element before that one in [links] with
    the attribute [href] is [eligible]: of the eligible elements with
    one [href], the first gives the item. *)
Definition from_first (built : Element -> string -> Item -> Prop) (eligible : Element -> bool)
           (links : list Element) (href : string) (it : Item) : Prop :=
  exists before link after,
    links = before ++ link :: after /\
    built link href it /\
    eligible link = true /\
    Forall (fun earlier => getAttribute earlier "href" = Some href -> eligible earlier = false)
           before.

(* ================================================================== *)
(** * Sample pages *)
(* ================================================================== *)

Definition github : string := "https://github.com".

(** The location of the page at [path] with query string [search]. *)
Definition at_path (path search : string) : Location :=
  mkLocation (github ++ path ++ search) github path search.

(** A row of an issue list: [<div class="js-issue-row"><a
    class="Link--primary" href=...>text</a></div>]. *)
Definition issue_row (href text : string) : Node :=
  Elem "div" [("class", "js-issue-row")]
       [Elem "a" [("class", "Link--primary"); ("href", href)] [Text text]].

Definition html_page (body : list Node) : Node :=
  Elem "html" [] [Elem "body" [] body].

(** Three pull-request rows, the first and the third with the same
    [href]. *)
Definition repeated_row_page : Node :=
  html_page [ issue_row "/acme/widgets/pull/1" "Fix bug";
              issue_row "/acme/widgets/pull/2" "Add feature";
              issue_row "/acme/widgets/pull/1" "Fix bug" ].

(** Two rows for the same pull request, one with a path and one with
    the absolute URL. *)
Definition two_spellings_page : Node :=
  html_page [ issue_row "/acme/widgets/pull/1" "Fix bug";
              issue_row "https://github.com/acme/widgets/pull/1" "Fix bug (again)" ].

(** A page with navigation only: nothing on it is a candidate of any
    extractor. *)
Definition navigation_only_page : Node :=
  html_page [ Elem "nav" [] [Elem "a" [("href", "/settings/profile")] [Text "Settings"]] ].

(** A row of a tag list: [<div class="Box-row"><h4><a
    class="Link--primary" href=...>text</a></h4></div>]. *)
Definition tag_row (href text : string) : Node :=
  Elem "div" [("class", "Box-row")]
       [Elem "h4" [] [Elem "a" [("class", "Link--primary"); ("href", href)] [Text text]]].

(** A tag list whose first link has an [href] that is not a valid URL
    (the host is missing). *)
Definition malformed_href_page : Node :=
  html_page [ tag_row "https://" "v1.0";
              tag_row "/acme/widgets/releases/tag/v2.0" "v2.0" ].

(** The same list without the malformed link. *)
Definition wellformed_href_page : Node :=
  html_page [ tag_row "/acme/widgets/releases/tag/v2.0" "v2.0" ].

(** A tag row and an issue row whose links point to another site. *)
Definition cross_origin_page : Node :=
  html_page [ tag_row "https://example.com/acme/widgets/releases/tag/v1.0" "v1.0";
              issue_row "https://example.com/acme/widgets/pull/1" "Fix bug" ].

(** An issue list with a pagination link to the page itself and a link
    to the profile of an author. *)
Definition pagination_and_author_page : Node :=
  html_page [ issue_row "/acme/widgets/issues/7" "Crash on start";
              Elem "div" [("class", "Box-row")]
                   [ Elem "a" [("href", "/octocat"); ("data-hovercard-type", "user")]
                          [Text "octocat"];
                     Elem "a" [("href", "/acme/widgets/issues?page=2")] [Text "Next"] ] ].

(** A tag list with a two-character title. *)
Definition short_title_page : Node :=
  html_page [ tag_row "/acme/widgets/releases/tag/v2" "v2" ].

(** A commit list whose only link carries, in its query string, the
    path of the pull request it was reached from. *)
Definition commit_link_page : Node :=
  html_page [ Elem "li" [("class", "js-commits-list-item")]
                   [Elem "a" [("class", "Link--primary");
                              ("href", "/acme/widgets/commit/abc123?from=/acme/widgets/pull/5")]
                         [Text "Fix typo"]] ].

(** The link of [commit_link_page] as [querySelectorAll] returns it. *)
Definition commit_link : Element :=
  mkElement "a" [("class", "Link--primary");
                 ("href", "/acme/widgets/commit/abc123?from=/acme/widgets/pull/5")]
            [Text "Fix typo"]
            [("li", [("class", "js-commits-list-item")]); ("body", []); ("html", [])].

(** A row whose link text is padded with white space. *)
Definition padded_title_page : Node :=
  html_page [ issue_row "/acme/widgets/pull/1" "   Fix bug  " ].

(** The link of an [issue_row] as [querySelectorAll] returns it for
    a page made by [html_page]. *)
Definition issue_row_link (href text : string) : Element :=
  mkElement "a" [("class", "Link--primary"); ("href", href)] [Text text]
            [("div", [("class", "js-issue-row")]); ("body", []); ("html", [])].

(** The two items of scenario A. *)
Definition scenario_items : list Item :=
  [ mkItem "Fix bug" "https://github.com/acme/widgets/pull/1" (Some "#1");
    mkItem "Add feature" "https://github.com/acme/widgets/pull/2" (Some "#2") ].

(** The result that [extractItems] returns for scenario A on the pull
    request list. *)
Definition scenario_result : ExtractionResult :=
  mkResult true (Some "issueOrPr") (Some "Pull Requests") (mkRepo "acme" "widgets")
           scenario_items None (Some "https://github.com/acme/widgets/pulls").

(** The popup as it starts: nothing loaded, the Markdown format, an
    empty filter, numbers included. *)
Definition fresh_popup : Popup.State :=
  Popup.mkState [] [] "markdown" EmptyString true.

(* ================================================================== *)
(** * Properties *)
(* ================================================================== *)

(** ** Evaluations of the platform model and of [extractNumber] *)

Example extractNumber_pull : extractNumber "/acme/widgets/pull/42" = Some "#42".
Proof. reflexivity. Qed.

Example extractNumber_issue_suffix :
  extractNumber "/acme/widgets/issues/7#issuecomment-1" = Some "#7".
Proof. reflexivity. Qed.

Example extractNumber_none : extractNumber "/acme/widgets/milestone/3" = None.
Proof. reflexivity. Qed.

Example URL_new_path_absolute :
  URL_new "/acme/widgets/pull/1" "https://github.com"
  = Some (mkURL "https://github.com/acme/widgets/pull/1" "https://github.com"
                "/acme/widgets/pull/1" EmptyString).
Proof. reflexivity. Qed.

Example URL_new_absolute :
  URL_new "https://GitHub.com:443/acme/widgets/pull/1?q=1#top" "https://github.com"
  = Some (mkURL "https://github.com/acme/widgets/pull/1?q=1#top" "https://github.com"
                "/acme/widgets/pull/1" "?q=1").
Proof. reflexivity. Qed.

Example URL_new_relative :
  URL_new "pull/5" "https://github.com"
  = Some (mkURL "https://github.com/pull/5" "https://github.com" "/pull/5" EmptyString).
Proof. reflexivity. Qed.

Example URL_new_other_origin :
  option_map url_origin (URL_new "//example.org:8080/x" "https://github.com")
  = Some "https://example.org:8080".
Proof. reflexivity. Qed.

Example URL_new_empty_host : URL_new "https://" "https://github.com" = None.
Proof. reflexivity. Qed.

Example URL_new_extra_slashes :
  option_map url_href (URL_new "https:///v1" "https://github.com") = Some "https://v1/".
Proof. reflexivity. Qed.

Example URL_new_same_scheme_reference :
  option_map url_href (URL_new "https:acme/widgets" "https://github.com")
  = Some "https://github.com/acme/widgets".
Proof. reflexivity. Qed.

Example URL_new_ipv4 :
  option_map url_href (URL_new "http://0x7f.1/x" "https://github.com")
  = Some "http://127.0.0.1/x"
  /\ URL_new "https://1.2.3.4.5/" "https://github.com" = None.
Proof. split; reflexivity. Qed.

Example URL_new_scheme_lower_case :
  option_map url_href (URL_new "MAILTO:octocat@github.com" "https://github.com")
  = Some "mailto:octocat@github.com".
Proof. reflexivity. Qed.

Example URL_new_bad_port :
  URL_new "https://github.com:99999/acme/widgets/pull/1" "https://github.com" = None.
Proof. reflexivity. Qed.

(** ** Regular-expression objects without [g] and [y] keep their state *)

Lemma RegExp_exec_stateless (R : RegExp) (s : string) :
  global R = false -> sticky R = false -> snd (RegExp_exec R s) = R.
Proof.
  intros Hg Hy. unfold RegExp_exec. rewrite Hg, Hy. reflexivity.
Qed.

Lemma RegExp_test_stateless (R : RegExp) (s : string) :
  global R = false -> sticky R = false -> snd (RegExp_test R s) = R.
Proof.
  intros Hg Hy. unfold RegExp_test.
  pose proof (RegExp_exec_stateless R s Hg Hy) as H.
  destruct (RegExp_exec R s) as [m R']. exact H.
Qed.

Lemma RegExp_test_fst (R : RegExp) (s : string) :
  fst (RegExp_test R s) = test R s.
Proof. reflexivity. Qed.

(** ** Searching with a pattern *)

Lemma span_inv (p : ascii -> bool) (s : string) :
  forall id rest, span p s = (id, rest) ->
  s = (id ++ rest)%string /\ all_chars p id = true /\
  match rest with String c _ => p c = false | EmptyString => True end.
Proof.
  induction s as [| c s IH]; simpl; intros id rest.
  - intros [= <- <-]. auto.
  - destruct (p c) eqn:Hp.
    + destruct (span p s) as [a b]. intros [= <- <-].
      destruct (IH a b eq_refl) as (-> & Ha & Hb). simpl. rewrite Hp. auto.
    + intros [= <- <-]. simpl. rewrite Hp. auto.
Qed.

Lemma plus_match_span {A} (p : ascii -> bool) (k : cont A) (cs : captures) :
  (forall a b c, k a b c <> None) ->
  (forall a a' b c, k a b c = k a' b c) ->
  forall s,
    plus_match false p s cs k
    = let (id, rest) := span p s in if is_empty id then None else k None rest cs.
Proof.
  intros Htot Hprev. induction s as [| c s IH]; simpl; [reflexivity|].
  unfold class_test. destruct (p c) eqn:Hp; [| reflexivity].
  rewrite IH. destruct (span p s) as [id rest] eqn:Hs. simpl.
  destruct id as [| d id]; simpl.
  - apply span_inv in Hs as (-> & _ & _). simpl. apply Hprev.
  - destruct (k None rest cs) eqn:Hk; [reflexivity|]. now apply Htot in Hk.
Qed.

(** [test] of a pattern without [g] and [y] in terms of the search. *)
Lemma test_search (r : regex) (ic : bool) (s : string) :
  test (mkRegExp r ic false false 0) s
  = found (search ic r (String.length s) 0 None s).
Proof.
  unfold test, RegExp_test, RegExp_exec. cbn [global sticky orb ignoreCase source fst].
  destruct (search ic r (String.length s) 0 None s); reflexivity.
Qed.

(** The search finds a match when the pattern matches at some
    position, whatever the character before it. *)
Lemma search_finds (ic : bool) (r : regex) (len : nat) (pre t : string) :
  (forall prev, found (match_here ic r prev t) = true) ->
  forall idx prev, found (search ic r len idx prev (pre ++ t)) = true.
Proof.
  intros Ht. induction pre as [| c pre IH]; intros idx prev.
  - cbn [append]. specialize (Ht prev).
    destruct t as [| c t]; cbn [search];
      destruct (match_here ic r prev _) as [[? ?]|]; try reflexivity; discriminate.
  - cbn [append search].
    destruct (match_here ic r prev (String c (pre ++ t))) as [[? ?]|]; [reflexivity|].
    apply IH.
Qed.

(** ** Page detection *)

Definition flagless (rule : PageRule) : Prop :=
  global (pattern rule) = false /\ sticky (pattern rule) = false.

Lemma with_pattern_same (rule : PageRule) : with_pattern rule (pattern rule) = rule.
Proof. destruct rule; reflexivity. Qed.

Lemma first_rule_stateless (full : string) (rules : list PageRule) :
  Forall flagless rules -> snd (first_rule full rules) = rules.
Proof.
  induction 1 as [| rule rules [Hg Hy] _ IH]; simpl; [reflexivity|].
  pose proof (RegExp_test_stateless (pattern rule) full Hg Hy) as HR.
  destruct (RegExp_test (pattern rule) full) as [hit R']. simpl in HR. subst R'.
  rewrite with_pattern_same.
  destruct hit; simpl; [reflexivity|].
  destruct (first_rule full rules) as [found rules'']. simpl in *. now subst.
Qed.

Lemma PAGE_RULES_flagless : Forall flagless PAGE_RULES.
Proof. unfold PAGE_RULES. repeat constructor. Qed.

Lemma detectPage_keeps_PAGE_RULES (location : Location) :
  snd (detectPage location PAGE_RULES) = PAGE_RULES.
Proof.
  unfold detectPage.
  pose proof (first_rule_stateless
                (loc_pathname location ++ loc_search location) _ PAGE_RULES_flagless) as H.
  destruct (first_rule _ PAGE_RULES) as [found rules']. exact H.
Qed.

(** The loop over the rules returns the first rule that matches: the
    rules before it do not match. *)
Lemma first_rule_spec (full : string) (rules : list PageRule) :
  (exists before rule after,
      rules = before ++ rule :: after /\
      Forall (fun r => test (pattern r) full = false) before /\
      test (pattern rule) full = true /\
      fst (first_rule full rules) = Some (mkPage (rule_type rule) (rule_label rule)))
  \/ (Forall (fun r => test (pattern r) full = false) rules /\
      fst (first_rule full rules) = None).
Proof.
  induction rules as [| rule rules IH]; simpl.
  - right. split; constructor.
  - pose proof (RegExp_test_fst (pattern rule) full) as Ht.
    destruct (RegExp_test (pattern rule) full) as [hit R']. simpl in Ht.
    destruct hit.
    + left. exists [], rule, rules. simpl. repeat split; auto.
    + destruct (first_rule full rules) as [found rules'']. simpl in *.
      destruct IH as [(before & r & after & -> & Hb & Hr & Hf) | [Hall Hf]].
      * left. exists (rule :: before), r, after. simpl. repeat split; auto.
      * right. split; auto.
Qed.

(** C4.  [detectPage] returns the type and label of the first rule of
    [PAGE_RULES] whose pattern matches the path followed by the query
    string (no rule before it matches), and [(null, "Items")] when no
    rule matches. *)
Theorem detectPage_first_matching_rule (location : Location) :
  let full := (loc_pathname location ++ loc_search location)%string in
  let page := fst (detectPage location PAGE_RULES) in
  (exists before rule after,
      PAGE_RULES = before ++ rule :: after /\
      Forall (fun r => test (pattern r) full = false) before /\
      test (pattern rule) full = true /\
      page = mkPage (rule_type rule) (rule_label rule))
  \/ (Forall (fun r => test (pattern r) full = false) PAGE_RULES /\
      page = mkPage None "Items").
Proof.
  intros full page. subst page. unfold detectPage. fold full.
  destruct (first_rule_spec full PAGE_RULES)
    as [(before & rule & after & Heq & Hb & Hr & Hf) | [Hall Hf]];
    destruct (first_rule full PAGE_RULES) as [found rules']; simpl in *; subst found.
  - left. exists before, rule, after. auto.
  - right. auto.
Qed.

(** The loop over the rules, one rule at a time. *)
Lemma first_rule_cons (full : string) (rule : PageRule) (rules : list PageRule) :
  fst (first_rule full (rule :: rules))
  = if test (pattern rule) full
    then Some (mkPage (rule_type rule) (rule_label rule))
    else fst (first_rule full rules).
Proof.
  cbn [first_rule]. unfold test.
  destruct (RegExp_test (pattern rule) full) as [hit R']. cbn [fst].
  destruct hit; [reflexivity|].
  now destruct (first_rule full rules).
Qed.

(** The pattern of the single-milestone rule matches a path with
    [/milestone/7], whatever follows it. *)
Lemma milestone_rule_matches (pre rest : string) :
  test (re (rLit "/milestone/" >> rPlus is_digit)) (pre ++ "/milestone/7" ++ rest) = true.
Proof.
  unfold re. rewrite test_search. apply search_finds.
  intros prev. unfold match_here. cbn [rmatch lit_match append].
  unfold char_eq. cbn [Ascii.eqb Bool.eqb andb].
  rewrite plus_match_span; [| discriminate | reflexivity].
  cbn [span]. change (is_digit "7") with true. cbv iota.
  now destruct (span is_digit rest).
Qed.

(** C5 (amended).  On the path [/acme/widgets/milestones] with an empty
    query the classifier returns [(milestonesList, "Milestones")].  On
    the path [/acme/widgets/milestone/7] it returns [(milestone,
    "Milestone")] when the query is empty and, for any query, whenever
    the pattern of the milestones-list rule does not match the path
    followed by the query; when that pattern matches, the
    milestones-list rule, which is the first rule of the table, decides
    and the classifier returns [(milestonesList, "Milestones")]. *)
Theorem detectPage_milestone_scenarios (href origin search : string) :
  let list_re := re (rLit "/milestones" >> rOpt (rLit "/") >> rEol) in
  let classify path query :=
    fst (detectPage (mkLocation href origin path query) PAGE_RULES) in
  option_map (fun rule => (pattern rule, rule_type rule)) (hd_error PAGE_RULES)
  = Some (list_re, Some "milestonesList")
  /\ classify "/acme/widgets/milestones" EmptyString = mkPage (Some "milestonesList") "Milestones"
  /\ classify "/acme/widgets/milestone/7" EmptyString = mkPage (Some "milestone") "Milestone"
  /\ classify "/acme/widgets/milestone/7" search
     = if test list_re ("/acme/widgets/milestone/7" ++ search)
       then mkPage (Some "milestonesList") "Milestones"
       else mkPage (Some "milestone") "Milestone".
Proof.
  cbv zeta. split; [reflexivity|]. split; [reflexivity|]. split; [reflexivity|].
  unfold detectPage. cbn [loc_pathname loc_search].
  pose proof (first_rule_cons ("/acme/widgets/milestone/7" ++ search)) as Hcons.
  destruct (first_rule ("/acme/widgets/milestone/7" ++ search) PAGE_RULES)
    as [found rules'] eqn:E.
  assert (found = fst (first_rule ("/acme/widgets/milestone/7" ++ search) PAGE_RULES))
    as -> by now rewrite E.
  cbn [fst]. unfold PAGE_RULES. rewrite Hcons. cbn [pattern rule_type rule_label].
  destruct (test (re (rLit "/milestones" >> rOpt (rLit "/") >> rEol))
                 ("/acme/widgets/milestone/7" ++ search)); [reflexivity|].
  rewrite Hcons. cbn [pattern rule_type rule_label].
  change ("/acme/widgets/milestone/7" ++ search)%string
    with ("/acme/widgets" ++ "/milestone/7" ++ search)%string.
  now rewrite milestone_rule_matches.
Qed.

(** C5 as stated fails: on the path [/acme/widgets/milestone/7] with
    the query [?from=/acme/widgets/milestones] the patterns of both
    rules match, and the classifier returns the page of the
    milestones-list rule: that rule is the first of [PAGE_RULES] and
    takes precedence over the single-milestone rule. *)
Lemma milestones_list_rule_takes_precedence :
  let location := at_path "/acme/widgets/milestone/7" "?from=/acme/widgets/milestones" in
  let full := (loc_pathname location ++ loc_search location)%string in
  fst (detectPage location PAGE_RULES) = mkPage (Some "milestonesList") "Milestones"
  /\ fst (detectPage location PAGE_RULES) <> mkPage (Some "milestone") "Milestone"
  /\ map (fun rule => (rule_type rule, test (pattern rule) full)) (firstn 2 PAGE_RULES)
     = [ (Some "milestonesList", true); (Some "milestone", true) ].
Proof. cbv zeta. repeat split. discriminate. Qed.

(** ** The link collector *)

Lemma mem_In (x : string) (l : list string) : mem x l = true <-> In x l.
Proof.
  unfold mem. rewrite existsb_exists. split.
  - intros (y & Hy & He). apply String.eqb_eq in He. now subst.
  - intros H. exists x. split; [assumption | apply String.eqb_refl].
Qed.

Lemma mem_false (x : string) (l : list string) : mem x l = false -> ~ In x l.
Proof.
  intros H Hin. apply mem_In in Hin. congruence.
Qed.

Lemma NoDup_snoc (x : string) (l : list string) :
  NoDup l -> ~ In x l -> NoDup (l ++ [x]).
Proof.
  intros Hl Hx. induction Hl as [| y l Hy Hl IH]; simpl.
  - constructor; [intros [] | constructor].
  - constructor.
    + rewrite in_app_iff. simpl. intros [H | [H | []]]; [now apply Hy |].
      subst. apply Hx. now left.
    + apply IH. intros H. apply Hx. now right.
Qed.

Lemma is_empty_false_length (s : string) : is_empty s = false <-> 1 <= String.length s.
Proof. destruct s; simpl; split; intros; try lia; try discriminate; reflexivity. Qed.

Section CollectorFacts.

Variable URLctor : string -> string -> option URL.
Variable location : Location.
Variable pool : Element -> Prop.

Local Abbreviation Inv st :=
  (from_distinct_hrefs (pushed_for URLctor location) pool (seen st) (collected st)).

Lemma collect_link_inv (st st' : Collector) (link : Element) :
  Inv st -> pool link ->
  collect_link URLctor location st link = Normal st' -> Inv st'.
Proof.
  intros [Hnd Hf] Hp. unfold collect_link.
  destruct (getAttribute link "href") as [href|] eqn:Hattr;
    [| intros [= <-]; split; assumption].
  destruct (is_empty href) eqn:Hne; simpl; [intros [= <-]; split; assumption|].
  destruct (mem href (seen st)) eqn:Hseen; [intros [= <-]; split; assumption|].
  destruct (rejected_by (pattern_obj st) href) as [skip pat'].
  destruct skip; [intros [= <-]; split; assumption|].
  destruct (is_empty (trim (textContent link))) eqn:Ht; [intros [= <-]; split; assumption|].
  unfold new_URL. destruct (URLctor href (loc_origin location)) as [u|] eqn:Hu; simpl;
    [| discriminate].
  intros [= <-]. split; simpl.
  - apply NoDup_snoc; [assumption | now apply mem_false].
  - apply Forall2_app; [assumption|].
    constructor; [| constructor].
    exists link. split; [assumption|].
    repeat split; try assumption. exists u. split; [assumption | reflexivity].
Qed.

Lemma collect_links_inv (links : list Element) :
  forall st st', Inv st -> Forall pool links ->
  collect_links URLctor location st links = Normal st' -> Inv st'.
Proof.
  induction links as [| link links IH]; simpl; intros st st' Hinv Hall.
  - now intros [= <-].
  - inversion Hall as [| ? ? Hp Hrest]; subst.
    destruct (collect_link URLctor location st link) as [st1|e] eqn:H1; simpl;
      [| discriminate].
    intros H2. eapply IH; [| eassumption | eassumption].
    eapply collect_link_inv; eassumption.
Qed.

Lemma collect_selectors_inv (doc : Node) (selectors : list Selector) :
  forall st st', Inv st ->
  (forall link, selected_by doc selectors link -> pool link) ->
  collect_selectors URLctor location doc st selectors = Normal st' -> Inv st'.
Proof.
  induction selectors as [| selector selectors IH]; simpl; intros st st' Hinv Hsub.
  - now intros [= <-].
  - destruct (collect_links URLctor location st (querySelectorAll doc selector))
      as [st1|e] eqn:H1; simpl; [| discriminate].
    intros H2. eapply IH; [| | eassumption].
    + eapply collect_links_inv; [eassumption | | eassumption].
      apply Forall_forall. intros link Hin. apply Hsub.
      exists selector. split; [now left | assumption].
    + intros link (sel' & Hin & Hq). apply Hsub. exists sel'. split; [now right | assumption].
Qed.

End CollectorFacts.

(** What [extractLinks] returns was built from elements selected by its
    selectors, with pairwise different [href] strings, in the order of
    the [seen] set. *)
Lemma extractLinks_provenance URLctor location doc selectors hrefPattern its :
  extractLinks URLctor location doc selectors hrefPattern = Normal its ->
  exists hrefs,
    from_distinct_hrefs (pushed_for URLctor location) (selected_by doc selectors) hrefs its.
Proof.
  unfold extractLinks.
  destruct (collect_selectors URLctor location doc (mkCollector [] [] hrefPattern) selectors)
    as [st|e] eqn:H; simpl; [| discriminate].
  intros [= <-]. exists (seen st).
  eapply collect_selectors_inv with (pool := selected_by doc selectors); [| | exact H].
  - split; simpl; constructor.
  - auto.
Qed.

(** ** The generic extractors *)

Lemma title_length_guard (min_length : nat) (t : string) :
  is_empty t || (String.length t <? min_length) || (300 <? String.length t) = false ->
  min_length <= String.length t <= 300.
Proof.
  rewrite !orb_false_iff, !Nat.ltb_ge. tauto.
Qed.

(** A [continue]: the state is returned as it is. *)
Ltac continue_case := intros [= <-]; assumption.

(** One guard of a loop body: the branch that continues keeps the
    invariant, the other branch goes on with the fact [H]. *)
Ltac pass_guard H :=
  match goal with
  | |- (if ?c then Normal ?st else _) = Normal _ -> _ =>
      destruct c eqn:H; [solve [continue_case] |]
  end.

(** The state after a push keeps the invariant [from_distinct_hrefs]. *)
Ltac push_case link u :=
  intros [= <-]; split; simpl;
  [ apply NoDup_snoc; [tauto | apply mem_false; assumption]
  | apply Forall2_app; [tauto |];
    constructor; [| constructor];
    exists link; split; [assumption |];
    repeat split; try assumption; try tauto;
    exists u; repeat split; try assumption;
    try (match goal with
         | H : _ || _ || _ = false |- _ => apply title_length_guard in H; lia
         end);
    try (apply negb_false_iff; assumption) ].

Section GenericFacts.

Variable URLctor : string -> string -> option URL.
Variable location : Location.
Variable pool : Element -> Prop.

Local Abbreviation Inv st :=
  (from_distinct_hrefs
    (generic_pushed_for URLctor location 3 denylist_re asset_re isTitle (fun _ => True))
    pool (g_seen st) (g_items st)).

Lemma generic_link_inv (st st' : Generic) (link : Element) :
  Inv st -> pool link ->
  generic_link URLctor location st link = Normal st' -> Inv st'.
Proof.
  intros Hinv Hp. unfold generic_link.
  destruct (getAttribute link "href") as [href|] eqn:Hattr; [| continue_case].
  destruct (is_empty href) eqn:Hne; simpl; [continue_case |].
  pass_guard Hseen.
  destruct (String.eqb href "#") eqn:Hhash; simpl; [continue_case |].
  pass_guard Hcur. pass_guard Hfrag.
  unfold new_URL. destruct (URLctor href (loc_origin location)) as [u|] eqn:Hu;
    [| continue_case].
  pass_guard Horigin. pass_guard Hdeny. pass_guard Hasset. pass_guard Hlen.
  pass_guard Htitle.
  destruct Hinv. push_case link u.
Qed.

Lemma generic_link_total (st : Generic) (link : Element) :
  exists st', generic_link URLctor location st link = Normal st'.
Proof.
  unfold generic_link, new_URL.
  repeat match goal with
         | |- exists _, match ?c with _ => _ end = _ => destruct c
         | |- exists _, (if ?c then _ else _) = _ => destruct c
         end; eexists; reflexivity.
Qed.

Lemma generic_links_inv (links : list Element) :
  forall st st', Inv st -> Forall pool links ->
  generic_links URLctor location st links = Normal st' -> Inv st'.
Proof.
  induction links as [| link links IH]; simpl; intros st st' Hinv Hall.
  - now intros [= <-].
  - inversion Hall as [| ? ? Hp Hrest]; subst.
    destruct (generic_link URLctor location st link) as [st1|e] eqn:H1; simpl;
      [| discriminate].
    intros H2. eapply IH; [| eassumption | eassumption].
    eapply generic_link_inv; eassumption.
Qed.

Lemma generic_links_total (links : list Element) :
  forall st, exists st', generic_links URLctor location st links = Normal st'.
Proof.
  induction links as [| link links IH]; simpl; intros st.
  - now exists st.
  - destruct (generic_link_total st link) as [st1 ->]. simpl. apply IH.
Qed.

End GenericFacts.

(** [genericExtract] returns normally on every document: the exception
    of [new URL] is caught in the loop. *)
Lemma genericExtract_total URLctor location doc :
  exists its, genericExtract URLctor location doc = Normal its.
Proof.
  unfold genericExtract.
  destruct (generic_links_total URLctor location
              (querySelectorAll doc generic_candidates) (mkGeneric [] [])) as [st ->].
  simpl. now exists (g_items st).
Qed.

(** What [genericExtract] returns was built from candidates that passed
    all its guards, with pairwise different [href] strings. *)
Lemma genericExtract_provenance URLctor location doc its :
  genericExtract URLctor location doc = Normal its ->
  exists hrefs,
    from_distinct_hrefs
      (generic_pushed_for URLctor location 3 denylist_re asset_re isTitle (fun _ => True))
      (fun link => In link (querySelectorAll doc generic_candidates)) hrefs its.
Proof.
  unfold genericExtract.
  destruct (generic_links URLctor location (mkGeneric [] [])
              (querySelectorAll doc generic_candidates)) as [st|e] eqn:H; simpl;
    [| discriminate].
  intros [= <-]. exists (g_seen st).
  eapply generic_links_inv; [| | exact H].
  - split; simpl; constructor.
  - apply Forall_forall. auto.
Qed.

Section AttachedButtonsFacts.

Variable URLctor : string -> string -> option URL.
Variable location : Location.
Variable pool : Element -> Prop.

Local Abbreviation Inv st :=
  (from_distinct_hrefs
    (generic_pushed_for URLctor location 2 AttachedButtons.denylist_re
       AttachedButtons.asset_re AttachedButtons.isTitle (fun _ => True))
    pool (g_seen st) (g_items st)).

Lemma attached_generic_link_inv (st st' : Generic) (link : Element) :
  Inv st -> pool link ->
  AttachedButtons.generic_link URLctor location st link = Normal st' -> Inv st'.
Proof.
  intros Hinv Hp. unfold AttachedButtons.generic_link.
  destruct (getAttribute link "href") as [href|] eqn:Hattr; [| continue_case].
  destruct (is_empty href) eqn:Hne; simpl; [continue_case |].
  pass_guard Hseen.
  destruct (String.eqb href "#") eqn:Hhash; simpl; [continue_case |].
  pass_guard Hcur. pass_guard Hfrag.
  unfold new_URL. destruct (URLctor href (loc_origin location)) as [u|] eqn:Hu; simpl;
    [| discriminate].
  pass_guard Horigin. pass_guard Hdeny. pass_guard Hasset. pass_guard Hlen.
  pass_guard Htitle.
  destruct Hinv. push_case link u.
Qed.

Lemma attached_generic_links_inv (links : list Element) :
  forall st st', Inv st -> Forall pool links ->
  AttachedButtons.generic_links URLctor location st links = Normal st' -> Inv st'.
Proof.
  induction links as [| link links IH]; simpl; intros st st' Hinv Hall.
  - now intros [= <-].
  - inversion Hall as [| ? ? Hp Hrest]; subst.
    destruct (AttachedButtons.generic_link URLctor location st link) as [st1|e] eqn:H1;
      simpl; [| discriminate].
    intros H2. eapply IH; [| eassumption | eassumption].
    eapply attached_generic_link_inv; eassumption.
Qed.

End AttachedButtonsFacts.

Lemma attached_genericExtract_provenance URLctor location doc its :
  AttachedButtons.genericExtract URLctor location doc = Normal its ->
  exists hrefs,
    from_distinct_hrefs
      (generic_pushed_for URLctor location 2 AttachedButtons.denylist_re
         AttachedButtons.asset_re AttachedButtons.isTitle (fun _ => True))
      (fun link => In link (querySelectorAll doc AttachedButtons.generic_candidates))
      hrefs its.
Proof.
  unfold AttachedButtons.genericExtract.
  destruct (AttachedButtons.generic_links URLctor location (mkGeneric [] [])
              (querySelectorAll doc AttachedButtons.generic_candidates))
    as [st|e] eqn:H; simpl; [| discriminate].
  intros [= <-]. exists (g_seen st).
  eapply attached_generic_links_inv; [| | exact H].
  - split; simpl; constructor.
  - apply Forall_forall. auto.
Qed.

Section InlineButtonFacts.

Variable URLctor : string -> string -> option URL.
Variable location : Location.
Variable pool : Element -> Prop.

Local Abbreviation Inv st :=
  (from_distinct_hrefs
    (generic_pushed_for URLctor location 3 denylist_re asset_re isTitle
       (fun link => InlineButton.is_profile_link link = false))
    pool (g_seen st) (g_items st)).

Lemma inline_generic_link_inv (st st' : Generic) (link : Element) :
  Inv st -> pool link ->
  InlineButton.generic_link URLctor location st link = Normal st' -> Inv st'.
Proof.
  intros Hinv Hp. unfold InlineButton.generic_link.
  destruct (getAttribute link "href") as [href|] eqn:Hattr; [| continue_case].
  destruct (is_empty href) eqn:Hne; simpl; [continue_case |].
  pass_guard Hseen.
  destruct (String.eqb href "#") eqn:Hhash; simpl; [continue_case |].
  pass_guard Hcur. pass_guard Hfrag.
  unfold new_URL. destruct (URLctor href (loc_origin location)) as [u|] eqn:Hu;
    [| continue_case].
  pass_guard Horigin. pass_guard Hdeny. pass_guard Hasset. pass_guard Hlen.
  pass_guard Hprofile. pass_guard Htitle.
  destruct Hinv. push_case link u.
Qed.

Lemma inline_generic_links_inv (links : list Element) :
  forall st st', Inv st -> Forall pool links ->
  InlineButton.generic_links URLctor location st links = Normal st' -> Inv st'.
Proof.
  induction links as [| link links IH]; simpl; intros st st' Hinv Hall.
  - now intros [= <-].
  - inversion Hall as [| ? ? Hp Hrest]; subst.
    destruct (InlineButton.generic_link URLctor location st link) as [st1|e] eqn:H1;
      simpl; [| discriminate].
    intros H2. eapply IH; [| eassumption | eassumption].
    eapply inline_generic_link_inv; eassumption.
Qed.

End InlineButtonFacts.

Lemma inline_genericExtract_provenance URLctor location doc its :
  InlineButton.genericExtract URLctor location doc = Normal its ->
  exists hrefs,
    from_distinct_hrefs
      (generic_pushed_for URLctor location 3 denylist_re asset_re isTitle
         (fun link => InlineButton.is_profile_link link = false))
      (fun link => In link (querySelectorAll doc generic_candidates))
      hrefs its.
Proof.
  unfold InlineButton.genericExtract.
  destruct (InlineButton.generic_links URLctor location (mkGeneric [] [])
              (querySelectorAll doc generic_candidates))
    as [st|e] eqn:H; simpl; [| discriminate].
  intros [= <-]. exists (g_seen st).
  eapply inline_generic_links_inv; [| | exact H].
  - split; simpl; constructor.
  - apply Forall_forall. auto.
Qed.

(** ** Deduplication *)

Lemma rejected_by_flagless (R : RegExp) (href : string) :
  global R = false -> sticky R = false ->
  rejected_by (Some R) href = (negb (test R href), Some R).
Proof.
  intros Hg Hy. unfold rejected_by.
  pose proof (RegExp_test_stateless R href Hg Hy) as Hs.
  pose proof (RegExp_test_fst R href) as Hf.
  destruct (RegExp_test R href) as [ok R']. simpl in *. now subst.
Qed.

Lemma accepts_not_rejected (pat : option RegExp) (href : string) :
  accepts pat href -> rejected_by pat href = (false, pat).
Proof.
  destruct pat as [R|]; simpl; [| reflexivity].
  intros (Hg & Hy & Ht). fold (rejected_by (Some R) href).
  rewrite rejected_by_flagless by assumption. now rewrite Ht.
Qed.

Lemma rejected_by_keeps (pat : option RegExp) (href : string) :
  keeps_pattern pat -> snd (rejected_by pat href) = pat.
Proof.
  destruct pat as [R|]; simpl; [| reflexivity].
  intros [Hg Hy]. fold (rejected_by (Some R) href).
  now rewrite rejected_by_flagless.
Qed.

Lemma in_doc_hrefs (doc : Node) (sel : Selector) (link : Element) (href : string) :
  In link (querySelectorAll doc sel) -> getAttribute link "href" = Some href ->
  In href (doc_hrefs doc).
Proof.
  unfold querySelectorAll, doc_hrefs. intros Hin Hattr.
  apply filter_In in Hin as [Hin _].
  apply in_flat_map. exists link. split; [assumption|].
  rewrite Hattr. now left.
Qed.

Lemma Forall2_impl_rel {A B} (R R' : A -> B -> Prop) (l : list A) (l' : list B) :
  (forall a b, R a b -> R' a b) -> Forall2 R l l' -> Forall2 R' l l'.
Proof.
  intros Himp H. induction H; constructor; auto.
Qed.

Lemma Forall2_in_right {A B} (R : A -> B -> Prop) (l : list A) (l' : list B) (b : B) :
  Forall2 R l l' -> In b l' -> exists a, In a l /\ R a b.
Proof.
  induction 1 as [| a b' l l' Hab _ IH]; simpl; [intros []|].
  intros [<- | Hin].
  - exists a. auto.
  - destruct (IH Hin) as (a' & Ha' & HR). exists a'. auto.
Qed.

(** Items resolved from pairwise different [href] strings have pairwise
    different URLs when resolution is injective on the document. *)
Lemma distinct_hrefs_distinct_urls URLctor location doc hrefs its :
  NoDup hrefs ->
  Forall2 (resolved_from URLctor location doc) hrefs its ->
  resolves_injectively URLctor location doc ->
  NoDup (map url its).
Proof.
  intros Hnd Hf Hinj. induction Hf as [| href it hrefs its Hr Hf IH]; simpl.
  - constructor.
  - inversion Hnd as [| ? ? Hnotin Hnd']; subst. constructor; [| now apply IH].
    intros Hin. apply in_map_iff in Hin as (it' & Heq & Hin').
    destruct (Forall2_in_right _ _ _ _ Hf Hin') as (href' & Hin_h & Hd' & u' & Hu' & Hurl').
    destruct Hr as (Hd & u & Hu & Hurl).
    apply Hnotin. replace href with href'; [assumption|].
    apply (Hinj href' href u' u); try assumption. congruence.
Qed.

Lemma pushed_resolved URLctor location doc selectors link href it :
  selected_by doc selectors link -> pushed_for URLctor location link href it ->
  resolved_from URLctor location doc href it.
Proof.
  intros (sel & _ & Hq) (Hattr & _ & _ & u & Hu & ->). split.
  - eapply in_doc_hrefs; eassumption.
  - exists u. auto.
Qed.

Lemma generic_pushed_resolved URLctor location doc cands n deny assets is_title extra
      link href it :
  In link (querySelectorAll doc cands) ->
  generic_pushed_for URLctor location n deny assets is_title extra link href it ->
  resolved_from URLctor location doc href it.
Proof.
  intros Hq (Hattr & _ & _ & u & Hu & _ & ->). split.
  - eapply in_doc_hrefs; eassumption.
  - exists u. auto.
Qed.

(** *** The first occurrence wins *)

Lemma from_first_more built eligible (done more : list Element) href it :
  from_first built eligible done href it ->
  from_first built eligible (done ++ more) href it.
Proof.
  intros (before & link & after & -> & Hb & He & Hf).
  exists before, link, (after ++ more). repeat split; auto.
  now rewrite <- app_assoc.
Qed.

Lemma Forall2_from_first_more built eligible (done more : list Element) hrefs its :
  Forall2 (from_first built eligible done) hrefs its ->
  Forall2 (from_first built eligible (done ++ more)) hrefs its.
Proof.
  apply Forall2_impl_rel. intros href it. apply from_first_more.
Qed.

Section CollectorFirst.

Variable URLctor : string -> string -> option URL.
Variable location : Location.
Variable pat : option RegExp.
Hypothesis pat_kept : keeps_pattern pat.

(** After the elements [done]: the items come from first occurrences
    among them, and every element among them that the collector would
    take has its [href] in [seen]. *)
Local Abbreviation First done st :=
  (pattern_obj st = pat
   /\ NoDup (seen st)
   /\ Forall2 (from_first (pushed_for URLctor location) has_text done) (seen st) (collected st)
   /\ (forall l h, In l done -> getAttribute l "href" = Some h -> is_empty h = false ->
                   fst (rejected_by pat h) = false -> has_text l = true -> In h (seen st))).

(** An element that is passed over. *)
Lemma collect_skip (done : list Element) (st : Collector) (link : Element) :
  First done st ->
  (forall h, getAttribute link "href" = Some h -> is_empty h = false ->
             fst (rejected_by pat h) = false -> has_text link = true -> In h (seen st)) ->
  First (done ++ [link]) st.
Proof.
  intros (Hp & Hnd & Hf & Hseen) Hlink. repeat split; auto.
  - now apply Forall2_from_first_more.
  - intros l h Hin. apply in_app_iff in Hin as [Hin | [<- | []]]; [now apply Hseen | apply Hlink].
Qed.

Lemma collect_link_first (done : list Element) (st st' : Collector) (link : Element) :
  First done st ->
  collect_link URLctor location st link = Normal st' ->
  First (done ++ [link]) st'.
Proof.
  intros Hinv. pose proof Hinv as (Hp & Hnd & Hf & Hseen). unfold collect_link.
  destruct (getAttribute link "href") as [href|] eqn:Hattr.
  2:{ intros [= <-]. apply collect_skip; [assumption | intros h Hh; rewrite Hattr in Hh; discriminate Hh]. }
  destruct (is_empty href) eqn:Hne; cbn [orb].
  { intros [= <-]. apply collect_skip; [assumption|]. intros h Hh. rewrite Hattr in Hh. injection Hh as <-. congruence. }
  destruct (mem href (seen st)) eqn:Hmem.
  { intros [= <-]. apply collect_skip; [assumption|]. intros h Hh _ _ _. rewrite Hattr in Hh. injection Hh as <-.
    now apply mem_In. }
  pose proof (rejected_by_keeps pat href pat_kept) as Hk.
  rewrite Hp. destruct (rejected_by pat href) as [skip pat'] eqn:Hrej.
  cbn [snd] in Hk. subst pat'.
  assert (forall st0, st0 = mkCollector (seen st) (collected st) pat -> st0 = st) as Hsame.
  { intros st0 ->. destruct st as [s c p]. cbn in *. now subst. }
  destruct skip.
  { intros [= <-]. rewrite (Hsame _ eq_refl). apply collect_skip; [assumption|].
    intros h Hh _ Hr. rewrite Hattr in Hh. injection Hh as <-.
    rewrite Hrej in Hr. discriminate Hr. }
  destruct (is_empty (trim (textContent link))) eqn:Ht.
  { intros [= <-]. rewrite (Hsame _ eq_refl). apply collect_skip; [assumption|].
    intros h _ _ _. unfold has_text. rewrite Ht. discriminate. }
  unfold new_URL. destruct (URLctor href (loc_origin location)) as [u|] eqn:Hu; cbn [bind];
    [| discriminate].
  intros [= <-]. cbn [pattern_obj seen collected]. repeat split.
  - apply NoDup_snoc; [assumption | now apply mem_false].
  - apply Forall2_app; [now apply Forall2_from_first_more |].
    constructor; [| constructor].
    exists done, link, []. repeat split; auto.
    + exists u. auto.
    + unfold has_text. now rewrite Ht.
    + apply Forall_forall. intros earlier Hin Hattr'.
      destruct (has_text earlier) eqn:He; [| reflexivity].
      exfalso. apply (mem_false _ _ Hmem).
      apply (Hseen earlier href); auto. now rewrite Hrej.
  - intros l h Hin. apply in_app_iff in Hin as [Hin | [<- | []]].
    + intros. apply in_or_app. left. now apply (Hseen l h).
    + rewrite Hattr. intros [= <-] _ _ _. apply in_or_app. right. now left.
Qed.

Lemma collect_links_first (links : list Element) :
  forall done st st', First done st ->
  collect_links URLctor location st links = Normal st' ->
  First (done ++ links) st'.
Proof.
  induction links as [| link links IH]; cbn [collect_links]; intros done st st' Hinv.
  - intros [= <-]. now rewrite app_nil_r.
  - destruct (collect_link URLctor location st link) as [st1|e] eqn:H1; cbn [bind];
      [| discriminate].
    intros H2.
    replace (done ++ link :: links) with ((done ++ [link]) ++ links)
      by now rewrite <- app_assoc.
    apply (IH _ st1); [| assumption].
    now apply (collect_link_first done st).
Qed.

Lemma collect_selectors_first (doc : Node) (selectors : list Selector) :
  forall done st st', First done st ->
  collect_selectors URLctor location doc st selectors = Normal st' ->
  First (done ++ flat_map (querySelectorAll doc) selectors) st'.
Proof.
  induction selectors as [| selector selectors IH]; cbn [collect_selectors flat_map];
    intros done st st' Hinv.
  - intros [= <-]. now rewrite app_nil_r.
  - destruct (collect_links URLctor location st (querySelectorAll doc selector))
      as [st1|e] eqn:H1; cbn [bind]; [| discriminate].
    intros H2. rewrite app_assoc.
    apply (IH _ st1); [| assumption].
    now apply (collect_links_first _ done st).
Qed.

End CollectorFirst.

(** With a filter that has neither the [g] nor the [y] flag, each item
    of [extractLinks] comes from the first element, in the order of the
    selectors and of the document, that has its [href] and a text. *)
Lemma extractLinks_first_occurrence URLctor location doc selectors hrefPattern its :
  keeps_pattern hrefPattern ->
  extractLinks URLctor location doc selectors hrefPattern = Normal its ->
  exists hrefs,
    NoDup hrefs
    /\ Forall2 (from_first (pushed_for URLctor location) has_text
                  (flat_map (querySelectorAll doc) selectors)) hrefs its.
Proof.
  intros Hk. unfold extractLinks.
  destruct (collect_selectors URLctor location doc (mkCollector [] [] hrefPattern) selectors)
    as [st|e] eqn:H; cbn [bind]; [| discriminate].
  intros [= <-]. exists (seen st).
  destruct (collect_selectors_first URLctor location hrefPattern Hk doc selectors
              [] (mkCollector [] [] hrefPattern) st) as (_ & Hnd & Hf & _).
  - cbn. repeat split; try constructor. intros l h [].
  - exact H.
  - auto.
Qed.

Section GenericFirst.

Variable URLctor : string -> string -> option URL.
Variable location : Location.

(** The tests of [genericExtract] that depend on the [href] alone. *)
Local Abbreviation href_passes h u :=
  (is_empty h = false
   /\ URLctor h (loc_origin location) = Some u
   /\ String.eqb h "#" = false
   /\ String.eqb h (loc_pathname location) = false
   /\ test fragment_re h = false
   /\ String.eqb (url_origin u) (loc_origin location) = true
   /\ test denylist_re (url_pathname u) = false
   /\ test asset_re (url_pathname u) = false).

Local Abbreviation First done st :=
  (NoDup (g_seen st)
   /\ Forall2 (from_first
                 (generic_pushed_for URLctor location 3 denylist_re asset_re isTitle
                    (fun _ => True))
                 has_title done) (g_seen st) (g_items st)
   /\ (forall l h u, In l done -> getAttribute l "href" = Some h -> href_passes h u ->
                     has_title l = true -> In h (g_seen st))).

Lemma generic_skip (done : list Element) (st : Generic) (link : Element) :
  First done st ->
  (forall h u, getAttribute link "href" = Some h -> href_passes h u ->
               has_title link = true -> In h (g_seen st)) ->
  First (done ++ [link]) st.
Proof.
  intros (Hnd & Hf & Hseen) Hlink. repeat split; auto.
  - now apply Forall2_from_first_more.
  - intros l h u Hin. apply in_app_iff in Hin as [Hin | [<- | []]];
      [now apply Hseen | apply Hlink].
Qed.

(** A guard of the loop body: the branch that continues passes the
    element over, the other branch goes on with the fact [H]. *)
Ltac skip_guard A H :=
  match goal with
  | |- (if ?c then Normal ?st else _) = Normal _ -> _ =>
      destruct c eqn:H;
      [ intros [= <-]; apply generic_skip; [assumption |];
        let h := fresh "h" in
        let u := fresh "u" in
        let Hh := fresh "Hh" in
        intros h u Hh (? & ? & ? & ? & ? & ? & ? & ?) ?;
        rewrite A in Hh; injection Hh as <-;
        solve [ congruence
              | apply mem_In; assumption
              | match goal with
                | U : URLctor _ _ = Some ?u1, U' : URLctor _ _ = Some ?u2 |- _ =>
                    assert (u1 = u2) by congruence; subst; rewrite ?negb_true_iff in *;
                    congruence
                end ]
      | ]
  end.

Lemma generic_link_first (done : list Element) (st st' : Generic) (link : Element) :
  First done st ->
  generic_link URLctor location st link = Normal st' ->
  First (done ++ [link]) st'.
Proof.
  intros Hinv. pose proof Hinv as (Hnd & Hf & Hseen). unfold generic_link. cbv zeta.
  destruct (getAttribute link "href") as [href|] eqn:Hattr.
  2:{ intros [= <-]. apply generic_skip; [assumption | intros h u Hh; rewrite Hattr in Hh; discriminate Hh]. }
  destruct (is_empty href) eqn:Hne; cbn [orb].
  { intros [= <-]. apply generic_skip; [assumption|].
    intros h u Hh (? & _). rewrite Hattr in Hh. injection Hh as <-. congruence. }
  skip_guard Hattr Hmem.
  destruct (String.eqb href "#") eqn:Hhash; cbn [orb].
  { intros [= <-]. apply generic_skip; [assumption|].
    intros h u Hh (_ & _ & ? & _). rewrite Hattr in Hh. injection Hh as <-. congruence. }
  skip_guard Hattr Hcur. skip_guard Hattr Hfrag.
  unfold new_URL. destruct (URLctor href (loc_origin location)) as [u|] eqn:Hu.
  2:{ intros [= <-]. apply generic_skip; [assumption|].
      intros h u Hh (_ & ? & _). rewrite Hattr in Hh. injection Hh as <-. congruence. }
  skip_guard Hattr Horigin. skip_guard Hattr Hdeny. skip_guard Hattr Hasset.
  destruct (is_empty (trim (textContent link))
            || (String.length (trim (textContent link)) <? 3)
            || (300 <? String.length (trim (textContent link)))) eqn:Hlen.
  { intros [= <-]. apply generic_skip; [assumption|].
    intros h u0 _ _. unfold has_title. cbv zeta. rewrite Hlen. discriminate. }
  destruct (negb (isTitle link)) eqn:Htitle.
  { intros [= <-]. apply generic_skip; [assumption|].
    intros h u0 _ _. unfold has_title. cbv zeta. apply negb_true_iff in Htitle.
    rewrite Htitle, andb_false_r. discriminate. }
  apply negb_false_iff in Htitle, Horigin.
  intros [= <-]. cbn [g_seen g_items]. repeat split.
  - apply NoDup_snoc; [assumption | now apply mem_false].
  - apply Forall2_app; [now apply Forall2_from_first_more |].
    constructor; [| constructor].
    exists done, link, []. repeat split; auto.
    + exists u. repeat split; auto.
      all: apply title_length_guard in Hlen; lia.
    + unfold has_title. cbv zeta. now rewrite Hlen, Htitle.
    + apply Forall_forall. intros earlier Hin Hattr'.
      destruct (has_title earlier) eqn:He; [| reflexivity].
      exfalso. apply (mem_false _ _ Hmem).
      apply (Hseen earlier href u); auto. repeat split; auto.
  - intros l h u0 Hin. apply in_app_iff in Hin as [Hin | [<- | []]].
    + intros. apply in_or_app. left. now apply (Hseen l h u0).
    + rewrite Hattr. intros [= <-] _ _. apply in_or_app. right. now left.
Qed.

Lemma generic_links_first (links : list Element) :
  forall done st st', First done st ->
  generic_links URLctor location st links = Normal st' ->
  First (done ++ links) st'.
Proof.
  induction links as [| link links IH]; cbn [generic_links]; intros done st st' Hinv.
  - intros [= <-]. now rewrite app_nil_r.
  - destruct (generic_link URLctor location st link) as [st1|e] eqn:H1; cbn [bind];
      [| discriminate].
    intros H2.
    replace (done ++ link :: links) with ((done ++ [link]) ++ links)
      by now rewrite <- app_assoc.
    apply (IH _ st1); [| assumption].
    now apply (generic_link_first done st).
Qed.

End GenericFirst.

(** Each item of [genericExtract] comes from the first candidate, in
    the order of the document, that has its [href] and passes the tests
    on the element. *)
Lemma genericExtract_first_occurrence URLctor location doc its :
  genericExtract URLctor location doc = Normal its ->
  exists hrefs,
    NoDup hrefs
    /\ Forall2 (from_first
                  (generic_pushed_for URLctor location 3 denylist_re asset_re isTitle
                     (fun _ => True))
                  has_title (querySelectorAll doc generic_candidates)) hrefs its.
Proof.
  unfold genericExtract.
  destruct (generic_links URLctor location (mkGeneric [] [])
              (querySelectorAll doc generic_candidates)) as [st|e] eqn:H; cbn [bind];
    [| discriminate].
  intros [= <-]. exists (g_seen st).
  destruct (generic_links_first URLctor location (querySelectorAll doc generic_candidates)
              [] (mkGeneric [] []) st) as (Hnd & Hf & _).
  - cbn. repeat split; try constructor. intros l h u [].
  - exact H.
  - auto.
Qed.

(** C1 (amended).  The items returned by [extractLinks], and likewise
    by [genericExtract], are resolved one for one from [href]
    attributes that are pairwise different as strings: the seen-set
    holds the attribute values, not the resolved URLs.  Hence no two
    items share a [url] whenever different [href] strings of the
    document resolve to different URLs.  Of the elements with one
    [href] the first occurrence wins: the item of an [href] is built
    (title, URL and number) from the first element, in the order in
    which the elements are visited, that has this [href] and passes the
    tests on the element itself, namely a text left after trimming for
    [extractLinks] (with a filter that has neither the [g] nor the [y]
    flag, as all filters of [EXTRACTORS]), and a title of 3 to 300
    characters with the look of a title for [genericExtract]. *)
Theorem items_from_distinct_hrefs URLctor location doc selectors hrefPattern its :
  extractLinks URLctor location doc selectors hrefPattern = Normal its
  \/ genericExtract URLctor location doc = Normal its ->
  (exists hrefs, NoDup hrefs /\ Forall2 (resolved_from URLctor location doc) hrefs its)
  /\ (resolves_injectively URLctor location doc -> NoDup (map url its))
  /\ (extractLinks URLctor location doc selectors hrefPattern = Normal its ->
      keeps_pattern hrefPattern ->
      exists hrefs,
        NoDup hrefs
        /\ Forall2 (from_first (pushed_for URLctor location) has_text
                      (flat_map (querySelectorAll doc) selectors)) hrefs its)
  /\ (genericExtract URLctor location doc = Normal its ->
      exists hrefs,
        NoDup hrefs
        /\ Forall2 (from_first
                      (generic_pushed_for URLctor location 3 denylist_re asset_re isTitle
                         (fun _ => True))
                      has_title (querySelectorAll doc generic_candidates)) hrefs its).
Proof.
  intros H.
  assert (exists hrefs,
             NoDup hrefs /\ Forall2 (resolved_from URLctor location doc) hrefs its)
    as (hrefs & Hnd & Hf).
  { destruct H as [H | H].
    - destruct (extractLinks_provenance _ _ _ _ _ _ H) as (hrefs & Hnd & Hf).
      exists hrefs. split; [assumption|].
      eapply Forall2_impl_rel; [| exact Hf].
      intros href it (link & Hsel & Hp). eapply pushed_resolved; eassumption.
    - destruct (genericExtract_provenance _ _ _ _ H) as (hrefs & Hnd & Hf).
      exists hrefs. split; [assumption|].
      eapply Forall2_impl_rel; [| exact Hf].
      intros href it (link & Hsel & Hp). eapply generic_pushed_resolved; eassumption. }
  split; [| split; [| split]].
  - exists hrefs. auto.
  - intros Hinj. eapply distinct_hrefs_distinct_urls; eassumption.
  - intros He Hk. exact (extractLinks_first_occurrence _ _ _ _ _ _ Hk He).
  - apply genericExtract_first_occurrence.
Qed.

(** Scenario A of the specification: of three rows, the first and the
    third with the same [href], two items are returned, their URLs
    differ, and each comes from the first row with its [href]. *)
Lemma items_from_distinct_hrefs_witness :
  issueOrPr URL_new (at_path "/acme/widgets/pulls" EmptyString) repeated_row_page
  = Normal scenario_items
  /\ NoDup [ "https://github.com/acme/widgets/pull/1";
             "https://github.com/acme/widgets/pull/2" ]
  /\ exists hrefs,
       NoDup hrefs
       /\ Forall2 (from_first (pushed_for URL_new (at_path "/acme/widgets/pulls" EmptyString))
                     has_text
                     (flat_map (querySelectorAll repeated_row_page) issueOrPr_selectors))
                  hrefs scenario_items.
Proof.
  pose (claim := items_from_distinct_hrefs URL_new
                   (at_path "/acme/widgets/pulls" EmptyString) repeated_row_page
                   issueOrPr_selectors (Some issueOrPr_pattern) scenario_items
                   (or_introl eq_refl)).
  split; [reflexivity|]. split.
  - refine (proj1 (proj2 claim) _).
    intros h1 h2 u1 u2 H1 H2.
    simpl in H1, H2.
    destruct H1 as [<- | [<- | [<- | []]]]; destruct H2 as [<- | [<- | [<- | []]]];
      vm_compute; intros [= <-] [= <-]; try reflexivity; intros [=].
  - refine (proj1 (proj2 (proj2 claim)) eq_refl _). split; reflexivity.
Defined.

(** C1 as stated fails: two links whose [href] strings differ but
    resolve to the same URL are both emitted, by [extractLinks] and by
    [genericExtract]. *)
Lemma same_url_emitted_twice :
  (exists its,
      issueOrPr URL_new (at_path "/acme/widgets/pulls" EmptyString) two_spellings_page
      = Normal its /\ ~ NoDup (map url its))
  /\ (exists its,
      genericExtract URL_new (at_path "/acme/widgets/pulls" EmptyString) two_spellings_page
      = Normal its /\ ~ NoDup (map url its)).
Proof.
  split; eexists; (split; [vm_compute; reflexivity |]);
    simpl; intros H; inversion H as [| ? ? Hnotin _]; apply Hnotin; now left.
Qed.

(** ** The orchestrator *)

(** The record returned when nothing was found. *)
Lemma extract_for_cases URLctor location page doc r :
  extract_for URLctor location page doc = Normal r ->
  r = mkResult false None None (getContextInfo location) [] (Some no_items_error) None
  \/ exists its,
       its <> [] /\
       r = mkResult true (Some (type_or_generic (page_type page))) (Some (page_label page))
                    (getContextInfo location) its None (Some (loc_href location)).
Proof.
  unfold extract_for.
  destruct (try_specific URLctor location page doc) as [items0|e]; cbn [bind];
    [| discriminate].
  destruct (if length items0 =? 0 then try_all (EXTRACTORS URLctor location) doc items0
            else Normal items0) as [items1|e]; cbn [bind]; [| discriminate].
  destruct (if length items1 =? 0 then genericExtract URLctor location doc
            else Normal items1) as [items2|e]; cbn [bind]; [| discriminate].
  destruct items2 as [| it its]; simpl; intros [= <-].
  - now left.
  - right. exists (it :: its). split; [discriminate | reflexivity].
Qed.

Lemma try_all_empty (doc : Node) (table : list (string * (Node -> completion (list Item)))) :
  Forall (fun entry => snd entry doc = Normal []) table ->
  forall its, try_all table doc its = Normal []
              \/ (table = [] /\ try_all table doc its = Normal its).
Proof.
  induction 1 as [| [key extractor] table Hx _ IH]; intros its; simpl.
  - right. auto.
  - simpl in Hx. rewrite Hx. simpl. left.
    destruct (IH []) as [H | [-> H]]; [exact H | reflexivity].
Qed.

Lemma lookup_extractor_in key table extractor :
  lookup_extractor key table = Some extractor -> In (key, extractor) table.
Proof.
  induction table as [| [k f] table IH]; simpl; [discriminate|].
  destruct (String.eqb k key) eqn:E.
  - apply String.eqb_eq in E. subst. intros [= <-]. now left.
  - intros H. right. now apply IH.
Qed.

Lemma try_specific_empty URLctor location page doc :
  Forall (fun entry => snd entry doc = Normal []) (EXTRACTORS URLctor location) ->
  try_specific URLctor location page doc = Normal [].
Proof.
  intros Hall. unfold try_specific.
  destruct (page_type page) as [t|]; [| reflexivity].
  destruct (is_empty t); [reflexivity|].
  destruct (lookup_extractor t (EXTRACTORS URLctor location)) as [extractor|] eqn:E;
    [| reflexivity].
  apply lookup_extractor_in in E.
  rewrite Forall_forall in Hall. exact (Hall _ E).
Qed.

(** C3.  Whenever [extractItems] returns a result, its items are empty
    exactly when [success] is false, and it carries an [error] exactly
    when [success] is false.  When no strategy yields an item (every
    extractor of [EXTRACTORS] and [genericExtract] return an empty
    array), the call returns the record with [success: false], the error
    ["No extractable items found on this page."], no items, [pageType]
    and [pageLabel] [null], and the repo context. *)
Theorem extractItems_result_shape URLctor location doc :
  (forall r,
      fst (extractItems URLctor location PAGE_RULES doc) = Normal r ->
      (items r = [] <-> success r = false) /\ (error r <> None <-> success r = false))
  /\ (Forall (fun entry => snd entry doc = Normal []) (EXTRACTORS URLctor location) ->
      genericExtract URLctor location doc = Normal [] ->
      fst (extractItems URLctor location PAGE_RULES doc)
      = Normal (mkResult false None None (getContextInfo location) []
                         (Some no_items_error) None)).
Proof.
  unfold extractItems.
  destruct (detectPage location PAGE_RULES) as [page rules']. simpl. split.
  - intros r Hr. apply extract_for_cases in Hr as [-> | (its & Hne & ->)]; simpl.
    + repeat split; auto; discriminate.
    + repeat split; intros H; try discriminate; try contradiction.
  - intros Hall Hgen. unfold extract_for.
    rewrite (try_specific_empty _ _ page _ Hall). cbn [bind length Nat.eqb].
    destruct (try_all_empty _ _ Hall []) as [-> | [E _]]; [| discriminate E].
    cbn [bind length Nat.eqb]. rewrite Hgen. reflexivity.
Qed.

(** Scenario E of the specification: a page without any matching link. *)
Lemma extractItems_result_shape_witness :
  fst (extractItems URL_new (at_path "/acme/widgets" EmptyString) PAGE_RULES
         navigation_only_page)
  = Normal (mkResult false None None (mkRepo "acme" "widgets") []
                     (Some "No extractable items found on this page.") None)
  /\ ((@nil Item = [] <-> false = false)
      /\ (Some "No extractable items found on this page." <> None <-> false = false)).
Proof.
  split.
  - refine (proj2 (extractItems_result_shape URL_new (at_path "/acme/widgets" EmptyString)
                     navigation_only_page) _ _).
    + repeat constructor.
    + reflexivity.
  - exact (proj1 (extractItems_result_shape URL_new (at_path "/acme/widgets" EmptyString)
                    navigation_only_page)
                 (mkResult false None None (mkRepo "acme" "widgets") []
                           (Some "No extractable items found on this page.") None)
                 eq_refl).
Defined.

(** C9.  A second call of [extractItems] on the same document and
    location, run on the rule objects as the first call left them,
    completes as the first one did: the same record (success flag, page
    type, label, repo context, items in the same order), or the same
    exception; the rule objects are those of [PAGE_RULES] again. *)
Theorem extractItems_deterministic URLctor location doc :
  let first := extractItems URLctor location PAGE_RULES doc in
  let second := extractItems URLctor location (snd first) doc in
  fst second = fst first /\ snd second = PAGE_RULES.
Proof.
  cbv zeta. unfold extractItems.
  pose proof (detectPage_keeps_PAGE_RULES location) as Hkeep.
  destruct (detectPage location PAGE_RULES) as [page rules'] eqn:Hd.
  simpl in Hkeep. subst rules'. simpl. rewrite Hd. auto.
Qed.

Lemma PAGE_RULES_types :
  Forall (fun rule => type_or_generic (rule_type rule)
                      = match rule_type rule with
                        | Some kind => kind
                        | None => "generic"
                        end) PAGE_RULES.
Proof. unfold PAGE_RULES. repeat constructor. Qed.

Lemma detectPage_type (location : Location) :
  let page := fst (detectPage location PAGE_RULES) in
  type_or_generic (page_type page)
  = match page_type page with Some kind => kind | None => "generic" end.
Proof.
  cbv zeta. unfold detectPage.
  destruct (first_rule_spec (loc_pathname location ++ loc_search location) PAGE_RULES)
    as [(before & rule & after & Heq & _ & _ & Hf) | [_ Hf]];
    destruct (first_rule _ PAGE_RULES) as [found rules']; simpl in *; subst found;
    [| reflexivity].
  simpl. pose proof PAGE_RULES_types as H. rewrite Forall_forall in H.
  apply H. rewrite Heq. apply in_elt.
Qed.

Lemma attached_extract_for_cases URLctor location page doc r :
  AttachedButtons.extract_for URLctor location page doc = Normal r ->
  r = mkResult false None None (getContextInfo location) [] (Some no_items_error) None
  \/ exists its,
       its <> [] /\
       r = mkResult true (Some (type_or_generic (page_type page))) (Some (page_label page))
                    (getContextInfo location) its None (Some (loc_href location)).
Proof.
  unfold AttachedButtons.extract_for.
  destruct (try_specific URLctor location page doc) as [items0|e]; cbn [bind];
    [| discriminate].
  destruct (if length items0 =? 0 then AttachedButtons.genericExtract URLctor location doc
            else Normal items0) as [items1|e]; cbn [bind]; [| discriminate].
  destruct items1 as [| it its]; simpl; intros [= <-].
  - now left.
  - right. exists (it :: its). split; [discriminate | reflexivity].
Qed.

(** C10.  When [extractItems] succeeds although the extractor of the
    classified page type returned no item (the items come from the
    retry over all extractors or from the generic extractor),
    [pageLabel] is the label of the classification and [pageType] is the
    classified type, or ["generic"] when that is [null]; the same holds
    in the copy of the script without the retry. *)
Theorem fallback_keeps_classified_page URLctor location doc r :
  let page := fst (detectPage location PAGE_RULES) in
  try_specific URLctor location page doc = Normal [] ->
  success r = true ->
  fst (extractItems URLctor location PAGE_RULES doc) = Normal r
  \/ fst (AttachedButtons.extractItems URLctor location PAGE_RULES doc) = Normal r ->
  pageLabel r = Some (page_label page)
  /\ pageType r = Some (match page_type page with
                        | Some kind => kind
                        | None => "generic"
                        end).
Proof.
  cbv zeta. intros _ Hs Hr.
  pose proof (detectPage_type location) as Ht. cbv zeta in Ht.
  unfold extractItems, AttachedButtons.extractItems in Hr.
  destruct (detectPage location PAGE_RULES) as [page rules']. simpl in *.
  destruct Hr as [Hr | Hr];
    [apply extract_for_cases in Hr | apply attached_extract_for_cases in Hr];
    destruct Hr as [-> | (its & _ & ->)]; simpl in *; try discriminate;
    rewrite Ht; auto.
Qed.

(** A milestones page that shows pull-request rows: the milestones-list
    extractor finds nothing, the retry (first copy) or the generic
    extractor (copy without retry) does, and the page is still reported
    as the milestones list. *)
Lemma fallback_keeps_classified_page_witness :
  (Some "Milestones" = Some "Milestones" /\ Some "milestonesList" = Some "milestonesList")
  /\ exists r,
      fst (AttachedButtons.extractItems URL_new
             (at_path "/acme/widgets/milestones" EmptyString) PAGE_RULES repeated_row_page)
      = Normal r
      /\ pageLabel r = Some "Milestones" /\ pageType r = Some "milestonesList".
Proof.
  split.
  - exact (fallback_keeps_classified_page URL_new
             (at_path "/acme/widgets/milestones" EmptyString) repeated_row_page
             (mkResult true (Some "milestonesList") (Some "Milestones")
                (mkRepo "acme" "widgets")
                [ mkItem "Fix bug" "https://github.com/acme/widgets/pull/1" (Some "#1");
                  mkItem "Add feature" "https://github.com/acme/widgets/pull/2" (Some "#2") ]
                None (Some "https://github.com/acme/widgets/milestones"))
             eq_refl eq_refl (or_introl eq_refl)).
  - eexists. split; [vm_compute; reflexivity |].
    apply (fallback_keeps_classified_page URL_new
             (at_path "/acme/widgets/milestones" EmptyString) repeated_row_page);
      [reflexivity | reflexivity | right; reflexivity].
Defined.

(** ** Malformed links *)

(** C2 (the code departs from it).  On a tag list whose first link has
    the [href] [https://], which [new URL] rejects, the tags extractor
    and [extractItems] end with the [TypeError] instead of skipping the
    link, although without that link the extractor returns the other
    item; [genericExtract], which catches the exception, skips the link
    and returns the other item. *)
Theorem malformed_href_aborts_extractLinks :
  let location := at_path "/acme/widgets/tags" EmptyString in
  let v2 := mkItem "v2.0" "https://github.com/acme/widgets/releases/tag/v2.0" None in
  URL_new "https://" (loc_origin location) = None
  /\ tags URL_new location malformed_href_page = Throw "TypeError: Invalid URL"
  /\ fst (extractItems URL_new location PAGE_RULES malformed_href_page)
     = Throw "TypeError: Invalid URL"
  /\ tags URL_new location wellformed_href_page = Normal [v2]
  /\ genericExtract URL_new location malformed_href_page = Normal [v2].
Proof. cbv zeta. repeat split. Qed.

(** ** Origins *)

Lemma Forall2_Forall_right {A B} (R : A -> B -> Prop) (P : B -> Prop)
      (l : list A) (l' : list B) :
  (forall a b, In a l -> R a b -> P b) -> Forall2 R l l' -> Forall P l'.
Proof.
  intros Himp H. induction H as [| a b l l' Hab _ IH]; constructor.
  - apply (Himp a b); [now left | assumption].
  - apply IH. intros a' b' Hin. apply Himp. now right.
Qed.

(** C8 (amended).  [genericExtract] always returns, and each of its
    items has the URL of a link of the document that resolves to the
    origin of the page. *)
Theorem genericExtract_same_origin URLctor location doc :
  exists its,
    genericExtract URLctor location doc = Normal its
    /\ Forall (same_origin_item URLctor location doc) its.
Proof.
  destruct (genericExtract_total URLctor location doc) as [its H].
  exists its. split; [assumption|].
  destruct (genericExtract_provenance _ _ _ _ H) as (hrefs & _ & Hf).
  eapply Forall2_Forall_right; [| exact Hf].
  intros href it _ (link & Hin & Hattr & _ & _ & u & Hu & Hg & ->).
  destruct Hg as (_ & _ & _ & Ho & _).
  exists href, u. repeat split; auto.
  - eapply in_doc_hrefs; eassumption.
  - now apply String.eqb_eq.
Qed.

(** C8 as stated fails for the specific extractors: the tags extractor
    (no filter) and the issue extractor (whose filter is not anchored)
    emit items whose URLs are on another origin, and so does
    [extractItems] on a tags page. *)
Lemma specific_extractors_emit_cross_origin :
  let location := at_path "/acme/widgets/tags" EmptyString in
  let foreign it :=
    exists u, URL_new (url it) (loc_origin location) = Some u
              /\ url_origin u <> loc_origin location in
  (exists its it, tags URL_new location cross_origin_page = Normal its
                  /\ In it its /\ foreign it)
  /\ (exists its it, issueOrPr URL_new location cross_origin_page = Normal its
                     /\ In it its /\ foreign it)
  /\ (exists r it, fst (extractItems URL_new location PAGE_RULES cross_origin_page) = Normal r
                   /\ In it (items r) /\ foreign it).
Proof.
  cbv zeta. repeat split.
  - eexists. eexists. split; [vm_compute; reflexivity |]. split; [now left |].
    eexists. split; [vm_compute; reflexivity | discriminate].
  - eexists. eexists. split; [vm_compute; reflexivity |]. split; [now left |].
    eexists. split; [vm_compute; reflexivity | discriminate].
  - eexists. eexists. split; [vm_compute; reflexivity |]. split; [now left |].
    eexists. split; [vm_compute; reflexivity | discriminate].
Qed.

(** ** Exclusions of the generic extractors *)

(** A pattern that starts with [^] matches at the start only. *)
Lemma search_bol_later (ic : bool) (r : regex) (len : nat) (s : string) :
  forall idx c, search ic (rBol >> r) len idx (Some c) s = None.
Proof.
  induction s as [| c' s IH]; intros idx c; simpl.
  - reflexivity.
  - apply IH.
Qed.

(** [/^#/.test(href)] is [href.startsWith("#")]. *)
Lemma fragment_test (href : string) : test fragment_re href = starts_with "#" href.
Proof.
  unfold test, RegExp_test, RegExp_exec, fragment_re, re.
  cbn [global sticky orb source ignoreCase fst].
  destruct href as [| c s]; [reflexivity|].
  cbn -[Ascii.eqb Nat.sub String.length].
  destruct (Ascii.eqb "#" c); cbn -[Nat.sub String.length]; [reflexivity|].
  now rewrite search_bol_later.
Qed.

Lemma not_profile_link (link : Element) :
  InlineButton.is_profile_link link = false ->
  getAttribute link "data-hovercard-type" <> Some "user" /\
  getAttribute link "data-hovercard-type" <> Some "organization".
Proof.
  unfold InlineButton.is_profile_link.
  destruct (getAttribute link "data-hovercard-type") as [t|]; [| split; discriminate].
  intros H. apply orb_false_iff in H as [H1 H2].
  apply String.eqb_neq in H1, H2. split; congruence.
Qed.

Lemma generic_pushed_passed URLctor location doc cands n deny assets is_title
      (extra extra' : Element -> Prop) link href it :
  (forall l, extra l -> extra' l) ->
  In link (querySelectorAll doc cands) ->
  generic_pushed_for URLctor location n deny assets is_title extra link href it ->
  passed_exclusions URLctor location doc n extra' href it.
Proof.
  intros Hext Hq (Hattr & _ & Hx & u & Hu & Hg & ->).
  destruct Hg as (_ & Hcur & Hfrag & _ & _ & _ & Hlen & _).
  exists link, u. repeat split; auto; try lia.
  - unfold querySelectorAll in Hq. now apply filter_In in Hq as [Hq _].
  - now apply String.eqb_neq.
  - now rewrite <- fragment_test.
Qed.

(** The items keep the pairwise different [href] strings of their
    elements when the relation between element and item is relaxed. *)
Lemma from_distinct_hrefs_passed URLctor location doc cands n deny assets is_title
      (extra extra' : Element -> Prop) hrefs its :
  (forall l, extra l -> extra' l) ->
  from_distinct_hrefs
    (generic_pushed_for URLctor location n deny assets is_title extra)
    (fun link => In link (querySelectorAll doc cands)) hrefs its ->
  NoDup hrefs /\ Forall2 (passed_exclusions URLctor location doc n extra') hrefs its.
Proof.
  intros Hext [Hnd Hf]. split; [assumption|].
  eapply Forall2_impl_rel; [| exact Hf].
  intros href it (link & Hin & Hp). eapply generic_pushed_passed; eassumption.
Qed.

Lemma inline_generic_links_total URLctor location (links : list Element) :
  forall st, exists st', InlineButton.generic_links URLctor location st links = Normal st'.
Proof.
  induction links as [| link links IH]; simpl; intros st.
  - now exists st.
  - assert (exists st1, InlineButton.generic_link URLctor location st link = Normal st1)
      as [st1 ->].
    { unfold InlineButton.generic_link, new_URL.
      repeat match goal with
             | |- exists _, match ?c with _ => _ end = _ => destruct c
             | |- exists _, (if ?c then _ else _) = _ => destruct c
             end; eexists; reflexivity. }
    simpl. apply IH.
Qed.

(** C7 (amended).  The items of [genericExtract] are pushed, one for
    one, for links of the document whose [href] attributes are pairwise
    different; none of these links has an [href] attribute that equals
    the path of the page or starts with [#], or a trimmed text of fewer
    than 3 or more than 300 characters.  In the copy with the inline
    button, moreover, none of them is marked as a user or organization
    profile.  In the copy that attaches buttons the shortest accepted
    title has 2 characters. *)
Theorem genericExtract_exclusions URLctor location doc :
  (exists its hrefs,
      genericExtract URLctor location doc = Normal its
      /\ NoDup hrefs
      /\ Forall2 (passed_exclusions URLctor location doc 3 (fun _ => True)) hrefs its)
  /\ (exists its hrefs,
      InlineButton.genericExtract URLctor location doc = Normal its
      /\ NoDup hrefs
      /\ Forall2 (passed_exclusions URLctor location doc 3
                    (fun link =>
                       getAttribute link "data-hovercard-type" <> Some "user" /\
                       getAttribute link "data-hovercard-type" <> Some "organization"))
                 hrefs its)
  /\ (forall its,
      AttachedButtons.genericExtract URLctor location doc = Normal its ->
      exists hrefs,
        NoDup hrefs
        /\ Forall2 (passed_exclusions URLctor location doc 2 (fun _ => True)) hrefs its).
Proof.
  repeat split.
  - destruct (genericExtract_total URLctor location doc) as [its H].
    destruct (genericExtract_provenance _ _ _ _ H) as (hrefs & Hp).
    exists its, hrefs. split; [assumption|].
    eapply from_distinct_hrefs_passed; [| exact Hp]. auto.
  - unfold InlineButton.genericExtract.
    destruct (inline_generic_links_total URLctor location
                (querySelectorAll doc generic_candidates) (mkGeneric [] [])) as [st Hst].
    destruct (inline_genericExtract_provenance URLctor location doc (g_items st))
      as (hrefs & Hp).
    { unfold InlineButton.genericExtract. now rewrite Hst. }
    exists (g_items st), hrefs. rewrite Hst. split; [reflexivity|].
    eapply from_distinct_hrefs_passed; [| exact Hp].
    apply not_profile_link.
  - intros its H.
    destruct (attached_genericExtract_provenance _ _ _ _ H) as (hrefs & Hp).
    exists hrefs.
    eapply from_distinct_hrefs_passed; [| exact Hp]. auto.
Qed.

(** In the copy that attaches buttons a title of two characters is
    collected. *)
Lemma genericExtract_exclusions_witness :
  exists hrefs,
    NoDup hrefs
    /\ Forall2 (passed_exclusions URL_new (at_path "/acme/widgets/tags" EmptyString)
                  short_title_page 2 (fun _ => True))
               hrefs
               [ mkItem "v2" "https://github.com/acme/widgets/releases/tag/v2" None ].
Proof.
  exact (proj2 (proj2 (genericExtract_exclusions URL_new
                         (at_path "/acme/widgets/tags" EmptyString) short_title_page))
               [ mkItem "v2" "https://github.com/acme/widgets/releases/tag/v2" None ]
               eq_refl).
Defined.

(** C7 as stated fails: on an issue list the generic extractor emits
    the pagination link, whose target has the path of the page itself,
    and the link to the profile of a user. *)
Lemma generic_emits_same_path_and_profile :
  let location := at_path "/acme/widgets/issues" EmptyString in
  exists its,
    genericExtract URL_new location pagination_and_author_page = Normal its
    /\ (exists it u,
           In it its /\ URL_new (url it) (loc_origin location) = Some u
           /\ url_pathname u = loc_pathname location)
    /\ (exists link href u,
           In link (elements [] pagination_and_author_page)
           /\ getAttribute link "data-hovercard-type" = Some "user"
           /\ getAttribute link "href" = Some href
           /\ URL_new href (loc_origin location) = Some u
           /\ In (mkItem (trim (textContent link)) (url_href u) (extractNumber href)) its).
Proof.
  cbv zeta. eexists. split; [vm_compute; reflexivity |]. split.
  - eexists. eexists. split; [right; right; now left |].
    split; vm_compute; reflexivity.
  - exists (mkElement "a" [("href", "/octocat"); ("data-hovercard-type", "user")]
                      [Text "octocat"]
                      [("div", [("class", "Box-row")]); ("body", []); ("html", [])]).
    eexists. eexists.
    split; [vm_compute; tauto |].
    split; [reflexivity |]. split; [reflexivity |].
    split; [vm_compute; reflexivity |].
    vm_compute. tauto.
Qed.

(** ** Number parsing *)

Lemma span_run (p : ascii -> bool) (id rest : string) :
  all_chars p id = true ->
  match rest with String c _ => p c = false | EmptyString => True end ->
  span p (id ++ rest) = (id, rest).
Proof.
  induction id as [| c id IH]; simpl; intros Hall Hrest.
  - destruct rest as [| c r]; simpl; [reflexivity|]. now rewrite Hrest.
  - apply andb_true_iff in Hall as [Hc Hall]. rewrite Hc, IH; auto.
Qed.

Lemma take_app (id rest : string) :
  take (String.length (id ++ rest) - String.length rest) (id ++ rest) = id.
Proof.
  assert (forall n, take (String.length id + n - n) (id ++ rest) = id) as H.
  { intros n. rewrite Nat.add_sub. induction id as [| c id IH]; simpl.
    - destruct rest; reflexivity.
    - now rewrite IH. }
  replace (String.length (id ++ rest)) with (String.length id + String.length rest).
  - apply H.
  - clear H. induction id; simpl; auto.
Qed.

Lemma lit_match_inv (l : string) :
  forall s prev p t, lit_match false l s prev = Some (p, t) -> s = (l ++ t)%string.
Proof.
  induction l as [| a l IH]; simpl; intros s prev p t.
  - now intros [= _ <-].
  - destruct s as [| c s]; [discriminate|]. unfold char_eq.
    destruct (Ascii.eqb a c) eqn:E; [| discriminate].
    apply Ascii.eqb_eq in E. subst. intros H. apply IH in H. now subst.
Qed.

Lemma digits_plus (t : string) :
  plus_match false is_digit t []
    (fun _ s' cs' => Some (s', (1, take (String.length t - String.length s') t) :: cs'))
  = let (id, rest) := span is_digit t in
    if is_empty id then None else Some (rest, [(1, id)]).
Proof.
  rewrite plus_match_span.
  - destruct (span is_digit t) as [id rest] eqn:Hs.
    destruct (is_empty id); [reflexivity|].
    apply span_inv in Hs as (-> & _ & _). now rewrite take_app.
  - discriminate.
  - reflexivity.
Qed.

Lemma lit_match_app (l t : string) (prev : option ascii) :
  exists p, lit_match false l (l ++ t) prev = Some (p, t).
Proof.
  revert prev. induction l as [| a l IH]; simpl; intros prev.
  - now exists prev.
  - unfold char_eq. rewrite Ascii.eqb_refl. apply IH.
Qed.

(** The digits at the start of [t], when there is at least one. *)
Lemma digits_found (t id rest : string) :
  (let (id', rest') := span is_digit t in
   if is_empty id' then None else Some (rest', [(1, id')])) = Some (rest, [(1, id)])
  <-> t = (id ++ rest)%string /\ id <> EmptyString /\ all_chars is_digit id = true
      /\ no_leading_digit rest.
Proof.
  split.
  - destruct (span is_digit t) as [id' rest'] eqn:Hs.
    destruct id' as [| d id']; simpl; [discriminate|].
    intros [= <- <-]. apply span_inv in Hs as (-> & Hall & Hrest).
    repeat split; auto. discriminate.
  - intros (-> & Hne & Hall & Hrest).
    rewrite span_run; auto. destruct id; [contradiction | reflexivity].
Qed.

Lemma match_here_number (prev : option ascii) (s rest : string) (caps : captures) :
  match_here false (source number_re) prev s = Some (rest, caps)
  <-> exists id, id_at s EmptyString id rest /\ caps = [(1, id)].
Proof.
  unfold match_here, number_re, re. cbn [source rmatch]. split.
  - destruct (lit_match false "/" s prev) as [[p1 s1]|] eqn:H1; [| discriminate].
    apply lit_match_inv in H1. subst s.
    unfold or_else.
    destruct (lit_match false "pull" s1 p1) as [[p2 s2]|] eqn:H2.
    + apply lit_match_inv in H2. subst s1.
      change (lit_match false "issues" ("pull" ++ s2) p1) with (@None (option ascii * string)).
      destruct (lit_match false "/" s2 p2) as [[p3 s3]|] eqn:H3; [| discriminate].
      apply lit_match_inv in H3. subst s2.
      rewrite digits_plus.
      destruct (span is_digit s3) as [id' rest'] eqn:Hs.
      destruct (is_empty id') eqn:He; [discriminate|].
      intros [= <- <-]. exists id'. split; [| reflexivity].
      exists "pull". split; [now left|].
      pose proof (proj1 (digits_found s3 id' rest')) as Hd. rewrite Hs, He in Hd.
      destruct (Hd eq_refl) as (-> & Hne & Hall & Hrest). repeat split; auto.
    + destruct (lit_match false "issues" s1 p1) as [[p2 s2]|] eqn:H2'; [| discriminate].
      apply lit_match_inv in H2'. subst s1.
      destruct (lit_match false "/" s2 p2) as [[p3 s3]|] eqn:H3; [| discriminate].
      apply lit_match_inv in H3. subst s2.
      rewrite digits_plus.
      destruct (span is_digit s3) as [id' rest'] eqn:Hs.
      destruct (is_empty id') eqn:He; [discriminate|].
      intros [= <- <-]. exists id'. split; [| reflexivity].
      exists "issues". split; [now right|].
      pose proof (proj1 (digits_found s3 id' rest')) as Hd. rewrite Hs, He in Hd.
      destruct (Hd eq_refl) as (-> & Hne & Hall & Hrest). repeat split; auto.
  - intros (id & (seg & Hseg & -> & Hne & Hall & Hrest) & ->).
    pose proof (proj2 (digits_found (id ++ rest) id rest)) as Hd.
    destruct Hseg as [-> | ->]; cbn -[plus_match span]; rewrite digits_plus;
      rewrite Hd; auto.
Qed.

Lemma id_at_cons (c : ascii) (s pre id rest : string) :
  id_at (String c s) (String c pre) id rest <-> id_at s pre id rest.
Proof.
  unfold id_at. split; intros (seg & Hseg & Heq & H); exists seg;
    (split; [assumption | split; [| assumption]]).
  - simpl in Heq. now injection Heq.
  - simpl. now rewrite Heq.
Qed.

Lemma id_at_split (s pre id rest : string) :
  id_at s pre id rest ->
  (pre = EmptyString /\ id_at s EmptyString id rest)
  \/ (exists c s' pre', s = String c s' /\ pre = String c pre' /\ id_at s' pre' id rest).
Proof.
  intros H. destruct pre as [| c pre'].
  - left. auto.
  - right. destruct H as (seg & Hseg & -> & H).
    exists c, (pre' ++ "/" ++ seg ++ "/" ++ id ++ rest)%string, pre'.
    repeat split. exists seg. auto.
Qed.

(** The search returns the leftmost segment followed by digits, with
    the digits as its first group, and fails only when there is none. *)
Lemma search_number (len : nat) (s : string) :
  forall idx prev,
    match search false (source number_re) len idx prev s with
    | Some m =>
        exists pre id rest,
          id_at s pre id rest /\ m_groups m = [(1, id)] /\
          (forall pre' id' rest',
              id_at s pre' id' rest' -> String.length pre <= String.length pre')
    | None => forall pre id rest, ~ id_at s pre id rest
    end.
Proof.
  induction s as [| c s IH]; intros idx prev; cbn [search].
  - destruct (match_here false (source number_re) prev EmptyString) as [[rest caps]|] eqn:Hm.
    + apply match_here_number in Hm as (id & Hid & ->).
      exists EmptyString, id, rest. repeat split; auto. intros. simpl. lia.
    + intros pre id rest (seg & _ & Heq & _).
      destruct pre; discriminate Heq.
  - destruct (match_here false (source number_re) prev (String c s)) as [[rest caps]|] eqn:Hm.
    + apply match_here_number in Hm as (id & Hid & ->).
      exists EmptyString, id, rest. repeat split; auto. intros. simpl. lia.
    + assert (forall id rest, ~ id_at (String c s) EmptyString id rest) as Hnot.
      { intros id rest Hid.
        assert (match_here false (source number_re) prev (String c s)
                = Some (rest, [(1, id)])) as E
            by (apply match_here_number; exists id; auto).
        congruence. }
      specialize (IH (S idx) (Some c)).
      destruct (search false (source number_re) len (S idx) (Some c) s) as [m|].
      * destruct IH as (pre & id & rest & Hid & Hg & Hleft).
        exists (String c pre), id, rest. repeat split; auto.
        -- now apply id_at_cons.
        -- intros pre' id' rest' H'.
           apply id_at_split in H' as [[-> H'] | (c' & s' & pre'' & [= <- <-] & -> & H')].
           ++ now apply Hnot in H'.
           ++ simpl. apply Hleft in H'. lia.
      * intros pre id rest H'.
        apply id_at_split in H' as [[-> H'] | (c' & s' & pre'' & [= <- <-] & -> & H')].
        -- now apply Hnot in H'.
        -- now apply IH in H'.
Qed.

(** [extractNumber] on the raw [href] string. *)
Lemma extractNumber_spec (href : string) : number_from href (extractNumber href).
Proof.
  unfold extractNumber, String_match, RegExp_exec, number_re, re.
  cbn [global sticky orb ignoreCase fst].
  pose proof (search_number (String.length href) href 0 None) as H.
  unfold number_re, re in H. cbn [source] in *.
  destruct (search false _ (String.length href) 0 None href) as [m|]; [| exact H].
  destruct H as (pre & id & rest & Hid & -> & Hleft). cbn [capture Nat.eqb number_from].
  exists pre, id, rest. auto.
Qed.

(** The number of every item returned by [extractLinks], and likewise
    by [genericExtract], is parsed from the [href] attribute string of
    its link: when the string contains a [/pull/] or [/issues/] segment
    followed by digits, [number] is [#] followed by the digits after
    the leftmost such segment; otherwise it is [null]. *)
Lemma number_parsed_from_href URLctor location doc its :
  (exists selectors hrefPattern,
      extractLinks URLctor location doc selectors hrefPattern = Normal its)
  \/ genericExtract URLctor location doc = Normal its ->
  exists hrefs,
    Forall2 (fun href it =>
               resolved_from URLctor location doc href it
               /\ number_from href (number it)) hrefs its.
Proof.
  intros [(selectors & pat & H) | H].
  - destruct (extractLinks_provenance _ _ _ _ _ _ H) as (hrefs & _ & Hf).
    exists hrefs. eapply Forall2_impl_rel; [| exact Hf].
    intros href it (link & Hsel & Hp). split.
    + eapply pushed_resolved; eassumption.
    + destruct Hp as (_ & _ & _ & u & _ & ->). apply extractNumber_spec.
  - destruct (genericExtract_provenance _ _ _ _ H) as (hrefs & _ & Hf).
    exists hrefs. eapply Forall2_impl_rel; [| exact Hf].
    intros href it (link & Hsel & Hp). split.
    + eapply generic_pushed_resolved; eassumption.
    + destruct Hp as (_ & _ & _ & u & _ & _ & ->). apply extractNumber_spec.
Qed.

(** C6 (the code departs from it).  On a commit list, the link with the
    [href] [/acme/widgets/commit/abc123?from=/acme/widgets/pull/5]
    resolves to the path [/acme/widgets/commit/abc123], which has no
    pull-request or issue segment; the commits extractor and
    [extractItems] give its item the number [#5] all the same, because
    [extractLinks] hands the attribute string to [extractNumber].  The
    click handler of the copy button, which the same link gets, reads
    the number from the resolved path, as the claim says, and finds
    none. *)
Theorem number_read_from_query_string :
  let location := at_path "/acme/widgets/commits/main" EmptyString in
  let href := "/acme/widgets/commit/abc123?from=/acme/widgets/pull/5" in
  let url := "https://github.com/acme/widgets/commit/abc123?from=/acme/widgets/pull/5" in
  In commit_link (elements [] commit_link_page)
  /\ getAttribute commit_link "href" = Some href
  /\ option_map url_pathname (URL_new href (loc_origin location))
     = Some "/acme/widgets/commit/abc123"
  /\ (forall pre id rest, ~ id_at "/acme/widgets/commit/abc123" pre id rest)
  /\ commits URL_new location commit_link_page = Normal [mkItem "Fix typo" url (Some "#5")]
  /\ option_map items
       (match fst (extractItems URL_new location PAGE_RULES commit_link_page) with
        | Normal r => Some r
        | Throw _ => None
        end)
     = Some [mkItem "Fix typo" url (Some "#5")]
  /\ isCopyableLink URL_new location commit_link = true
  /\ copy_click URL_new URL_new1 location commit_link = Normal (None, "Fix typo", url).
Proof.
  cbv zeta. repeat split; try (vm_compute; tauto).
  exact (extractNumber_spec "/acme/widgets/commit/abc123").
Qed.

(* ================================================================== *)
(** * Further properties of the engine *)
(* ================================================================== *)

(** ** Titles *)

Lemma trim_start_no_leading (s : string) : no_leading_space (trim_start s).
Proof.
  induction s as [| c s IH]; simpl; [exact I|].
  destruct (is_space c) eqn:E; [exact IH | exact E].
Qed.

Lemma trim_start_fixed (s : string) : no_leading_space s -> trim_start s = s.
Proof.
  destruct s as [| c s]; simpl; [reflexivity|]. now intros ->.
Qed.

Lemma trim_end_no_leading (s : string) : no_leading_space s -> no_leading_space (trim_end s).
Proof.
  destruct s as [| c s]; simpl; [auto|]. intros Hc.
  destruct (trim_end s); [rewrite Hc |]; exact Hc.
Qed.

Lemma trim_end_cons (c : ascii) (s : string) :
  trim_end (String c s)
  = match trim_end s with
    | EmptyString => if is_space c then EmptyString else String c EmptyString
    | String d t => String c (String d t)
    end.
Proof. reflexivity. Qed.

Lemma trim_end_idempotent (s : string) : trim_end (trim_end s) = trim_end s.
Proof.
  induction s as [| c s IH]; [reflexivity|].
  rewrite trim_end_cons.
  destruct (trim_end s) as [| d t] eqn:E.
  - destruct (is_space c) eqn:Hc; [reflexivity|].
    rewrite trim_end_cons. simpl. now rewrite Hc.
  - rewrite trim_end_cons, IH. reflexivity.
Qed.

(** [trim] leaves a trimmed string as it is. *)
Lemma trim_idempotent (s : string) : trim (trim s) = trim s.
Proof.
  unfold trim.
  rewrite (trim_start_fixed (trim_end (trim_start s))).
  - apply trim_end_idempotent.
  - apply trim_end_no_leading, trim_start_no_leading.
Qed.

(** X1.  Every item returned by [extractLinks] and by [genericExtract]
    has a title that is not empty and that is already trimmed: it has
    no white space at either end. *)
Theorem titles_are_trimmed URLctor location doc its :
  (exists selectors hrefPattern,
      extractLinks URLctor location doc selectors hrefPattern = Normal its)
  \/ genericExtract URLctor location doc = Normal its ->
  Forall (fun it => is_empty (title it) = false /\ trim (title it) = title it) its.
Proof.
  intros [(selectors & pat & H) | H].
  - destruct (extractLinks_provenance _ _ _ _ _ _ H) as (hrefs & _ & Hf).
    eapply Forall2_Forall_right; [| exact Hf].
    intros href it _ (link & _ & _ & _ & Ht & u & _ & ->). simpl.
    split; [exact Ht | apply trim_idempotent].
  - destruct (genericExtract_provenance _ _ _ _ H) as (hrefs & _ & Hf).
    eapply Forall2_Forall_right; [| exact Hf].
    intros href it _ (link & _ & _ & _ & _ & u & _ & Hg & ->). simpl.
    split; [| apply trim_idempotent].
    destruct Hg as (_ & _ & _ & _ & _ & _ & Hlen & _).
    apply is_empty_false_length. lia.
Qed.

(** A row whose link text is padded with white space. *)
Lemma titles_are_trimmed_witness :
  Forall (fun it => is_empty (title it) = false /\ trim (title it) = title it)
         [ mkItem "Fix bug" "https://github.com/acme/widgets/pull/1" (Some "#1") ].
Proof.
  exact (titles_are_trimmed URL_new (at_path "/acme/widgets/pulls" EmptyString)
           padded_title_page _
           (or_introl (ex_intro _ issueOrPr_selectors
                         (ex_intro _ (Some issueOrPr_pattern) eq_refl)))).
Defined.

(** ** Nothing selected is lost *)

Section CollectorGrowth.

Variable URLctor : string -> string -> option URL.
Variable location : Location.
Variable pat : option RegExp.
Hypothesis pat_kept : keeps_pattern pat.

(** One step keeps the pattern object and only adds to [seen]. *)
Lemma collect_link_grows (st st' : Collector) (link : Element) :
  pattern_obj st = pat ->
  collect_link URLctor location st link = Normal st' ->
  pattern_obj st' = pat /\ incl (seen st) (seen st').
Proof.
  intros Hp. unfold collect_link.
  destruct (getAttribute link "href") as [href|];
    [| intros [= <-]; split; [assumption | apply incl_refl]].
  destruct (is_empty href || mem href (seen st));
    [intros [= <-]; split; [assumption | apply incl_refl] |].
  pose proof (rejected_by_keeps (pattern_obj st) href) as Hk.
  rewrite Hp in Hk. specialize (Hk pat_kept). rewrite <- Hp in Hk at 1.
  destruct (rejected_by (pattern_obj st) href) as [skip pat']. simpl in Hk. subst pat'.
  destruct skip; [intros [= <-]; split; [reflexivity | apply incl_refl] |].
  destruct (is_empty (trim (textContent link)));
    [intros [= <-]; split; [reflexivity | apply incl_refl] |].
  destruct (new_URL URLctor location href) as [u|e]; simpl; [| discriminate].
  intros [= <-]. simpl. split; [reflexivity | apply incl_appl, incl_refl].
Qed.

(** After the step for a link that passes the filter and has a title,
    its [href] is in [seen]. *)
Lemma collect_link_sees (st st' : Collector) (link : Element) (href : string) :
  pattern_obj st = pat ->
  getAttribute link "href" = Some href ->
  is_empty href = false ->
  is_empty (trim (textContent link)) = false ->
  accepts pat href ->
  collect_link URLctor location st link = Normal st' ->
  In href (seen st').
Proof.
  intros Hp Hattr Hne Ht Hacc. unfold collect_link. rewrite Hattr, Hne. simpl.
  destruct (mem href (seen st)) eqn:Hseen; [intros [= <-]; now apply mem_In |].
  rewrite Hp, (accepts_not_rejected _ _ Hacc), Ht.
  destruct (new_URL URLctor location href) as [u|e]; simpl; [| discriminate].
  intros [= <-]. simpl. apply in_or_app. right. now left.
Qed.

Lemma collect_links_grows (links : list Element) :
  forall st st', pattern_obj st = pat ->
  collect_links URLctor location st links = Normal st' ->
  pattern_obj st' = pat /\ incl (seen st) (seen st').
Proof.
  induction links as [| link links IH]; simpl; intros st st' Hp.
  - intros [= <-]. split; [assumption | apply incl_refl].
  - destruct (collect_link URLctor location st link) as [st1|e] eqn:H1; simpl;
      [| discriminate].
    intros H2. destruct (collect_link_grows _ _ _ Hp H1) as [Hp1 Hi1].
    destruct (IH _ _ Hp1 H2) as [Hp2 Hi2].
    split; [assumption | eapply incl_tran; eassumption].
Qed.

Lemma collect_links_sees (links : list Element) (link : Element) (href : string) :
  getAttribute link "href" = Some href ->
  is_empty href = false ->
  is_empty (trim (textContent link)) = false ->
  accepts pat href ->
  forall st st', pattern_obj st = pat -> In link links ->
  collect_links URLctor location st links = Normal st' ->
  In href (seen st').
Proof.
  intros Hattr Hne Ht Hacc.
  induction links as [| l links IH]; simpl; intros st st' Hp Hin; [contradiction|].
  destruct (collect_link URLctor location st l) as [st1|e] eqn:H1; simpl; [| discriminate].
  intros H2. destruct (collect_link_grows _ _ _ Hp H1) as [Hp1 _].
  destruct Hin as [-> | Hin].
  - destruct (collect_links_grows _ _ _ Hp1 H2) as [_ Hi].
    apply Hi. eapply (collect_link_sees st st1); eassumption.
  - eapply IH; eassumption.
Qed.

Lemma collect_selectors_grows (doc : Node) (selectors : list Selector) :
  forall st st', pattern_obj st = pat ->
  collect_selectors URLctor location doc st selectors = Normal st' ->
  pattern_obj st' = pat /\ incl (seen st) (seen st').
Proof.
  induction selectors as [| selector selectors IH]; simpl; intros st st' Hp.
  - intros [= <-]. split; [assumption | apply incl_refl].
  - destruct (collect_links URLctor location st (querySelectorAll doc selector))
      as [st1|e] eqn:H1; simpl; [| discriminate].
    intros H2. destruct (collect_links_grows _ _ _ Hp H1) as [Hp1 Hi1].
    destruct (IH _ _ Hp1 H2) as [Hp2 Hi2].
    split; [assumption | eapply incl_tran; eassumption].
Qed.

Lemma collect_selectors_sees (doc : Node) (selectors : list Selector)
      (link : Element) (href : string) :
  getAttribute link "href" = Some href ->
  is_empty href = false ->
  is_empty (trim (textContent link)) = false ->
  accepts pat href ->
  forall st st', pattern_obj st = pat -> selected_by doc selectors link ->
  collect_selectors URLctor location doc st selectors = Normal st' ->
  In href (seen st').
Proof.
  intros Hattr Hne Ht Hacc.
  induction selectors as [| selector selectors IH]; simpl; intros st st' Hp Hsel.
  - destruct Hsel as (s & [] & _).
  - destruct (collect_links URLctor location st (querySelectorAll doc selector))
      as [st1|e] eqn:H1; simpl; [| discriminate].
    intros H2. destruct (collect_links_grows _ _ _ Hp H1) as [Hp1 _].
    destruct Hsel as (s & [<- | Hin] & Hq).
    + destruct (collect_selectors_grows _ _ _ _ Hp1 H2) as [_ Hi].
      apply Hi. eapply (collect_links_sees _ link href Hattr Hne Ht Hacc st st1); eassumption.
    + eapply IH; [exact Hp1 | exists s; auto | exact H2].
Qed.

End CollectorGrowth.

Lemma Forall2_in_left {A B} (R : A -> B -> Prop) (l : list A) (l' : list B) (a : A) :
  Forall2 R l l' -> In a l -> exists b, In b l' /\ R a b.
Proof.
  induction 1 as [| a' b l l' Hab _ IH]; simpl; [intros []|].
  intros [<- | Hin].
  - exists b. auto.
  - destruct (IH Hin) as (b' & Hb' & HR). exists b'. auto.
Qed.

Lemma accepts_keeps (pat : option RegExp) (href : string) :
  accepts pat href -> keeps_pattern pat.
Proof. destruct pat; simpl; tauto. Qed.

(** X2.  [extractLinks] loses no link: when it returns, every element
    selected by one of its selectors that has a non-empty [href], a
    non-empty trimmed text and an [href] the filter lets through is
    represented in the result by an item with the URL and the number of
    that [href] (its own item, or the item of an earlier link with the
    same [href]). *)
Theorem extractLinks_complete URLctor location doc selectors hrefPattern its link href :
  extractLinks URLctor location doc selectors hrefPattern = Normal its ->
  selected_by doc selectors link ->
  getAttribute link "href" = Some href ->
  is_empty href = false ->
  is_empty (trim (textContent link)) = false ->
  accepts hrefPattern href ->
  exists it u,
    In it its /\ URLctor href (loc_origin location) = Some u /\
    url it = url_href u /\ number it = extractNumber href.
Proof.
  intros H Hsel Hattr Hne Ht Hacc. unfold extractLinks in H.
  destruct (collect_selectors URLctor location doc (mkCollector [] [] hrefPattern) selectors)
    as [st|e] eqn:Hrun; simpl in H; [| discriminate].
  injection H as <-.
  assert (In href (seen st)) as Hin.
  { eapply collect_selectors_sees with (pat := hrefPattern); try eassumption.
    - eapply accepts_keeps; eassumption.
    - reflexivity. }
  assert (from_distinct_hrefs (pushed_for URLctor location) (selected_by doc selectors)
            (seen st) (collected st)) as [_ Hf].
  { eapply collect_selectors_inv with (pool := selected_by doc selectors);
      [| | exact Hrun]; [split; simpl; constructor | auto]. }
  destruct (Forall2_in_left _ _ _ _ Hf Hin) as (it & Hit & link' & _ & Hp).
  destruct Hp as (_ & _ & _ & u & Hu & ->).
  exists (mkItem (trim (textContent link')) (url_href u) (extractNumber href)), u. auto.
Qed.

(** The third row of scenario A, which repeats the [href] of the first
    row, is represented by the item of the first row. *)
Lemma extractLinks_complete_witness :
  exists it u,
    In it [ mkItem "Fix bug" "https://github.com/acme/widgets/pull/1" (Some "#1");
            mkItem "Add feature" "https://github.com/acme/widgets/pull/2" (Some "#2") ]
    /\ URL_new "/acme/widgets/pull/1" github = Some u
    /\ url it = url_href u /\ number it = extractNumber "/acme/widgets/pull/1".
Proof.
  apply (extractLinks_complete URL_new (at_path "/acme/widgets/pulls" EmptyString)
           repeated_row_page issueOrPr_selectors (Some issueOrPr_pattern) _
           (issue_row_link "/acme/widgets/pull/1" "Fix bug")).
  - reflexivity.
  - exists (sel [[sClass "js-issue-row"]; [sClass "Link--primary"]]). split.
    + simpl. tauto.
    + vm_compute. tauto.
  - reflexivity.
  - reflexivity.
  - reflexivity.
  - repeat split.
Defined.

(** ** The retry over all extractors *)



(** ** The classifier and the table of extractors *)

Lemma PAGE_RULES_registered URLctor location :
  Forall (fun rule =>
            match rule_type rule with
            | Some t => is_empty t = false
                        /\ exists extractor,
                             lookup_extractor t (EXTRACTORS URLctor location) = Some extractor
            | None => True
            end) PAGE_RULES.
Proof.
  unfold PAGE_RULES.
  repeat constructor; cbn [rule_type]; eexists; reflexivity.
Qed.

(** X4.  Every page type that [detectPage] can return is [null] or the
    key of an extractor of [EXTRACTORS]: the lookup
    [EXTRACTORS[page.type]] of [extractItems] never misses. *)
Theorem detectPage_type_registered URLctor location :
  match page_type (fst (detectPage location PAGE_RULES)) with
  | Some t => is_empty t = false
              /\ exists extractor,
                   lookup_extractor t (EXTRACTORS URLctor location) = Some extractor
  | None => True
  end.
Proof.
  unfold detectPage.
  destruct (first_rule_spec (loc_pathname location ++ loc_search location) PAGE_RULES)
    as [(before & rule & after & Heq & _ & _ & Hf) | [_ Hf]];
    destruct (first_rule _ PAGE_RULES) as [found rules']; simpl in *; subst found;
    [| exact I].
  cbn [page_type].
  pose proof (PAGE_RULES_registered URLctor location) as H. rewrite Forall_forall in H.
  apply H. rewrite Heq. apply in_elt.
Qed.

(** ** The repo context *)

Lemma not_slash_false (c : ascii) : not_slash c = false -> c = "/"%char.
Proof.
  unfold not_slash. intros H. apply negb_false_iff in H. now apply Ascii.eqb_eq in H.
Qed.

Lemma slash_group2 (t : string) (cs : captures) :
  plus_match false not_slash t cs
    (fun _ s' cs' => Some (s', (2, take (String.length t - String.length s') t) :: cs'))
  = let (r, rest) := span not_slash t in
    if is_empty r then None else Some (rest, (2, r) :: cs).
Proof.
  rewrite plus_match_span.
  - destruct (span not_slash t) as [r rest] eqn:Hs.
    destruct (is_empty r); [reflexivity|].
    apply span_inv in Hs as (-> & _ & _). now rewrite take_app.
  - discriminate.
  - reflexivity.
Qed.

Lemma context_groups (path : string) :
  option_map m_groups (String_match path context_re)
  = let (o, r) := leading_segments path in
    if is_empty o then None
    else Some (if is_empty r then [(1, o)] else [(2, r); (1, o)]).
Proof.
  unfold String_match, RegExp_exec, context_re, re.
  cbn [global sticky orb ignoreCase source fst].
  destruct path as [| c t]; [reflexivity|].
  unfold leading_segments.
  cbn [search]. unfold match_here. cbn [rmatch lit_match].
  unfold char_eq.
  destruct (Ascii.eqb "/" c) eqn:Ec.
  2:{ cbn [is_empty]. rewrite search_bol_later. reflexivity. }
  cbn [lit_match].
  rewrite plus_match_span.
  - destruct (span not_slash t) as [o rest] eqn:Hs.
    destruct (is_empty o) eqn:Ho.
    + cbn [is_empty]. rewrite search_bol_later. reflexivity.
    + pose proof (span_inv _ _ _ _ Hs) as (Ht & _ & Hrest). subst t.
      rewrite take_app.
      destruct rest as [| c0 s'].
      * cbn. rewrite Ho. reflexivity.
      * apply not_slash_false in Hrest. subst c0. cbn [Ascii.eqb Bool.eqb].
        change (("/" =? "/")%char) with true. cbv iota.
        rewrite slash_group2.
        destruct (span not_slash s') as [r rest2]. cbn [fst].
        rewrite Ho. destruct (is_empty r); reflexivity.
  - intros a b cs H. unfold or_else in H.
    destruct (match lit_match false "/" b a with Some _ => _ | None => _ end); discriminate.
  - intros a a' b cs. destruct b as [| c0 b]; reflexivity.
Qed.

(** [getContextInfo] in terms of the leading segments of the path. *)
Lemma getContextInfo_segments (location : Location) :
  getContextInfo location
  = let (o, r) := leading_segments (loc_pathname location) in mkRepo o r.
Proof.
  unfold getContextInfo.
  pose proof (context_groups (loc_pathname location)) as H.
  destruct (String_match (loc_pathname location) context_re) as [m|];
    destruct (leading_segments (loc_pathname location)) as [o r] eqn:Hl; simpl in H.
  - destruct (is_empty o) eqn:Ho; [discriminate|]. injection H as ->.
    destruct (is_empty r) eqn:Hr; cbn.
    + destruct r; [reflexivity | discriminate].
    + reflexivity.
  - destruct (is_empty o) eqn:Ho; [| discriminate].
    destruct o; [| discriminate].
    unfold leading_segments in Hl.
    destruct (loc_pathname location) as [| c t]; [now injection Hl as <- |].
    destruct (Ascii.eqb "/" c); [| now injection Hl as <-].
    destruct (span not_slash t) as [f rest].
    destruct (is_empty f) eqn:Hf; [now injection Hl as <- |].
    destruct rest; injection Hl as -> _; discriminate.
Qed.

Lemma at_segment_end_span (rest : string) :
  at_segment_end rest <->
  match rest with String c _ => not_slash c = false | EmptyString => True end.
Proof.
  destruct rest as [| c rest]; simpl; [tauto|]. split.
  - now intros ->.
  - apply not_slash_false.
Qed.

(** X5.  The repo context that [getContextInfo] returns is decided by
    the path.  Both names are empty exactly when the path does not
    start with [/] followed by a character other than [/].  Otherwise
    the owner is the first segment, and the repo is empty when the path
    ends there, else the second segment (possibly empty), each up to
    the next [/].  Neither name ever contains a [/]. *)
Theorem getContextInfo_shape (location : Location) :
  let ctx := getContextInfo location in
  let path := loc_pathname location in
  (no_first_segment path /\ owner ctx = EmptyString /\ repo ctx = EmptyString)
  \/ (is_empty (owner ctx) = false /\ all_chars not_slash (owner ctx) = true
      /\ repo ctx = EmptyString /\ path = ("/" ++ owner ctx)%string)
  \/ (is_empty (owner ctx) = false /\ all_chars not_slash (owner ctx) = true
      /\ all_chars not_slash (repo ctx) = true
      /\ exists rest, path = ("/" ++ owner ctx ++ "/" ++ repo ctx ++ rest)%string
                      /\ at_segment_end rest).
Proof.
  cbv zeta. rewrite getContextInfo_segments. unfold leading_segments.
  destruct (loc_pathname location) as [| c t];
    [left; repeat split; intros ? ? [=] |].
  destruct (Ascii.eqb "/" c) eqn:Ec.
  2:{ left. repeat split. intros c' t' [= -> _]. discriminate Ec. }
  apply Ascii.eqb_eq in Ec. subst c.
  destruct (span not_slash t) as [o rest] eqn:Hs.
  destruct (is_empty o) eqn:Ho.
  { left. repeat split. intros c' t' [= ->].
    destruct o; [| discriminate Ho].
    cbn [span] in Hs. destruct (not_slash c') eqn:Hc.
    - destruct (span not_slash t'). discriminate Hs.
    - now apply not_slash_false. }
  apply span_inv in Hs as (-> & Hall & Hrest).
  destruct rest as [| c0 t2]; cbn [owner repo].
  - right. left. repeat split; auto.
    simpl. f_equal. clear. induction o; simpl; congruence.
  - right. right. apply not_slash_false in Hrest. subst c0.
    destruct (span not_slash t2) as [r rest2] eqn:Hs2. cbn [fst].
    apply span_inv in Hs2 as (-> & Hall2 & Hrest2).
    repeat split; auto. exists rest2. split; [reflexivity|].
    now apply at_segment_end_span.
Qed.

(** X6.  On a path that starts with [/owner/repo], where both names
    are non-empty and free of [/] and the repo name ends the path or is
    followed by [/], [getContextInfo] returns that owner and that
    repo. *)
Theorem getContextInfo_owner_repo (location : Location) (o r rest : string) :
  is_empty o = false -> all_chars not_slash o = true ->
  is_empty r = false -> all_chars not_slash r = true ->
  at_segment_end rest ->
  loc_pathname location = ("/" ++ o ++ "/" ++ r ++ rest)%string ->
  getContextInfo location = mkRepo o r.
Proof.
  intros Ho Hao Hr Har Hrest Hp.
  rewrite getContextInfo_segments, Hp.
  change ("/" ++ o ++ "/" ++ r ++ rest)%string
    with (String "/" (o ++ String "/" (r ++ rest))).
  unfold leading_segments. change (Ascii.eqb "/" "/") with true. cbv iota.
  rewrite (span_run not_slash o (String "/" (r ++ rest))) by (auto; reflexivity).
  rewrite Ho.
  rewrite (span_run not_slash r rest); [reflexivity | assumption |].
  now apply at_segment_end_span.
Qed.

Lemma getContextInfo_owner_repo_witness :
  getContextInfo (at_path "/acme/widgets/pulls" "?q=is%3Aopen") = mkRepo "acme" "widgets".
Proof.
  apply (getContextInfo_owner_repo (at_path "/acme/widgets/pulls" "?q=is%3Aopen")
           "acme" "widgets" "/pulls"); reflexivity.
Defined.

(* ================================================================== *)
(** * Properties of the hover copy button *)
(* ================================================================== *)

Lemma found_or_else {A} (x y : option A) : found (or_else x y) = found x || found y.
Proof. destruct x, y; reflexivity. Qed.

(** A pattern that starts with [^] is tried at the start only. *)
Lemma search_bol (ic : bool) (r : regex) (len idx : nat) (s : string) :
  found (search ic (rBol >> r) len idx None s)
  = found (match_here ic (rBol >> r) None s).
Proof.
  destruct s as [| c s]; cbn [search].
  - destruct (match_here ic (rBol >> r) None EmptyString) as [[? ?]|]; reflexivity.
  - destruct (match_here ic (rBol >> r) None (String c s)) as [[? ?]|]; [reflexivity|].
    now rewrite search_bol_later.
Qed.

Lemma one_of_cons {A} (ic : bool) (l : string) (alts : list string)
      (prev : option ascii) (s : string) (cs : captures) (k : cont A) :
  found (rmatch ic (one_of (l :: alts)) prev s cs k)
  = found (rmatch ic (rLit l) prev s cs k) || found (rmatch ic (one_of alts) prev s cs k).
Proof.
  destruct alts as [| l' alts].
  - cbn [one_of]. rewrite orb_comm.
    replace (found (rmatch ic (rClass (fun _ => false)) prev s cs k)) with false;
      [reflexivity|].
    cbn [rmatch]. destruct s as [| c s]; [reflexivity|].
    unfold class_test. destruct ic; reflexivity.
  - change (one_of (l :: l' :: alts)) with (rAlt (rLit l) (one_of (l' :: alts))).
    cbn [rmatch]. apply found_or_else.
Qed.

(** An alternation over two lists of literals matches when the
    alternation over one of them does. *)
Lemma one_of_app {A} (ic : bool) (alts1 alts2 : list string)
      (prev : option ascii) (s : string) (cs : captures) (k : cont A) :
  found (rmatch ic (one_of (alts1 ++ alts2)) prev s cs k)
  = found (rmatch ic (one_of alts1) prev s cs k)
    || found (rmatch ic (one_of alts2) prev s cs k).
Proof.
  induction alts1 as [| l alts1 IH].
  - cbn [app]. symmetry.
    replace (found (rmatch ic (one_of []) prev s cs k)) with false; [reflexivity|].
    cbn [one_of rmatch]. destruct s as [| c s]; [reflexivity|].
    unfold class_test. destruct ic; reflexivity.
  - cbn [app]. rewrite !one_of_cons, IH. now rewrite orb_assoc.
Qed.

(** The two route patterns of [SKIP_PATTERNS] together are the denylist
    of [genericExtract]. *)
Lemma route_patterns_split (alts1 alts2 : list string) (path : string) :
  test (re (rBol >> rLit "/" >> rGroup 1 (one_of (alts1 ++ alts2)) >> rWordB)) path
  = test (re (rBol >> rLit "/" >> rGroup 1 (one_of alts1) >> rWordB)) path
    || test (re (rBol >> rLit "/" >> rGroup 1 (one_of alts2) >> rWordB)) path.
Proof.
  unfold re. rewrite !test_search, !search_bol.
  unfold match_here. cbn [rmatch].
  destruct (lit_match false "/" path None) as [[p1 s1]|]; [| reflexivity].
  apply one_of_app.
Qed.

(** X7.  The hover button and the generic extractor leave out the same
    paths: a path matches one of [SKIP_PATTERNS] exactly when it matches
    the route denylist or the asset pattern of [genericExtract]. *)
Theorem skip_patterns_are_generic_exclusions (path : string) :
  some_test SKIP_PATTERNS path = test denylist_re path || test asset_re path.
Proof.
  unfold some_test, SKIP_PATTERNS. cbn [existsb]. rewrite orb_false_r, orb_assoc.
  f_equal. unfold denylist_re.
  exact (eq_sym (route_patterns_split
                   ["settings"; "login"; "signup"; "features"; "pricing";
                    "enterprise"; "sponsors"; "about"; "security"]
                   ["notifications"; "new"; "codespaces"] path)).
Qed.

Lemma digits_after_segment (seg : string) (prev : option ascii) (id rest : string) :
  id <> EmptyString -> all_chars is_digit id = true -> no_leading_digit rest ->
  found (match_here false (rLit seg >> rPlus is_digit) prev (seg ++ id ++ rest)) = true.
Proof.
  intros Hne Hall Hrest. unfold match_here. cbn [rmatch].
  destruct (lit_match_app seg (id ++ rest) prev) as [p ->].
  rewrite plus_match_span; [| discriminate | reflexivity].
  rewrite span_run by assumption.
  destruct id; [contradiction | reflexivity].
Qed.

(** A path from which [extractNumber] reads a number matches one of
    [COPYABLE_PATTERNS]. *)
Lemma numbered_paths_are_copyable (path label : string) :
  extractNumber path = Some label -> some_test COPYABLE_PATTERNS path = true.
Proof.
  intros H. pose proof (extractNumber_spec path) as Hn. rewrite H in Hn.
  destruct Hn as (pre & id & rest & (seg & Hseg & -> & Hne & Hall & Hrest) & _ & _).
  unfold some_test, COPYABLE_PATTERNS. cbn [existsb]. unfold re.
  rewrite !test_search.
  destruct Hseg as [-> | ->].
  - replace (found (search false (rLit "/pull/" >> rPlus is_digit) _ 0 None _)) with true;
      [reflexivity|].
    symmetry. apply (search_finds false _ _ pre ("/pull/" ++ id ++ rest)).
    intros prev. now apply digits_after_segment.
  - replace (found (search false (rLit "/issues/" >> rPlus is_digit) _ 0 None _)) with true;
      [apply orb_true_r|].
    symmetry. apply (search_finds false _ _ pre ("/issues/" ++ id ++ rest)).
    intros prev. now apply digits_after_segment.
Qed.

(** X8.  The hover button is offered for every link to a pull request
    or an issue: a link whose [href] resolves to the origin of the
    page, to a path that carries a number for [extractNumber] and is
    not on the skip list, and whose trimmed text has 3 to 300
    characters, is copyable in both copies of the script, whatever its
    classes. *)
Theorem numbered_links_are_copyable URLctor location anchor href u label :
  getAttribute anchor "href" = Some href ->
  starts_with "#" href = false ->
  is_empty href = false ->
  URLctor href (loc_origin location) = Some u ->
  url_origin u = loc_origin location ->
  some_test SKIP_PATTERNS (url_pathname u) = false ->
  3 <= String.length (trim (textContent anchor)) <= 300 ->
  extractNumber (url_pathname u) = Some label ->
  isCopyableLink URLctor location anchor = true
  /\ InlineHover.isCopyableLink URLctor location anchor = true.
Proof.
  intros Hattr Hfrag Hne Hu Ho Hskip Hlen Hnum.
  assert (String.eqb href "#" = false) as Hhash.
  { destruct (String.eqb href "#") eqn:E; [| reflexivity].
    apply String.eqb_eq in E. subst. discriminate Hfrag. }
  assert (is_empty (trim (textContent anchor))
          || (String.length (trim (textContent anchor)) <? 3)
          || (300 <? String.length (trim (textContent anchor))) = false) as Hguard.
  { rewrite !orb_false_iff, !Nat.ltb_ge. repeat split; try lia.
    apply is_empty_false_length. lia. }
  unfold isCopyableLink, InlineHover.isCopyableLink, new_URL.
  rewrite Hattr, Hne, Hhash, Hfrag, Hu, Ho, String.eqb_refl. cbn [orb negb].
  rewrite Hskip, Hguard, (numbered_paths_are_copyable _ _ Hnum). auto.
Qed.

Lemma numbered_links_are_copyable_witness :
  isCopyableLink URL_new (at_path "/acme/widgets/pulls" EmptyString)
    (issue_row_link "/acme/widgets/pull/1" "Fix bug") = true
  /\ InlineHover.isCopyableLink URL_new (at_path "/acme/widgets/pulls" EmptyString)
       (issue_row_link "/acme/widgets/pull/1" "Fix bug") = true.
Proof.
  apply (numbered_links_are_copyable URL_new (at_path "/acme/widgets/pulls" EmptyString)
           (issue_row_link "/acme/widgets/pull/1" "Fix bug") "/acme/widgets/pull/1"
           (mkURL "https://github.com/acme/widgets/pull/1" "https://github.com"
                  "/acme/widgets/pull/1" EmptyString) "#1");
    try reflexivity.
  simpl. lia.
Defined.

(** X9.  The hover button is never offered for a link without [href],
    with a fragment [href], with an [href] that is not a valid URL or
    resolves to another origin, with a path on the skip list, or with a
    trimmed text shorter than 3 or longer than 300 characters.  A link
    whose path matches none of [COPYABLE_PATTERNS] needs a title marker
    and a text of 5 characters or more and, in the copy with the inline
    button, must not be a user or organization link. *)
Theorem isCopyableLink_guards URLctor location anchor :
  isCopyableLink URLctor location anchor = true
  \/ InlineHover.isCopyableLink URLctor location anchor = true ->
  exists href u,
    getAttribute anchor "href" = Some href
    /\ starts_with "#" href = false
    /\ URLctor href (loc_origin location) = Some u
    /\ url_origin u = loc_origin location
    /\ some_test SKIP_PATTERNS (url_pathname u) = false
    /\ 3 <= String.length (trim (textContent anchor)) <= 300
    /\ (some_test COPYABLE_PATTERNS (url_pathname u) = true
        \/ (has_title_marker anchor = true
            /\ 5 <= String.length (trim (textContent anchor))
            /\ (InlineHover.isCopyableLink URLctor location anchor = true ->
                InlineButton.is_profile_link anchor = false))).
Proof.
  unfold isCopyableLink, InlineHover.isCopyableLink, new_URL.
  destruct (getAttribute anchor "href") as [href|]; [| intros [H | H]; discriminate H].
  destruct (is_empty href || String.eqb href "#") eqn:E1; cbn [orb];
    [intros [H | H]; discriminate H |].
  destruct (starts_with "#" href) eqn:Hfrag; [intros [H | H]; discriminate H |].
  destruct (URLctor href (loc_origin location)) as [u|] eqn:Hu;
    [| intros [H | H]; discriminate H].
  destruct (String.eqb (url_origin u) (loc_origin location)) eqn:Ho; cbn [negb];
    [| intros [H | H]; discriminate H].
  destruct (some_test SKIP_PATTERNS (url_pathname u)) eqn:Hskip;
    [intros [H | H]; discriminate H |].
  destruct (is_empty (trim (textContent anchor))
            || (String.length (trim (textContent anchor)) <? 3)
            || (300 <? String.length (trim (textContent anchor)))) eqn:Hlen;
    [intros [H | H]; discriminate H |].
  apply title_length_guard in Hlen. apply String.eqb_eq in Ho.
  intros H. exists href, u.
  do 6 (split; [solve [auto | lia] |]).
  destruct (some_test COPYABLE_PATTERNS (url_pathname u)); [now left | right].
  destruct (InlineButton.is_profile_link anchor) eqn:Hp.
  - destruct H as [H | H]; [| discriminate H].
    destruct (has_title_marker anchor); [| discriminate H].
    apply Nat.leb_le in H. repeat split; auto.
  - destruct (has_title_marker anchor); [| destruct H as [H | H]; discriminate H].
    assert (5 <= String.length (trim (textContent anchor))) as H5
        by (destruct H as [H | H]; now apply Nat.leb_le in H).
    repeat split; auto.
Qed.

(** The link to the profile of an author: offered by the copy with the
    floating button (it has a hovercard marker and seven characters). *)
Lemma isCopyableLink_guards_witness :
  exists href u,
    getAttribute (mkElement "a" [("href", "/octocat"); ("data-hovercard-type", "user")]
                            [Text "octocat"] []) "href" = Some href
    /\ starts_with "#" href = false
    /\ URL_new href github = Some u
    /\ url_origin u = github
    /\ some_test SKIP_PATTERNS (url_pathname u) = false
    /\ 3 <= 7 <= 300
    /\ (some_test COPYABLE_PATTERNS (url_pathname u) = true
        \/ (true = true /\ 5 <= 7 /\ (false = true -> true = false))).
Proof.
  exact (isCopyableLink_guards URL_new (at_path "/acme/widgets/issues" EmptyString)
           (mkElement "a" [("href", "/octocat"); ("data-hovercard-type", "user")]
                      [Text "octocat"] [])
           (or_introl eq_refl)).
Defined.

(** ** Escaping *)

Lemma append_assoc (s1 s2 s3 : string) :
  (s1 ++ s2 ++ s3)%string = ((s1 ++ s2) ++ s3)%string.
Proof. induction s1 as [| c s1 IH]; simpl; congruence. Qed.

Lemma replace_all_app (c : ascii) (by_ s1 s2 : string) :
  replace_all c by_ (s1 ++ s2) = (replace_all c by_ s1 ++ replace_all c by_ s2)%string.
Proof.
  induction s1 as [| a s1 IH]; simpl; [reflexivity|].
  destruct (Ascii.eqb a c); rewrite IH; [| reflexivity].
  now rewrite append_assoc.
Qed.

Lemma replace_all_cons (c : ascii) (by_ : string) (a : ascii) (s : string) :
  replace_all c by_ (String a s)
  = ((if Ascii.eqb a c then by_ else String a EmptyString) ++ replace_all c by_ s)%string.
Proof. simpl. destruct (Ascii.eqb a c); reflexivity. Qed.

Lemma html_cons (c : ascii) (s : string) :
  escapeHtml (String c s) = (html_entity c ++ escapeHtml s)%string.
Proof.
  unfold escapeHtml, html_entity.
  rewrite (replace_all_cons "&"), (replace_all_app "<"), (replace_all_app ">"),
    (replace_all_app dquote).
  f_equal.
  destruct (Ascii.eqb c "&") eqn:E1; [reflexivity|].
  cbn [replace_all]. destruct (Ascii.eqb c "<") eqn:E2; [reflexivity|].
  cbn [replace_all]. destruct (Ascii.eqb c ">") eqn:E3; [reflexivity|].
  cbn [replace_all]. destruct (Ascii.eqb c dquote) eqn:E4; reflexivity.
Qed.

Lemma attr_cons (c : ascii) (s : string) :
  Popup.escapeAttr (String c s) = (attr_entity c ++ Popup.escapeAttr s)%string.
Proof.
  unfold Popup.escapeAttr, attr_entity.
  rewrite (replace_all_cons "&"), (replace_all_app dquote), (replace_all_app "'"),
    (replace_all_app "<"), (replace_all_app ">").
  f_equal.
  destruct (Ascii.eqb c "&") eqn:E1; [reflexivity|].
  cbn [replace_all]. destruct (Ascii.eqb c dquote) eqn:E2; [reflexivity|].
  cbn [replace_all]. destruct (Ascii.eqb c "'") eqn:E3; [reflexivity|].
  cbn [replace_all]. destruct (Ascii.eqb c "<") eqn:E4; [reflexivity|].
  cbn [replace_all]. destruct (Ascii.eqb c ">") eqn:E5; reflexivity.
Qed.

Lemma all_chars_app (p : ascii -> bool) (s1 s2 : string) :
  all_chars p (s1 ++ s2) = all_chars p s1 && all_chars p s2.
Proof.
  induction s1 as [| c s1 IH]; simpl; [reflexivity|]. now rewrite IH, andb_assoc.
Qed.

Lemma html_entity_clean (c : ascii) :
  all_chars (fun d => negb (is_markup d)) (html_entity c) = true.
Proof.
  unfold html_entity, is_markup.
  destruct (Ascii.eqb c "&") eqn:E1; [reflexivity|].
  destruct (Ascii.eqb c "<") eqn:E2; [reflexivity|].
  destruct (Ascii.eqb c ">") eqn:E3; [reflexivity|].
  destruct (Ascii.eqb c dquote) eqn:E4; [reflexivity|].
  simpl. now rewrite E2, E3, E4.
Qed.

Lemma attr_entity_clean (c : ascii) :
  all_chars (fun d => negb (is_markup d || Ascii.eqb d "'")) (attr_entity c) = true.
Proof.
  unfold attr_entity, is_markup.
  destruct (Ascii.eqb c "&") eqn:E1; [reflexivity|].
  destruct (Ascii.eqb c dquote) eqn:E2; [reflexivity|].
  destruct (Ascii.eqb c "'") eqn:E3; [reflexivity|].
  destruct (Ascii.eqb c "<") eqn:E4; [reflexivity|].
  destruct (Ascii.eqb c ">") eqn:E5; [reflexivity|].
  simpl. now rewrite E2, E3, E4, E5.
Qed.

Lemma html_app (s1 s2 : string) :
  escapeHtml (s1 ++ s2) = (escapeHtml s1 ++ escapeHtml s2)%string.
Proof.
  induction s1 as [| c s1 IH]; [reflexivity|].
  change (String c s1 ++ s2)%string with (String c (s1 ++ s2)).
  now rewrite !html_cons, IH, append_assoc.
Qed.

(** X10.  [escapeHtml] of the content script escapes in one pass: the
    four chained replacements amount to replacing each character by its
    own entity, so the [&] of an entity that a later replacement writes
    is not escaped again, and the escaped form of a text put together
    from two parts is the two escaped forms put together. *)
Theorem escapeHtml_one_pass (c : ascii) (s1 s2 : string) :
  escapeHtml (String c EmptyString) = html_entity c
  /\ escapeHtml (s1 ++ s2) = (escapeHtml s1 ++ escapeHtml s2)%string.
Proof.
  split; [| apply html_app].
  rewrite html_cons. change (escapeHtml EmptyString) with EmptyString.
  generalize (html_entity c). induction s as [| a s IH]; simpl; congruence.
Qed.

(** X11.  The text that [escapeHtml] returns contains no [<], no [>]
    and no double quote. *)
Theorem escapeHtml_no_markup (s : string) :
  all_chars (fun d => negb (is_markup d)) (escapeHtml s) = true.
Proof.
  induction s as [| c s IH]; [reflexivity|].
  now rewrite html_cons, all_chars_app, html_entity_clean, IH.
Qed.

(** X13.  [escapeAttr] of the popup also escapes in one pass, and the
    text it returns contains no [<], no [>], no double quote and no
    apostrophe: it cannot end the quoted attribute it is written
    into. *)
Theorem escapeAttr_no_markup (c : ascii) (s : string) :
  Popup.escapeAttr (String c s) = (attr_entity c ++ Popup.escapeAttr s)%string
  /\ all_chars (fun d => negb (is_markup d || Ascii.eqb d "'")) (Popup.escapeAttr (String c s))
     = true.
Proof.
  split; [apply attr_cons|].
  assert (forall t, all_chars (fun d => negb (is_markup d || Ascii.eqb d "'"))
                              (Popup.escapeAttr t) = true) as H.
  { induction t as [| d t IH]; [reflexivity|].
    now rewrite attr_cons, all_chars_app, attr_entity_clean, IH. }
  apply H.
Qed.

(** The entities form a prefix code. *)
Lemma html_entity_prefix (c1 c2 : ascii) (x y : string) :
  (html_entity c1 ++ x)%string = (html_entity c2 ++ y)%string -> c1 = c2 /\ x = y.
Proof.
  unfold html_entity.
  destruct (Ascii.eqb c1 "&") eqn:A1; [apply Ascii.eqb_eq in A1; subst c1 |];
  [| destruct (Ascii.eqb c1 "<") eqn:A2; [apply Ascii.eqb_eq in A2; subst c1 |];
   [| destruct (Ascii.eqb c1 ">") eqn:A3; [apply Ascii.eqb_eq in A3; subst c1 |];
    [| destruct (Ascii.eqb c1 dquote) eqn:A4; [apply Ascii.eqb_eq in A4; subst c1 |]]]];
  (destruct (Ascii.eqb c2 "&") eqn:B1; [apply Ascii.eqb_eq in B1; subst c2 |];
   [| destruct (Ascii.eqb c2 "<") eqn:B2; [apply Ascii.eqb_eq in B2; subst c2 |];
    [| destruct (Ascii.eqb c2 ">") eqn:B3; [apply Ascii.eqb_eq in B3; subst c2 |];
     [| destruct (Ascii.eqb c2 dquote) eqn:B4; [apply Ascii.eqb_eq in B4; subst c2 |]]]]);
  simpl; intros H; try discriminate H;
  try (injection H as H; subst; try discriminate; auto; fail);
  try (injection H; intros; subst; auto; fail).
Qed.

(** X12.  [escapeHtml] loses nothing: two texts with the same escaped
    form are the same text. *)
Theorem escapeHtml_injective (a b : string) : escapeHtml a = escapeHtml b -> a = b.
Proof.
  revert b. induction a as [| c a IH]; intros b H.
  - destruct b as [| d b]; [reflexivity|].
    rewrite html_cons in H. change (escapeHtml EmptyString) with EmptyString in H.
    unfold html_entity in H.
    destruct (Ascii.eqb d "&"); [discriminate H|].
    destruct (Ascii.eqb d "<"); [discriminate H|].
    destruct (Ascii.eqb d ">"); [discriminate H|].
    destruct (Ascii.eqb d dquote); discriminate H.
  - destruct b as [| d b].
    + rewrite html_cons in H. change (escapeHtml EmptyString) with EmptyString in H.
      unfold html_entity in H.
      destruct (Ascii.eqb c "&"); [discriminate H|].
      destruct (Ascii.eqb c "<"); [discriminate H|].
      destruct (Ascii.eqb c ">"); [discriminate H|].
      destruct (Ascii.eqb c dquote); discriminate H.
    + rewrite !html_cons in H.
      apply html_entity_prefix in H as [-> H]. f_equal. now apply IH.
Qed.

Lemma escapeHtml_injective_witness : "a<b" = "a<b".
Proof. exact (escapeHtml_injective "a<b" "a<b" eq_refl). Defined.

(* ================================================================== *)
(** * Properties of the popup *)
(* ================================================================== *)

(** ** Formats *)

Lemma suffix_off (it : Item) : Popup.suffix false it = EmptyString.
Proof. unfold Popup.suffix. destruct (number it); reflexivity. Qed.

Lemma suffix_without_number (b : bool) (it : Item) :
  Popup.suffix b (without_number it) = EmptyString.
Proof. reflexivity. Qed.

Lemma anchor_html_off (esc : string -> string) (b : bool) (it : Item) :
  Popup.anchor_html esc false it = Popup.anchor_html esc b (without_number it).
Proof.
  unfold Popup.anchor_html. now rewrite suffix_off, suffix_without_number.
Qed.

(** X14.  With the numbers switched off, the Markdown, plain and HTML
    texts and the rich-text HTML are those of the items without their
    numbers; the CSV text is the same with the switch on or off (its
    number column is always filled). *)
Theorem numbers_toggle (esc : string -> string) (items : list Item) :
  Popup.formatPlainText esc items "csv" false = Popup.formatPlainText esc items "csv" true
  /\ Popup.formatPlainText esc items "markdown" false
     = Popup.formatPlainText esc (map without_number items) "markdown" true
  /\ Popup.formatPlainText esc items "plain" false
     = Popup.formatPlainText esc (map without_number items) "plain" true
  /\ Popup.formatPlainText esc items "html" false
     = Popup.formatPlainText esc (map without_number items) "html" true
  /\ Popup.formatHtml esc items false
     = Popup.formatHtml esc (map without_number items) true.
Proof.
  split; [reflexivity|].
  unfold Popup.formatPlainText. cbn [String.eqb Ascii.eqb Bool.eqb].
  repeat split.
  - f_equal. rewrite map_map. apply map_ext. intros it.
    now rewrite suffix_off, suffix_without_number.
  - f_equal. rewrite map_map. apply map_ext. intros it.
    now rewrite suffix_off, suffix_without_number.
  - f_equal. rewrite map_map. apply map_ext. intros it. apply anchor_html_off.
  - unfold Popup.formatHtml.
    destruct items as [| it [| it2 items]]; cbn [map].
    + reflexivity.
    + apply anchor_html_off.
    + do 2 f_equal. rewrite (anchor_html_off esc true it), (anchor_html_off esc true it2).
      do 2 f_equal. rewrite map_map. f_equal. apply map_ext. intros x.
      now rewrite (anchor_html_off esc true x).
Qed.

(** The doubled title and the rest of a row cannot be read in two
    ways. *)
Lemma doubled_quotes_prefix (t1 : string) :
  forall t2 r1 r2,
    (replace_all dquote (String dquote (String dquote EmptyString)) t1
     ++ String dquote ("," ++ r1))%string
    = (replace_all dquote (String dquote (String dquote EmptyString)) t2
       ++ String dquote ("," ++ r2))%string ->
    t1 = t2 /\ r1 = r2.
Proof.
  induction t1 as [| c1 t1 IH]; intros t2 r1 r2 H.
  - destruct t2 as [| c2 t2].
    + simpl in H. injection H as ->. auto.
    + exfalso. simpl in H. destruct (Ascii.eqb c2 dquote) eqn:E.
      * simpl in H. discriminate H.
      * injection H as H _. subst c2. discriminate E.
  - destruct t2 as [| c2 t2].
    + exfalso. simpl in H. destruct (Ascii.eqb c1 dquote) eqn:E.
      * simpl in H. discriminate H.
      * injection H as H _. subst c1. discriminate E.
    + simpl in H.
      destruct (Ascii.eqb c1 dquote) eqn:E1; destruct (Ascii.eqb c2 dquote) eqn:E2.
      * apply Ascii.eqb_eq in E1, E2. subst. simpl in H. injection H as H.
        apply IH in H as [-> ->]. auto.
      * exfalso. simpl in H. injection H as H _. subst c2. discriminate E2.
      * exfalso. simpl in H. injection H as H _. subst c1. discriminate E1.
      * injection H as -> H. apply IH in H as [-> ->]. auto.
Qed.

(** X15.  The title column of a CSV row can be read back in one way
    only: two rows that are equal as text have the same title and the
    same remainder, whatever quotes and commas the titles contain. *)
Theorem csv_title_unambiguous (t1 t2 r1 r2 : string) :
  (Popup.csv_title t1 ++ "," ++ r1)%string = (Popup.csv_title t2 ++ "," ++ r2)%string ->
  t1 = t2 /\ r1 = r2.
Proof.
  unfold Popup.csv_title, Popup.quoted. cbn [append]. intros H. injection H as H.
  rewrite <- !append_assoc in H. cbn [append] in H.
  now apply doubled_quotes_prefix.
Qed.

Lemma csv_title_unambiguous_witness :
  "a, b" = "a, b" /\ "#1,https://github.com/x" = "#1,https://github.com/x".
Proof.
  exact (csv_title_unambiguous "a, b" "a, b" "#1,https://github.com/x"
           "#1,https://github.com/x" eq_refl).
Defined.

(** ** Selection *)

Lemma mem_app (x : string) (l1 l2 : list string) : mem x (l1 ++ l2) = mem x l1 || mem x l2.
Proof. unfold mem. apply existsb_app. Qed.

Lemma Set_has_add (ids : list string) (x u : string) :
  Popup.Set_has (Popup.Set_add ids x) u = Popup.Set_has ids u || String.eqb u x.
Proof.
  unfold Popup.Set_has, Popup.Set_add.
  destruct (mem x ids) eqn:E.
  - destruct (String.eqb u x) eqn:Eu; [| now rewrite orb_false_r].
    apply String.eqb_eq in Eu. subst. now rewrite E.
  - rewrite mem_app. simpl. now rewrite orb_false_r.
Qed.

Lemma Set_has_delete (ids : list string) (x u : string) :
  Popup.Set_has (Popup.Set_delete ids x) u = Popup.Set_has ids u && negb (String.eqb u x).
Proof.
  unfold Popup.Set_has, Popup.Set_delete, mem.
  induction ids as [| y ids IH]; simpl; [reflexivity|].
  destruct (String.eqb x y) eqn:Exy; simpl.
  - apply String.eqb_eq in Exy. subst y. rewrite IH.
    destruct (String.eqb u x); simpl; [now rewrite andb_false_r | reflexivity].
  - rewrite IH. destruct (String.eqb u y) eqn:Euy; simpl; [| reflexivity].
    apply String.eqb_eq in Euy. subst y.
    rewrite String.eqb_sym, Exy. reflexivity.
Qed.

Lemma Set_add_NoDup (ids : list string) (x : string) :
  NoDup ids -> NoDup (Popup.Set_add ids x).
Proof.
  intros H. unfold Popup.Set_add. destruct (mem x ids) eqn:E; [assumption|].
  apply NoDup_snoc; [assumption | now apply mem_false].
Qed.

Lemma Set_delete_NoDup (ids : list string) (x : string) :
  NoDup ids -> NoDup (Popup.Set_delete ids x).
Proof. intros H. now apply NoDup_filter. Qed.

Lemma fold_add_has (items : list Item) :
  forall ids u,
    Popup.Set_has (fold_left (fun ids item => Popup.Set_add ids (url item)) items ids) u
    = Popup.Set_has ids u || mem u (map url items).
Proof.
  induction items as [| it items IH]; intros ids u; simpl.
  - now rewrite orb_false_r.
  - rewrite IH, Set_has_add. now rewrite orb_assoc.
Qed.

Lemma fold_delete_has (items : list Item) :
  forall ids u,
    Popup.Set_has (fold_left (fun ids item => Popup.Set_delete ids (url item)) items ids) u
    = Popup.Set_has ids u && negb (mem u (map url items)).
Proof.
  induction items as [| it items IH]; intros ids u; simpl.
  - now rewrite andb_true_r.
  - rewrite IH, Set_has_delete, negb_orb. now rewrite andb_assoc.
Qed.

Lemma fold_NoDup (f : list string -> Item -> list string) (items : list Item) :
  (forall ids it, NoDup ids -> NoDup (f ids it)) ->
  forall ids, NoDup ids -> NoDup (fold_left f items ids).
Proof.
  intros Hf. induction items as [| it items IH]; intros ids H; simpl; auto.
Qed.

(** X16.  A click on the select-all link, when some visible item is
    not selected, selects every visible item and keeps what was
    selected; when all visible items are selected, it deselects exactly
    them.  The items and the visible items stay the same. *)
Theorem selectAll_click_toggles (st : Popup.State) (u : string) :
  let visible := Popup.getVisibleItems st in
  let allSelected := forallb (fun item => Popup.Set_has (Popup.selectedIds st) (url item)) visible in
  let st' := Popup.selectAll_click st in
  Popup.Set_has (Popup.selectedIds st') u
  = (if allSelected
     then Popup.Set_has (Popup.selectedIds st) u && negb (mem u (map url visible))
     else Popup.Set_has (Popup.selectedIds st) u || mem u (map url visible))
  /\ Popup.allItems st' = Popup.allItems st
  /\ Popup.getVisibleItems st' = visible.
Proof.
  cbv zeta. unfold Popup.selectAll_click.
  destruct (forallb _ (Popup.getVisibleItems st)) eqn:E; cbn [Popup.with_selected Popup.selectedIds Popup.allItems].
  - split; [apply fold_delete_has | split; reflexivity].
  - split; [apply fold_add_has | split; reflexivity].
Qed.

Lemma filter_all {A} (f : A -> bool) (l : list A) :
  (forall x, In x l -> f x = true) -> filter f l = l.
Proof.
  induction l as [| x l IH]; simpl; intros H; [reflexivity|].
  rewrite (H x) by now left. f_equal. apply IH. intros y Hy. apply H. now right.
Qed.

Lemma filter_none {A} (f : A -> bool) (l : list A) :
  (length (filter f l) =? 0) = negb (existsb f l).
Proof.
  induction l as [| x l IH]; simpl; [reflexivity|].
  destruct (f x); simpl; [reflexivity | exact IH].
Qed.

(** X17.  [handleCopy] copies the selected items, or all items when
    none is selected: what it takes is the items whose URL is selected,
    in the order of the list, when there is one, and the whole list
    otherwise.  Hence a copy with nothing selected writes what a copy
    with everything selected writes, and what is copied is empty only
    when there are no items at all. *)
Theorem copies_selection_or_everything (escapeHtml : string -> string) (st : Popup.State) :
  let selected item := Popup.Set_has (Popup.selectedIds st) (url item) in
  Popup.copied_items st
  = (if existsb selected (Popup.allItems st)
     then filter selected (Popup.allItems st)
     else Popup.allItems st)
  /\ Popup.handleCopy escapeHtml (Popup.with_selected st [])
     = Popup.handleCopy escapeHtml
         (Popup.with_selected st (map url (Popup.allItems st)))
  /\ (length (Popup.copied_items st) =? 0) = (length (Popup.allItems st) =? 0).
Proof.
  cbv zeta.
  assert (Popup.copied_items st
          = (if existsb (fun item => Popup.Set_has (Popup.selectedIds st) (url item))
                        (Popup.allItems st)
             then filter (fun item => Popup.Set_has (Popup.selectedIds st) (url item))
                         (Popup.allItems st)
             else Popup.allItems st)) as Hcopied.
  { unfold Popup.copied_items, Popup.getSelectedItems. cbv zeta.
    rewrite filter_none. now destruct (existsb _ (Popup.allItems st)). }
  split; [exact Hcopied |]. split.
  - assert (Popup.copied_items (Popup.with_selected st []) = Popup.allItems st) as Hnone.
    { unfold Popup.copied_items, Popup.getSelectedItems, Popup.with_selected. cbv zeta.
      cbn [Popup.allItems Popup.selectedIds].
      rewrite filter_none. unfold Popup.Set_has, mem. cbn [existsb].
      assert (forall l : list Item, existsb (fun _ => false) l = false) as Hf
          by (induction l; simpl; auto).
      now rewrite Hf. }
    assert (Popup.copied_items (Popup.with_selected st (map url (Popup.allItems st)))
            = Popup.allItems st) as Hall.
    { unfold Popup.copied_items, Popup.getSelectedItems, Popup.with_selected. cbv zeta.
      cbn [Popup.allItems Popup.selectedIds].
      rewrite filter_all; [now destruct (length (Popup.allItems st) =? 0) |].
      intros item Hin. apply mem_In. now apply in_map. }
    unfold Popup.handleCopy. cbv zeta. rewrite Hnone, Hall. reflexivity.
  - rewrite Hcopied.
    destruct (existsb _ (Popup.allItems st)) eqn:E; [| reflexivity].
    rewrite filter_none, E.
    destruct (Popup.allItems st); [discriminate E | reflexivity].
Qed.

(** X18.  The popup loads a response only when it reports success with
    at least one item; it then shows exactly the items of the response
    and all of them are selected. *)
Theorem loading_selects_all (st st' : Popup.State) (tab_url : option string)
        (response : option ExtractionResult) :
  Popup.extractFromPage st tab_url response = Popup.Loaded st' ->
  exists r,
    response = Some r /\ success r = true /\ items r <> []
    /\ Popup.allItems st' = items r
    /\ Popup.getSelectedItems st' = items r.
Proof.
  unfold Popup.extractFromPage.
  destruct tab_url as [u|]; [| discriminate].
  destruct (negb (starts_with "https://github.com" u)); [discriminate|].
  destruct response as [r|]; [| discriminate].
  destruct (success r) eqn:Hs; cbn [negb orb]; [| discriminate].
  destruct (length (items r) =? 0) eqn:Hl; [discriminate|].
  intros [= <-]. exists r. repeat split; auto.
  - intros H. rewrite H in Hl. discriminate Hl.
  - unfold Popup.getSelectedItems. cbn [Popup.allItems Popup.selectedIds].
    apply filter_all. intros it Hin. rewrite fold_add_has.
    apply orb_true_iff. right. apply mem_In. now apply in_map.
Qed.

Lemma loading_selects_all_witness :
  exists r,
    Some scenario_result = Some r /\ success r = true /\ items r <> []
    /\ scenario_items = items r /\ scenario_items = items r.
Proof.
  exact (loading_selects_all fresh_popup _ (Some "https://github.com/acme/widgets/pulls")
           (Some scenario_result) eq_refl).
Defined.

(** ** Filter, tabs and loading *)

Lemma starts_with_iff (p s : string) :
  starts_with p s = true <-> exists post, s = (p ++ post)%string.
Proof.
  revert s. induction p as [| a p IH]; intros s; simpl.
  - split; [intros _; now exists s | reflexivity].
  - destruct s as [| c s]; [split; [discriminate | intros [post H]; discriminate H]|].
    rewrite andb_true_iff, IH. split.
    + intros [E [post ->]]. apply Ascii.eqb_eq in E. subst. now exists post.
    + intros [post H]. injection H as -> ->. split; [apply Ascii.eqb_refl | now exists post].
Qed.

Lemma contains_iff (p s : string) :
  contains p s = true <-> exists pre post, s = (pre ++ p ++ post)%string.
Proof.
  induction s as [| c s IH]; simpl.
  - rewrite orb_false_r, starts_with_iff. split.
    + intros [post H]. now exists EmptyString, post.
    + intros (pre & post & H). destruct pre; [now exists post|discriminate H].
  - rewrite orb_true_iff, starts_with_iff, IH. split.
    + intros [[post H] | (pre & post & ->)].
      * now exists EmptyString, post.
      * now exists (String c pre), post.
    + intros (pre & post & H). destruct pre as [| a pre].
      * left. now exists post.
      * right. injection H as -> ->. now exists pre, post.
Qed.

Lemma contains_trans (a b c : string) :
  contains a b = true -> contains b c = true -> contains a c = true.
Proof.
  rewrite !contains_iff. intros (p1 & q1 & ->) (p2 & q2 & ->).
  exists (p2 ++ p1)%string, (q1 ++ q2)%string.
  now rewrite <- !append_assoc.
Qed.

Lemma matches_query_narrower (q1 q2 : string) (item : Item) :
  Popup.includes q2 q1 = true ->
  Popup.matches_query q2 item = true -> Popup.matches_query q1 item = true.
Proof.
  unfold Popup.matches_query, Popup.includes. intros Hq H.
  apply orb_true_iff in H as [H | H]; apply orb_true_iff.
  - left. eapply contains_trans; eassumption.
  - right. destruct (number item) as [n|]; [| discriminate].
    apply andb_true_iff in H as [Hn H]. rewrite Hn. simpl.
    eapply contains_trans; eassumption.
Qed.

(** X20.  Typing more narrows the list: when the query (the typed text
    in lower case and trimmed) contains an earlier query, every item
    visible for it was visible for the earlier one. *)
Theorem longer_query_shows_less (items : list Item) (ids : list string) (fmt v1 v2 : string)
        (withNumbers : bool) :
  Popup.includes (trim (Popup.toLowerCase v2)) (trim (Popup.toLowerCase v1)) = true ->
  incl (Popup.getVisibleItems (Popup.mkState items ids fmt v2 withNumbers))
       (Popup.getVisibleItems (Popup.mkState items ids fmt v1 withNumbers)).
Proof.
  unfold Popup.getVisibleItems. cbn [Popup.filterValue Popup.allItems]. intros Hq.
  destruct (is_empty (trim (Popup.toLowerCase v1))) eqn:E1.
  - destruct (is_empty (trim (Popup.toLowerCase v2))); [apply incl_refl | apply incl_filter].
  - destruct (is_empty (trim (Popup.toLowerCase v2))) eqn:E2.
    + exfalso. destruct (trim (Popup.toLowerCase v2)); [| discriminate E2].
      destruct (trim (Popup.toLowerCase v1)); [discriminate E1 | discriminate Hq].
    + intros item Hin. apply filter_In in Hin as [Hin Hm]. apply filter_In.
      split; [assumption|]. eapply matches_query_narrower; eassumption.
Qed.

Lemma longer_query_shows_less_witness :
  incl (Popup.getVisibleItems (Popup.mkState scenario_items [] "markdown" " Fix B" true))
       (Popup.getVisibleItems (Popup.mkState scenario_items [] "markdown" "FIX" true)).
Proof.
  exact (longer_query_shows_less scenario_items [] "markdown" "FIX" " Fix B" true eq_refl).
Defined.

Lemma toLowerCase_app (a b : string) :
  Popup.toLowerCase (a ++ b) = (Popup.toLowerCase a ++ Popup.toLowerCase b)%string.
Proof. induction a as [| c a IH]; simpl; congruence. Qed.

Lemma toLowerCase_contains (q s : string) :
  contains q s = true -> contains (Popup.toLowerCase q) (Popup.toLowerCase s) = true.
Proof.
  rewrite !contains_iff. intros (pre & post & ->).
  exists (Popup.toLowerCase pre), (Popup.toLowerCase post).
  now rewrite !toLowerCase_app.
Qed.

(** X21.  An item whose title is made of ASCII characters stays
    visible when the text typed in the filter, without blanks around
    it, is a part of its title, whatever the letter case of the rest of
    the title.  (On ASCII text the case conversion of the platform acts
    character by character; the typed text, a part of the title, is
    ASCII too.) *)
Theorem typed_part_of_title_is_shown (st : Popup.State) (item : Item) :
  In item (Popup.allItems st) ->
  all_chars is_ascii (title item) = true ->
  trim (Popup.toLowerCase (Popup.filterValue st)) = Popup.toLowerCase (Popup.filterValue st) ->
  Popup.includes (title item) (Popup.filterValue st) = true ->
  In item (Popup.getVisibleItems st).
Proof.
  intros Hin _ Htrim Hsub. unfold Popup.getVisibleItems.
  destruct (is_empty (trim (Popup.toLowerCase (Popup.filterValue st)))); [assumption|].
  apply filter_In. split; [assumption|].
  unfold Popup.matches_query. apply orb_true_iff. left.
  rewrite Htrim. now apply toLowerCase_contains.
Qed.

Lemma typed_part_of_title_is_shown_witness :
  In (mkItem "Add feature" "https://github.com/acme/widgets/pull/2" (Some "#2"))
     (Popup.getVisibleItems (Popup.mkState scenario_items [] "markdown" "feat" true)).
Proof.
  apply (typed_part_of_title_is_shown
           (Popup.mkState scenario_items [] "markdown" "feat" true)).
  - right. now left.
  - reflexivity.
  - reflexivity.
  - reflexivity.
Defined.

Lemma isGitHub_prefix (u : string) : isGitHub u = starts_with "https://github.com/" u.
Proof.
  unfold isGitHub, re. rewrite test_search, search_bol.
  unfold match_here. cbn [rmatch].
  destruct (lit_match false "https://github.com/" u None) as [[p t]|] eqn:E.
  - apply lit_match_inv in E. symmetry. apply starts_with_iff. now exists t.
  - symmetry. destruct (starts_with "https://github.com/" u) eqn:Es; [| reflexivity].
    apply starts_with_iff in Es as [post ->].
    destruct (lit_match_app "https://github.com/" post None) as [p Hp]. congruence.
Qed.

(** X22.  [isGitHub] holds exactly of the URLs that start with
    [https://github.com/], and the popup treats every such tab as a
    GitHub page: what it shows depends on the response only. *)
Theorem isGitHub_pages_reach_the_popup (st : Popup.State) (u : string)
        (response : option ExtractionResult) :
  isGitHub u = true ->
  starts_with "https://github.com/" u = true
  /\ Popup.extractFromPage st (Some u) response
     = Popup.extractFromPage st (Some "https://github.com/") response.
Proof.
  rewrite isGitHub_prefix. intros H. split; [assumption|].
  apply starts_with_iff in H as [post ->]. reflexivity.
Qed.

Lemma isGitHub_pages_reach_the_popup_witness :
  starts_with "https://github.com/" "https://github.com/acme/widgets/pulls" = true
  /\ Popup.extractFromPage fresh_popup (Some "https://github.com/acme/widgets/pulls")
       (Some scenario_result)
     = Popup.extractFromPage fresh_popup (Some "https://github.com/") (Some scenario_result).
Proof.
  exact (isGitHub_pages_reach_the_popup fresh_popup "https://github.com/acme/widgets/pulls"
           (Some scenario_result) eq_refl).
Defined.

(** X19.  The popup after the engine: for the result of [extractItems]
    on a GitHub tab, the popup shows the message ["No extractable items
    found on this page."] when the result reports failure, and
    otherwise loads exactly the items of the result, all selected. *)
Theorem popup_after_extractItems URLctor location doc r st u :
  fst (extractItems URLctor location PAGE_RULES doc) = Normal r ->
  isGitHub u = true ->
  (success r = false
   /\ Popup.extractFromPage st (Some u) (Some r) = Popup.Empty no_items_error)
  \/ (success r = true
      /\ exists st', Popup.extractFromPage st (Some u) (Some r) = Popup.Loaded st'
                     /\ Popup.allItems st' = items r
                     /\ Popup.getSelectedItems st' = items r).
Proof.
  intros Hr Hu. rewrite isGitHub_prefix in Hu. apply starts_with_iff in Hu as [post ->].
  unfold extractItems in Hr.
  destruct (detectPage location PAGE_RULES) as [page rules']. cbn [fst] in Hr.
  apply extract_for_cases in Hr as [-> | (its & Hne & ->)].
  - left. split; reflexivity.
  - right. split; [reflexivity|].
    destruct its as [| it its]; [contradiction|].
    eexists. split; [reflexivity|]. cbn [Popup.allItems items]. split; [reflexivity|].
    unfold Popup.getSelectedItems. cbn [Popup.allItems Popup.selectedIds].
    apply filter_all. intros x Hin. rewrite fold_add_has.
    apply orb_true_iff. right. apply mem_In. now apply in_map.
Qed.

Lemma popup_after_extractItems_witness :
  (false = false
   /\ Popup.extractFromPage fresh_popup (Some "https://github.com/acme/widgets")
        (Some (mkResult false None None (mkRepo "acme" "widgets") []
                        (Some no_items_error) None))
      = Popup.Empty no_items_error)
  \/ (false = true
      /\ exists st',
           Popup.extractFromPage fresh_popup (Some "https://github.com/acme/widgets")
             (Some (mkResult false None None (mkRepo "acme" "widgets") []
                             (Some no_items_error) None))
           = Popup.Loaded st'
           /\ Popup.allItems st' = [] /\ Popup.getSelectedItems st' = []).
Proof.
  exact (popup_after_extractItems URL_new (at_path "/acme/widgets" EmptyString)
           navigation_only_page _ fresh_popup "https://github.com/acme/widgets"
           eq_refl eq_refl).
Defined.

(* ================================================================== *)
(** * Properties of the orchestrator *)
(* ================================================================== *)

(** X23.  The items of a successful result come from exactly one
    strategy, in this order: the extractor of the classified page type;
    else the retry over all extractors, when that extractor gave
    nothing; else the generic extractor, when the retry gave nothing
    either. *)
Theorem extractItems_escalation URLctor location doc r :
  let page := fst (detectPage location PAGE_RULES) in
  fst (extractItems URLctor location PAGE_RULES doc) = Normal r ->
  success r = true ->
  try_specific URLctor location page doc = Normal (items r)
  \/ (try_specific URLctor location page doc = Normal []
      /\ try_all (EXTRACTORS URLctor location) doc [] = Normal (items r))
  \/ (try_specific URLctor location page doc = Normal []
      /\ try_all (EXTRACTORS URLctor location) doc [] = Normal []
      /\ genericExtract URLctor location doc = Normal (items r)).
Proof.
  cbv zeta. unfold extractItems.
  destruct (detectPage location PAGE_RULES) as [page rules']. cbn [fst].
  unfold extract_for.
  destruct (try_specific URLctor location page doc) as [items0|e]; cbn [bind];
    [| discriminate].
  destruct items0 as [| it0 items0]; cbn [length Nat.eqb].
  - destruct (try_all (EXTRACTORS URLctor location) doc []) as [items1|e]; cbn [bind];
      [| discriminate].
    destruct items1 as [| it1 items1]; cbn [length Nat.eqb].
    + destruct (genericExtract URLctor location doc) as [items2|e]; cbn [bind];
        [| discriminate].
      destruct items2 as [| it2 items2]; cbn [length Nat.eqb]; intros [= <-];
        [discriminate|]. intros _. right. right. auto.
    + cbn [bind length Nat.eqb]. intros [= <-] _. right. left. auto.
  - cbn [bind length Nat.eqb]. intros [= <-] _. now left.
Qed.

(** On a milestones page that shows pull-request rows the items come
    from the retry. *)
Lemma extractItems_escalation_witness :
  let location := at_path "/acme/widgets/milestones" EmptyString in
  let page := fst (detectPage location PAGE_RULES) in
  try_specific URL_new location page repeated_row_page = Normal scenario_items
  \/ (try_specific URL_new location page repeated_row_page = Normal []
      /\ try_all (EXTRACTORS URL_new location) repeated_row_page [] = Normal scenario_items)
  \/ (try_specific URL_new location page repeated_row_page = Normal []
      /\ try_all (EXTRACTORS URL_new location) repeated_row_page [] = Normal []
      /\ genericExtract URL_new location repeated_row_page = Normal scenario_items).
Proof.
  exact (extractItems_escalation URL_new (at_path "/acme/widgets/milestones" EmptyString)
           repeated_row_page
           (mkResult true (Some "milestonesList") (Some "Milestones")
                     (mkRepo "acme" "widgets") scenario_items None
                     (Some "https://github.com/acme/widgets/milestones"))
           eq_refl eq_refl).
Defined.

(** ** The only exception *)

Section Resolvable.

Variable URLctor : string -> string -> option URL.
Variable location : Location.
Variable doc : Node.

(** Every [href] of the document resolves. *)
Hypothesis resolves :
  forall href, In href (doc_hrefs doc) ->
               exists u, URLctor href (loc_origin location) = Some u.

Lemma collect_link_returns (st : Collector) (link : Element) (sel : Selector) :
  In link (querySelectorAll doc sel) ->
  exists st', collect_link URLctor location st link = Normal st'.
Proof.
  intros Hin. unfold collect_link.
  destruct (getAttribute link "href") as [href|] eqn:Hattr; [| now eexists].
  destruct (is_empty href || mem href (seen st)); [now eexists|].
  destruct (rejected_by (pattern_obj st) href) as [skip pat'].
  destruct skip; [now eexists|].
  destruct (is_empty (trim (textContent link))); [now eexists|].
  unfold new_URL.
  destruct (resolves href (in_doc_hrefs _ _ _ _ Hin Hattr)) as [u ->].
  cbn [bind]. now eexists.
Qed.

Lemma collect_links_returns (sel : Selector) (links : list Element) :
  (forall link, In link links -> In link (querySelectorAll doc sel)) ->
  forall st, exists st', collect_links URLctor location st links = Normal st'.
Proof.
  induction links as [| link links IH]; intros Hsub st; simpl; [now eexists|].
  destruct (collect_link_returns st link sel) as [st1 ->]; [apply Hsub; now left|].
  cbn [bind]. apply IH. intros l Hl. apply Hsub. now right.
Qed.

Lemma extractLinks_returns (selectors : list Selector) (pat : option RegExp) :
  exists its, extractLinks URLctor location doc selectors pat = Normal its.
Proof.
  unfold extractLinks.
  assert (forall st, exists st',
             collect_selectors URLctor location doc st selectors = Normal st') as H.
  { induction selectors as [| sel selectors IH]; intros st; simpl; [now eexists|].
    destruct (collect_links_returns sel (querySelectorAll doc sel)) with (st := st)
      as [st1 ->]; [auto|].
    cbn [bind]. apply IH. }
  destruct (H (mkCollector [] [] pat)) as [st ->]. cbn [bind]. now eexists.
Qed.

Lemma EXTRACTORS_return :
  Forall (fun entry => exists its, snd entry doc = Normal its) (EXTRACTORS URLctor location).
Proof.
  unfold EXTRACTORS. repeat constructor; cbn [snd]; apply extractLinks_returns.
Qed.

Lemma try_all_returns (table : list (string * (Node -> completion (list Item)))) :
  Forall (fun entry => exists its, snd entry doc = Normal its) table ->
  forall its0, exists its, try_all table doc its0 = Normal its.
Proof.
  induction 1 as [| [key f] table [its1 Hf] _ IH]; intros its0; simpl; [now eexists|].
  cbn [snd] in Hf. rewrite Hf. cbn [bind].
  destruct (0 <? length its1); [now eexists | apply IH].
Qed.

Lemma try_specific_returns (page : Page) :
  exists its, try_specific URLctor location page doc = Normal its.
Proof.
  unfold try_specific.
  destruct (page_type page) as [t|]; [| now eexists].
  destruct (is_empty t); [now eexists|].
  destruct (lookup_extractor t (EXTRACTORS URLctor location)) as [f|] eqn:E; [| now eexists].
  apply lookup_extractor_in in E.
  pose proof EXTRACTORS_return as H. rewrite Forall_forall in H.
  exact (H _ E).
Qed.

End Resolvable.

(** X24.  The invalid URL is the only way for [extractItems] to fail:
    on a document all of whose [href] attributes resolve, the call
    returns a result. *)
Theorem extractItems_returns_when_hrefs_resolve URLctor location doc :
  (forall href, In href (doc_hrefs doc) ->
                exists u, URLctor href (loc_origin location) = Some u) ->
  exists r, fst (extractItems URLctor location PAGE_RULES doc) = Normal r.
Proof.
  intros Hres. unfold extractItems.
  destruct (detectPage location PAGE_RULES) as [page rules']. cbn [fst].
  unfold extract_for.
  destruct (try_specific_returns URLctor location doc Hres page) as [items0 ->].
  cbn [bind].
  assert (exists items1,
             (if length items0 =? 0
              then try_all (EXTRACTORS URLctor location) doc items0
              else Normal items0) = Normal items1) as [items1 ->].
  { destruct (length items0 =? 0); [| now eexists].
    apply try_all_returns. now apply EXTRACTORS_return. }
  cbn [bind].
  assert (exists items2,
             (if length items1 =? 0 then genericExtract URLctor location doc
              else Normal items1) = Normal items2) as [items2 ->].
  { destruct (length items1 =? 0); [apply genericExtract_total | now eexists]. }
  cbn [bind]. destruct (length items2 =? 0); now eexists.
Qed.

Lemma extractItems_returns_when_hrefs_resolve_witness :
  exists r,
    fst (extractItems URL_new (at_path "/acme/widgets/pulls" EmptyString) PAGE_RULES
           two_spellings_page) = Normal r.
Proof.
  apply (extractItems_returns_when_hrefs_resolve URL_new
           (at_path "/acme/widgets/pulls" EmptyString) two_spellings_page).
  intros href Hin. simpl in Hin.
  destruct Hin as [<- | [<- | []]]; eexists; vm_compute; reflexivity.
Defined.
